(** * TunaDex: anomaly detection and aggregation engine

    A shallow embedding of the decision logic of the repository:
    - [tunadex/extraction/schema.py]: the record model and
      [DailyPayload.compute_totals];
    - [tunadex/config.py]: [AWB_PATTERN], [KNOWN_CUSTOMERS] and
      [KNOWN_SPECIES];
    - [tunadex/email/parser.py]: [extract_awbs], the scans for customers,
      species, weights and box counts, and [first_pass_extract];
    - [tunadex/anomaly/detector.py]: [AnomalyDetector].

    Conventions of the embedding.
    - Python [int] is [Z]; a count kept by [collections.Counter] is [nat].
    - Python [float] is the kernel's binary64 [float]; [+], [<] and [>] are
      [PrimFloat.add] and [PrimFloat.ltb].
    - Python [str] is [string]. The functions that call [str.lower] take
      it as a parameter, [str_lower], and the theorems about them hold
      whatever it does to a string; [lower], which folds the letters A to Z,
      is what [str.lower] does to an ASCII text, and the examples run with
      it. The character classes of [re] are given for the code points below
      128, where they need no Unicode table: a theorem that depends on them
      is stated for ASCII texts.
    - [X | None] is [option X].
    - A [dict] read only through its keys is a [gmap]; a [Counter], whose
      iteration order decides the order of the output, is an association
      list in insertion order.
    - A [for] loop that updates local variables is a left fold over the
      iterated list, the variables being the accumulator. *)

From Stdlib Require Import ZArith Ascii String List Bool Lia Floats.
From stdpp Require Import gmap strings list fin_maps.

Local Open Scope string_scope.
Local Open Scope list_scope.
Local Open Scope Z_scope.

(* ===================================================================== *)
(** * Python idioms *)
(* ===================================================================== *)

(** [x or d] on [int | None]: [None] and [0] are falsy. *)
Definition int_or (x : option Z) (d : Z) : Z :=
  match x with
  | Some v => if Z.eqb v 0 then d else v
  | None => d
  end.

(** [x or d] on [float | None]: [None], [0.0] and [-0.0] are falsy; a NaN is
    truthy. *)
Definition float_or (x : option float) (d : float) : float :=
  match x with
  | Some v => if PrimFloat.eqb v 0%float then d else v
  | None => d
  end.

(** [x or d] on [str | None]: [None] and the empty string are falsy. *)
Definition str_or (x : option string) (d : string) : string :=
  match x with
  | Some "" => d
  | Some v => v
  | None => d
  end.

(** [ch.lower()] on the code points below 128: the letters A to Z are
    folded, nothing else is. *)
Definition lower_ascii (c : ascii) : ascii :=
  let n := nat_of_ascii c in
  if (Nat.leb 65 n && Nat.leb n 90)%bool then ascii_of_nat (n + 32) else c.

(** [str.lower] on an ASCII text. *)
Fixpoint lower (s : string) : string :=
  match s with
  | EmptyString => EmptyString
  | String c s' => String (lower_ascii c) (lower s')
  end.

(* ===================================================================== *)
(** * schema.py: the record model *)
(* ===================================================================== *)

Inductive AttachmentType := PDF | EXCEL | CSV | IMAGE | OTHER.

Inductive AnomalyType :=
  | DOUBLE_COUNT
  | MISSING_PAPERWORK
  | AWB_MISMATCH
  | WEIGHT_OUTLIER
  | MISSING_AWB
  | MISSING_DATA.

Inductive Severity := WARNING | ERROR.

(** [datetime.date]. *)
Record date := Date { year : Z; month : Z; day : Z }.

(** [datetime.datetime], to the second. *)
Record datetime := Datetime { on_day : date; hour : Z; minute : Z; second : Z }.

Module AttachmentMeta.
Record t := mk {
  attachment_id : string;
  filename : string;
  mime_type : string;
  size_bytes : Z;
  attachment_type : AttachmentType;
  drive_url : option string
}.
End AttachmentMeta.

Module EmailDetail.
Record t := mk {
  message_id : string;
  thread_id : string;
  subject : string;
  sender : string;
  date : option datetime;
  body_text : string;
  body_html : string;
  attachments : list AttachmentMeta.t
}.
End EmailDetail.

Module ShipmentLine.
Record t := mk {
  customer_name : string;
  company : option string;
  species : string;
  boxes : option Z;
  weight_lbs : option float;
  size_category : option string;
  count_per_box : option Z;
  notes : option string
}.
End ShipmentLine.

Module Shipment.
Record t := mk {
  awb : string;
  date : date;
  supplier : string;
  freight_forwarder : option string;
  lines : list ShipmentLine.t;
  source_email_ids : list string
}.
End Shipment.

(** The text of [Anomaly.description]. The detector builds it with an
    f-string; the embedding keeps the template (one constructor per f-string
    of the source) and the values interpolated into it. *)
Inductive Description :=
  | Text (s : string)
  | DuplicateLineItems (awb : string) (count : nat)
      (desc_parts : list (string * string * nat))
  | SplitShipment (awb : string) (count : nat)
  | MissingPaperwork (subject awb : string)
  | NoAwb (supplier : string) (on : date)
  | NonStandardFormat (awb : string)
  | OutsideTypicalRange (awb species customer_name : string)
      (weight min_w max_w : float).

Module Anomaly.
Record t := mk {
  anomaly_type : AnomalyType;
  severity : Severity;
  description : Description;
  related_awb : option string;
  related_emails : list string
}.
End Anomaly.

Module SpeciesTotal.
Record t := mk { boxes : Z; weight_lbs : float }.
(** [SpeciesTotal()]: the field defaults. *)
Definition new : t := mk 0 0%float.
End SpeciesTotal.

Module CustomerTotal.
Record t := mk { boxes : Z; weight_lbs : float; order_count : Z }.
(** [CustomerTotal()]: the field defaults. *)
Definition new : t := mk 0 0%float 0.
End CustomerTotal.

Module ShipmentTotals.
Record t := mk {
  total_boxes : Z;
  total_weight_lbs : float;
  species_breakdown : gmap string SpeciesTotal.t;
  customer_breakdown : gmap string CustomerTotal.t
}.
(** [ShipmentTotals()]: the field defaults. *)
Definition new : t := mk 0 0%float ∅ ∅.
End ShipmentTotals.

Module DailyPayload.
Record t := mk {
  date : date;
  run_timestamp : datetime;
  emails_processed : Z;
  shipments : list Shipment.t;
  anomalies : list Anomaly.t;
  totals : ShipmentTotals.t
}.
End DailyPayload.

(** ** Construction of a [ShipmentLine]

    A call of the [ShipmentLine] class with well-typed keyword arguments.
    The two fields declared without a default are required: pydantic raises a
    [ValidationError] naming each one that is not supplied. Every other
    field defaults to [None]. The class declares no validator and no
    [Field] constraint. *)

Record ShipmentLine_kwargs := Kwargs {
  kw_customer_name : option string;
  kw_company : option string;
  kw_species : option string;
  kw_boxes : option Z;
  kw_weight_lbs : option float;
  kw_size_category : option string;
  kw_count_per_box : option Z;
  kw_notes : option string
}.

(** The field names a [ValidationError] reports as missing. *)
Inductive ValidationError := Missing (fields : list string).

Definition ShipmentLine_init (kw : ShipmentLine_kwargs)
  : ValidationError + ShipmentLine.t :=
  match kw_customer_name kw, kw_species kw with
  | Some customer_name, Some species =>
      inr (ShipmentLine.mk customer_name (kw_company kw) species
             (kw_boxes kw) (kw_weight_lbs kw) (kw_size_category kw)
             (kw_count_per_box kw) (kw_notes kw))
  | None, Some _ => inl (Missing ["customer_name"])
  | Some _, None => inl (Missing ["species"])
  | None, None => inl (Missing ["customer_name"; "species"])
  end.

(* ===================================================================== *)
(** * schema.py: [DailyPayload.compute_totals] *)
(* ===================================================================== *)

(** The four local accumulators of [compute_totals]. *)
Record Accumulators := Acc {
  acc_total_boxes : Z;
  acc_total_weight : float;
  acc_species : gmap string SpeciesTotal.t;
  acc_customers : gmap string CustomerTotal.t
}.

(** [sp = species.setdefault(key, SpeciesTotal()); sp.boxes += boxes;
    sp.weight_lbs += weight]. [setdefault] returns the object stored in the
    dict, so the two updates are seen through the dict. *)
Definition species_add (key : string) (boxes : Z) (weight : float)
    (species : gmap string SpeciesTotal.t) : gmap string SpeciesTotal.t :=
  let sp := default SpeciesTotal.new (species !! key) in
  <[key := SpeciesTotal.mk (SpeciesTotal.boxes sp + boxes)
             (SpeciesTotal.weight_lbs sp + weight)%float]> species.

(** [ct = customers.setdefault(name, CustomerTotal()); ct.boxes += boxes;
    ct.weight_lbs += weight; ct.order_count += 1]. *)
Definition customers_add (name : string) (boxes : Z) (weight : float)
    (customers : gmap string CustomerTotal.t) : gmap string CustomerTotal.t :=
  let ct := default CustomerTotal.new (customers !! name) in
  <[name := CustomerTotal.mk (CustomerTotal.boxes ct + boxes)
              (CustomerTotal.weight_lbs ct + weight)%float
              (CustomerTotal.order_count ct + 1)]> customers.

(** The body of the inner loop, for one line. *)
Definition totals_line (a : Accumulators) (line : ShipmentLine.t)
  : Accumulators :=
  let boxes := int_or (ShipmentLine.boxes line) 0 in
  let weight := float_or (ShipmentLine.weight_lbs line) 0%float in
  let name :=
    str_or (ShipmentLine.company line) (ShipmentLine.customer_name line) in
  Acc (acc_total_boxes a + boxes)
      (acc_total_weight a + weight)%float
      (species_add (ShipmentLine.species line) boxes weight (acc_species a))
      (customers_add name boxes weight (acc_customers a)).

(** The inner loop, over the lines of one shipment. *)
Definition totals_shipment (a : Accumulators) (shipment : Shipment.t)
  : Accumulators :=
  fold_left totals_line (Shipment.lines shipment) a.

(** The outer loop, from the zeroed accumulators. *)
Definition totals_loop (shipments : list Shipment.t) : Accumulators :=
  fold_left totals_shipment shipments (Acc 0 0%float ∅ ∅).

(** [compute_totals] returns nothing and assigns [self.totals]: the
    embedding returns the payload after the assignment. *)
Definition compute_totals (self : DailyPayload.t) : DailyPayload.t :=
  let a := totals_loop (DailyPayload.shipments self) in
  DailyPayload.mk
    (DailyPayload.date self)
    (DailyPayload.run_timestamp self)
    (DailyPayload.emails_processed self)
    (DailyPayload.shipments self)
    (DailyPayload.anomalies self)
    (ShipmentTotals.mk (acc_total_boxes a) (acc_total_weight a)
       (acc_species a) (acc_customers a)).

(* ===================================================================== *)
(** * The fragment of [re] used by the repository *)
(* ===================================================================== *)

(** [\d] on the code points below 128: the digits 0 to 9. *)
Definition is_digit (c : ascii) : bool :=
  let n := nat_of_ascii c in (Nat.leb 48 n && Nat.leb n 57)%bool.

(** [\s] on the code points below 128: tab, newline, vertical tab, form
    feed, carriage return, the four separators 0x1c to 0x1f, and the
    space. *)
Definition is_space (c : ascii) : bool :=
  let n := nat_of_ascii c in
  ((Nat.leb 9 n && Nat.leb n 13) || (Nat.leb 28 n && Nat.leb n 32))%bool.

(** [\w] on the code points below 128: letters, digits and the
    underscore. *)
Definition is_word (c : ascii) : bool :=
  let n := nat_of_ascii c in
  ((Nat.leb 48 n && Nat.leb n 57) || (Nat.leb 65 n && Nat.leb n 90)
   || (Nat.leb 97 n && Nat.leb n 122) || Nat.eqb n 95)%bool.

(** The class [[-\s]]. *)
Definition is_sep (c : ascii) : bool :=
  (Ascii.eqb c "-" || is_space c)%bool.

Inductive regex :=
  | Class (p : ascii → bool)      (* a one-character class *)
  | Seq (r1 r2 : regex)           (* r1 r2 *)
  | Opt (r : regex)               (* r?  (greedy) *)
  | Rep (n : nat) (r : regex)     (* r{n} *)
  | WordBoundary                  (* \b *)
  | Bol                           (* ^, without MULTILINE *)
  | Eol.                          (* $, without MULTILINE *)

Infix "⋅" := Seq (at level 41, right associativity).

(** Is the character before (after) the current position a word character?
    Outside the subject counts as a non-word character. *)
Definition word_before (prev : option ascii) : bool :=
  match prev with Some c => is_word c | None => false end.

Definition word_after (s : string) : bool :=
  match s with String c _ => is_word c | EmptyString => false end.

(** The backtracking matcher. [prev] is the character before the current
    position, [s] the subject from the current position on, and [k] what
    remains to be matched after [r]. The result is the subject left after
    the first match in backtracking order. *)
Fixpoint rmatch (r : regex) (prev : option ascii) (s : string)
    (k : option ascii → string → option string) : option string :=
  match r with
  | Class p =>
      match s with
      | String c s' => if p c then k (Some c) s' else None
      | EmptyString => None
      end
  | Seq r1 r2 => rmatch r1 prev s (λ prev' s', rmatch r2 prev' s' k)
  | Opt r1 =>
      match rmatch r1 prev s k with
      | Some rest => Some rest
      | None => k prev s
      end
  | Rep n r1 =>
      (fix rep (n : nat) (prev : option ascii) (s : string) : option string :=
         match n with
         | O => k prev s
         | S n' => rmatch r1 prev s (rep n')
         end) n prev s
  | WordBoundary =>
      if xorb (word_before prev) (word_after s) then k prev s else None
  | Bol =>
      match prev with
      | None => k prev s
      | Some _ => None
      end
  | Eol =>
      match s with
      | EmptyString => k prev s
      | String c EmptyString =>
          if Ascii.eqb c "010" then k prev s else None
      | _ => None
      end
  end.

(** One match attempt at the current position. *)
Definition match_here (r : regex) (prev : option ascii) (s : string)
  : option string :=
  rmatch r prev s (λ _ rest, Some rest).

(** [pattern.match(s)]: an attempt at the start of the subject. *)
Definition re_match (r : regex) (s : string) : option string :=
  match_here r None s.

(** The text consumed by a match of subject [s] that left [rest]. *)
Definition matched (s rest : string) : string :=
  substring 0 (String.length s - String.length rest) s.

(** [re.findall] for a pattern whose matches are never empty: scan left to
    right, try a match at each position, and resume after the end of each
    match ([skip] counts the characters of the last match still to pass). *)
Fixpoint findall_from (r : regex) (prev : option ascii) (s : string)
    (skip : nat) : list string :=
  match s with
  | EmptyString => []
  | String c s' =>
      match skip with
      | S n => findall_from r (Some c) s' n
      | O =>
          match match_here r prev s with
          | Some rest =>
              let m := matched s rest in
              m :: findall_from r (Some c) s' (String.length m - 1)
          | None => findall_from r (Some c) s' 0
          end
      end
  end.

Definition findall (r : regex) (s : string) : list string :=
  findall_from r None s 0.

(** [re.sub(cls, "", s)] for a one-character class. *)
Fixpoint sub_delete (p : ascii → bool) (s : string) : string :=
  match s with
  | EmptyString => EmptyString
  | String c s' => if p c then sub_delete p s' else String c (sub_delete p s')
  end.

(* ===================================================================== *)
(** * config.py and email/parser.py *)
(* ===================================================================== *)

(** [AWB_PATTERN = r"\b(\d{3}[-\s]?\d{4}[-\s]?\d{4})\b"]. The only group
    encloses everything but the two zero-width assertions, so group 1, which
    [findall] returns, is the text of the match. *)
Definition AWB_PATTERN : regex :=
  WordBoundary ⋅ Rep 3 (Class is_digit) ⋅ Opt (Class is_sep)
  ⋅ Rep 4 (Class is_digit) ⋅ Opt (Class is_sep)
  ⋅ Rep 4 (Class is_digit) ⋅ WordBoundary.

Definition extract_awbs (text : string) : list string :=
  let raw := findall AWB_PATTERN text in
  map (sub_delete is_sep) raw.

(* ===================================================================== *)
(** * anomaly/detector.py *)
(* ===================================================================== *)

(** [collections.Counter]: keys in order of first insertion. *)
Fixpoint counter_incr {K : Type} `{EqDecision K} (k : K)
    (c : list (K * nat)) : list (K * nat) :=
  match c with
  | [] => [(k, 1%nat)]
  | (k', n) :: c' =>
      if decide (k = k') then (k', S n) :: c' else (k', n) :: counter_incr k c'
  end.

Definition Counter {K : Type} `{EqDecision K} (xs : list K)
  : list (K * nat) :=
  fold_left (λ c x, counter_incr x c) xs [].

Definition SPECIES_WEIGHT_RANGES : gmap string (float * float) :=
  list_to_map [
    ("swordfish", (40.0, 500.0)%float);
    ("yellowtail", (5.0, 200.0)%float);
    ("yellowfin tuna", (20.0, 400.0)%float);
    ("bigeye tuna", (20.0, 500.0)%float);
    ("albacore tuna", (10.0, 200.0)%float);
    ("black grouper", (5.0, 150.0)%float);
    ("salmon", (5.0, 150.0)%float);
    ("snapper", (5.0, 100.0)%float);
    ("red snapper", (5.0, 100.0)%float);
    ("tilefish", (5.0, 100.0)%float);
    ("opah", (20.0, 300.0)%float);
    ("mahi mahi", (5.0, 150.0)%float)
  ].

(** [[s for s in shipments if s.awb == awb]]. *)
Definition dupes_of (awb : string) (shipments : list Shipment.t)
  : list Shipment.t :=
  List.filter (λ s, String.eqb (Shipment.awb s) awb) shipments.

(** [[eid for s in dupes for eid in s.source_email_ids]]. *)
Definition emails_of (dupes : list Shipment.t) : list string :=
  flat_map Shipment.source_email_ids dupes.

(** The functions of the detector that call [str.lower], with [str.lower]
    as the parameter [str_lower]. *)
Section StrLower.

Variable str_lower : string → string.

(** The keys appended to [all_lines]. *)
Definition line_key_with (line : ShipmentLine.t) : string * string :=
  (str_lower (ShipmentLine.customer_name line),
   str_lower (ShipmentLine.species line)).

Definition all_lines_of_with (dupes : list Shipment.t)
  : list (string * string) :=
  fold_left
    (λ all_lines s,
       fold_left (λ all_lines line, all_lines ++ [line_key_with line])
         (Shipment.lines s) all_lines)
    dupes [].

(** The body of the loop of [check_double_counts] for one item of
    [awb_counts]. *)
Definition double_count_item_with (shipments : list Shipment.t)
    (anomalies : list Anomaly.t) (item : string * nat) : list Anomaly.t :=
  let '(awb, count) := item in
  if Nat.leb count 1 then anomalies
  else
    let dupes := dupes_of awb shipments in
    let all_lines := all_lines_of_with dupes in
    let line_counts := Counter all_lines in
    let duplicate_lines :=
      List.filter (λ kv, Nat.ltb 1 (snd kv)) line_counts in
    match duplicate_lines with
    | _ :: _ =>
        let desc_parts :=
          map (λ kv, (fst (fst kv), snd (fst kv), snd kv)) duplicate_lines in
        anomalies ++
          [Anomaly.mk DOUBLE_COUNT ERROR
             (DuplicateLineItems awb count desc_parts)
             (Some awb) (emails_of dupes)]
    | [] =>
        anomalies ++
          [Anomaly.mk DOUBLE_COUNT WARNING (SplitShipment awb count)
             (Some awb) (emails_of dupes)]
    end.

Definition check_double_counts_with (shipments : list Shipment.t)
  : list Anomaly.t :=
  let awb_counts :=
    Counter
      (map Shipment.awb
         (List.filter (λ s, negb (String.eqb (Shipment.awb s) "MISSING"))
            shipments)) in
  fold_left (double_count_item_with shipments) awb_counts [].

(** [{s.awb for s in shipments if s.awb != "MISSING"}]. *)
Definition extracted_awbs_of (shipments : list Shipment.t) : gset string :=
  list_to_set
    (map Shipment.awb
       (List.filter (λ s, negb (String.eqb (Shipment.awb s) "MISSING"))
          shipments)).

Definition check_missing_paperwork (emails : list EmailDetail.t)
    (shipments : list Shipment.t) : list Anomaly.t :=
  let extracted_awbs := extracted_awbs_of shipments in
  fold_left
    (λ anomalies email,
       let text :=
         EmailDetail.body_text email +:+ " " +:+ EmailDetail.subject email in
       let mentioned_awbs := findall AWB_PATTERN text in
       let mentioned_awbs := map (sub_delete is_sep) mentioned_awbs in
       fold_left
         (λ anomalies awb,
            if decide (awb ∈ extracted_awbs) then anomalies
            else
              anomalies ++
                [Anomaly.mk MISSING_PAPERWORK WARNING
                   (MissingPaperwork (EmailDetail.subject email) awb)
                   (Some awb) [EmailDetail.message_id email]])
         mentioned_awbs anomalies)
    emails [].

(** [re.compile(r"^\d{11}$")]. *)
Definition clean_pattern : regex := Bol ⋅ Rep 11 (Class is_digit) ⋅ Eol.

Definition check_awb_consistency (shipments : list Shipment.t)
  : list Anomaly.t :=
  fold_left
    (λ anomalies shipment,
       if String.eqb (Shipment.awb shipment) "MISSING" then
         anomalies ++
           [Anomaly.mk MISSING_AWB ERROR
              (NoAwb (Shipment.supplier shipment) (Shipment.date shipment))
              None (Shipment.source_email_ids shipment)]
       else
         match re_match clean_pattern (Shipment.awb shipment) with
         | None =>
             anomalies ++
               [Anomaly.mk AWB_MISMATCH WARNING
                  (NonStandardFormat (Shipment.awb shipment))
                  (Some (Shipment.awb shipment))
                  (Shipment.source_email_ids shipment)]
         | Some _ => anomalies
         end)
    shipments [].

(** The body of the inner loop of [check_weight_outliers]. *)
Definition weight_outlier_line_with (shipment : Shipment.t)
    (anomalies : list Anomaly.t) (line : ShipmentLine.t) : list Anomaly.t :=
  match ShipmentLine.weight_lbs line with
  | None => anomalies
  | Some weight_lbs =>
      let species_key := str_lower (ShipmentLine.species line) in
      match SPECIES_WEIGHT_RANGES !! species_key with
      | None => anomalies
      | Some (min_w, max_w) =>
          if (PrimFloat.ltb weight_lbs min_w
              || PrimFloat.ltb max_w weight_lbs)%bool
          then
            anomalies ++
              [Anomaly.mk WEIGHT_OUTLIER WARNING
                 (OutsideTypicalRange (Shipment.awb shipment)
                    (ShipmentLine.species line)
                    (ShipmentLine.customer_name line)
                    weight_lbs min_w max_w)
                 (Some (Shipment.awb shipment))
                 (Shipment.source_email_ids shipment)]
          else anomalies
      end
  end.

Definition check_weight_outliers_with (shipments : list Shipment.t)
  : list Anomaly.t :=
  fold_left
    (λ anomalies shipment,
       fold_left (weight_outlier_line_with shipment)
         (Shipment.lines shipment) anomalies)
    shipments [].

Definition run_all_checks_with (emails : list EmailDetail.t)
    (shipments : list Shipment.t) : list Anomaly.t :=
  let anomalies := [] in
  let anomalies := anomalies ++ check_double_counts_with shipments in
  let anomalies := anomalies ++ check_missing_paperwork emails shipments in
  let anomalies := anomalies ++ check_awb_consistency shipments in
  let anomalies := anomalies ++ check_weight_outliers_with shipments in
  anomalies.

End StrLower.

(** The same functions on ASCII texts, where [str.lower] is [lower]. *)
Definition line_key : ShipmentLine.t → string * string :=
  line_key_with lower.

Definition check_double_counts : list Shipment.t → list Anomaly.t :=
  check_double_counts_with lower.

Definition check_weight_outliers : list Shipment.t → list Anomaly.t :=
  check_weight_outliers_with lower.

Definition run_all_checks
  : list EmailDetail.t → list Shipment.t → list Anomaly.t :=
  run_all_checks_with lower.

(* ===================================================================== *)
(** * config.py: the vocabularies; email/parser.py: the mention scanners *)
(* ===================================================================== *)

(** [needle in haystack] on [str]: the needle stands at some position of
    the haystack. *)
Fixpoint str_in (needle haystack : string) : bool :=
  (String.prefix needle haystack
   || match haystack with
      | EmptyString => false
      | String _ haystack' => str_in needle haystack'
      end)%bool.

(** [KNOWN_CUSTOMERS], a [dict] iterated with [items()]: the items in
    insertion order. *)
Definition KNOWN_CUSTOMERS : list (string * string) :=
  [ ("mark", "Mark's Seafood");
    ("chade", "Lockwood-Winant");
    ("bryan", "Gosman's Fish Market");
    ("richie", "Congressional");
    ("amos", "Congressional");
    ("joseph", "Samuels Seafood");
    ("robby", "Great Eastern");
    ("mike", "BST Seafood");
    ("bob", "BST Seafood");
    ("manny", "Stavis");
    ("tom", "Emerald Seafood");
    ("james", "Emerald Seafood");
    ("john", "Emerald Seafood");
    ("vinny", "BA Seafood") ].

Definition KNOWN_SPECIES : list string :=
  [ "swordfish";
    "yellowtail";
    "black grouper";
    "yellowfin tuna";
    "bigeye tuna";
    "albacore tuna";
    "salmon";
    "snapper";
    "red snapper";
    "yellowtail snapper";
    "mutton snapper";
    "tilefish";
    "opah";
    "mahi mahi";
    "wahoo";
    "cobia";
    "striped bass" ].

(** The body of the loop of [extract_customer_mentions]: the state is
    [found] and [seen_companies]. *)
Definition customer_mention_step (text_lower : string)
    (state : list (string * string) * gset string)
    (item : string * string) : list (string * string) * gset string :=
  let '(found, seen_companies) := state in
  let '(contact, company) := item in
  if (str_in contact text_lower
      && negb (bool_decide (company ∈ seen_companies)))%bool
  then (found ++ [(contact, company)], seen_companies ∪ {[company]})
  else (found, seen_companies).

(** [extract_customer_mentions] and [extract_species_mentions], with
    [str.lower] as the parameter [str_lower]. *)
Definition extract_customer_mentions_with (str_lower : string → string)
    (text : string) : list (string * string) :=
  let text_lower := str_lower text in
  fst (fold_left (customer_mention_step text_lower) KNOWN_CUSTOMERS ([], ∅)).

Definition extract_species_mentions_with (str_lower : string → string)
    (text : string) : list string :=
  let text_lower := str_lower text in
  fold_left
    (λ found species,
       if str_in species text_lower then found ++ [species] else found)
    KNOWN_SPECIES [].

(** The same functions on ASCII texts, where [str.lower] is [lower]. *)
Definition extract_customer_mentions
  : string → list (string * string) :=
  extract_customer_mentions_with lower.

Definition extract_species_mentions : string → list string :=
  extract_species_mentions_with lower.

(* ===================================================================== *)
(** * A second fragment of [re]: alternation, repetition, one group *)
(* ===================================================================== *)

(** The patterns of [extract_weights] and [extract_box_counts] need
    alternation, the greedy repetition of a character class, an optional
    part and a capturing group; a letter of a pattern compiled with
    [re.IGNORECASE] is the class of its two cases. *)
Inductive pattern :=
  | PEps                          (* the empty pattern *)
  | PClass (p : ascii → bool)     (* a one-character class *)
  | PSeq (r1 r2 : pattern)        (* r1 r2 *)
  | PAlt (r1 r2 : pattern)        (* r1|r2 *)
  | PStar (p : ascii → bool)      (* [class]*  (greedy) *)
  | PPlus (p : ascii → bool)      (* [class]+  (greedy) *)
  | PGroup (r : pattern)          (* (r), group 1 *)
  | PWordBoundary                 (* \b *)
  | POpt (r : pattern).           (* r?  (greedy) *)

(** What a successful match yields: the subject left after it and the text
    of group 1, if the group took part. *)
Definition match_result : Type := string * option string.

(** Greedy repetition of a class: take a character while the class allows
    and what follows succeeds; give characters back one at a time. *)
Fixpoint star_class (p : ascii → bool) (prev : option ascii) (s : string)
    (k : option ascii → string → option match_result)
  : option match_result :=
  match s with
  | String c s' =>
      if p c then
        match star_class p (Some c) s' k with
        | Some r => Some r
        | None => k prev s
        end
      else k prev s
  | EmptyString => k prev s
  end.

(** The backtracking matcher; [g] is the text of group 1 so far. *)
Fixpoint pmatch (r : pattern) (prev : option ascii) (s : string)
    (g : option string)
    (k : option ascii → string → option string → option match_result)
  : option match_result :=
  match r with
  | PEps => k prev s g
  | PClass p =>
      match s with
      | String c s' => if p c then k (Some c) s' g else None
      | EmptyString => None
      end
  | PSeq r1 r2 => pmatch r1 prev s g (λ prev' s' g', pmatch r2 prev' s' g' k)
  | PAlt r1 r2 =>
      match pmatch r1 prev s g k with
      | Some r => Some r
      | None => pmatch r2 prev s g k
      end
  | PStar p => star_class p prev s (λ prev' s', k prev' s' g)
  | PPlus p =>
      match s with
      | String c s' =>
          if p c then star_class p (Some c) s' (λ prev' s', k prev' s' g)
          else None
      | EmptyString => None
      end
  | PGroup r1 =>
      pmatch r1 prev s g (λ prev' s' _, k prev' s' (Some (matched s s')))
  | PWordBoundary =>
      if xorb (word_before prev) (word_after s) then k prev s g else None
  | POpt r1 =>
      match pmatch r1 prev s g k with
      | Some r => Some r
      | None => k prev s g
      end
  end.

(** One match attempt at the current position. *)
Definition pmatch_here (r : pattern) (prev : option ascii) (s : string)
  : option match_result :=
  pmatch r prev s None (λ _ rest g, Some (rest, g)).

(** [re.finditer], as the list of the group 1 of every match, for a pattern
    whose matches are never empty: scan left to right and resume after the
    end of each match. *)
Fixpoint finditer_from (r : pattern) (prev : option ascii) (s : string)
    (skip : nat) : list (option string) :=
  match s with
  | EmptyString => []
  | String c s' =>
      match skip with
      | S n => finditer_from r (Some c) s' n
      | O =>
          match pmatch_here r prev s with
          | Some (rest, g) =>
              g :: finditer_from r (Some c) s'
                     (String.length (matched s rest) - 1)
          | None => finditer_from r (Some c) s' 0
          end
      end
  end.

Definition finditer (r : pattern) (s : string) : list (option string) :=
  finditer_from r None s 0.

(** A letter under [re.IGNORECASE]. *)
Definition ichar (x : ascii) : pattern :=
  PClass (λ c, Ascii.eqb (lower_ascii c) (lower_ascii x)).

(** A literal under [re.IGNORECASE]: its letters in sequence. *)
Fixpoint iliteral (s : string) : pattern :=
  match s with
  | EmptyString => PEps
  | String x s' => PSeq (ichar x) (iliteral s')
  end.

(** The value of a decimal digit. *)
Definition digit_value (c : ascii) : Z := Z.of_nat (nat_of_ascii c) - 48.

(** [sys.int_max_str_digits] as CPython sets it. *)
Definition int_max_str_digits : nat := 4300.

(** [int(s)] on a non-empty string of ASCII digits: its decimal value, and
    [ValueError] for more digits than [int_max_str_digits]. The other
    arguments [int] accepts or rejects are not modelled; [None] stands for
    them and for the error. *)
Definition int_of_str (s : string) : option Z :=
  if (negb (String.eqb s "") && forallb is_digit (list_ascii_of_string s)
      && Nat.leb (String.length s) int_max_str_digits)%bool
  then
    Some (fold_left (λ acc c, 10 * acc + digit_value c)
            (list_ascii_of_string s) 0)
  else None.

(** The binary64 number nearest to [n / 10 ^ k], ties to even, for [n] not
    negative: the quotient is taken with 64 or more bits and one more bit
    that records a remainder, then rounded once. *)
Definition float_of_decimal (n : Z) (k : nat) : float :=
  let den := 10 ^ Z.of_nat k in
  let s := Z.max 0 (65 + Z.log2 den - Z.log2 n) in
  let q := n * 2 ^ s / den in
  let sticky := if Z.eqb (n * 2 ^ s mod den) 0 then 0 else 1 in
  SF2Prim (SpecFloat.binary_normalize prec emax (2 * q + sticky) (- s - 1)
             false).

(** The text before the first point of [s], and the text after it when
    there is a point. *)
Fixpoint split_point (s : string) : string * option string :=
  match s with
  | EmptyString => (EmptyString, None)
  | String c s' =>
      if Ascii.eqb c "." then (EmptyString, Some s')
      else let '(int_part, frac) := split_point s' in
           (String c int_part, frac)
  end.

(** [float(s)] on a string of ASCII digits with at most one point: the
    nearest binary64 number, and [ValueError] when there is no digit. The
    other arguments [float] accepts or rejects (signs, exponents, blanks)
    are not modelled; [None] stands for them and for the error. *)
Definition float_of_str (s : string) : option float :=
  let '(int_part, frac) := split_point s in
  let frac_part := match frac with Some f => f | None => EmptyString end in
  if (forallb is_digit (list_ascii_of_string int_part)
      && forallb is_digit (list_ascii_of_string frac_part)
      && negb (String.eqb (int_part ++ frac_part) ""))%bool
  then
    Some (float_of_decimal
            (fold_left (λ acc c, 10 * acc + digit_value c)
               (list_ascii_of_string (int_part ++ frac_part)) 0)
            (String.length frac_part))
  else None.

(** [s.replace(",", "")]. *)
Fixpoint remove_commas (s : string) : string :=
  match s with
  | EmptyString => EmptyString
  | String c s' =>
      if Ascii.eqb c "," then remove_commas s'
      else String c (remove_commas s')
  end.

(* ===================================================================== *)
(** * email/parser.py: [extract_box_counts] *)
(* ===================================================================== *)

(** [(?:boxes|bxs|box)]. *)
Definition box_word : pattern :=
  PAlt (iliteral "boxes") (PAlt (iliteral "bxs") (iliteral "box")).

(** [r"(\d+)\s*(?:boxes|bxs|box)\b"]. *)
Definition count_then_boxes : pattern :=
  PSeq (PGroup (PPlus is_digit))
    (PSeq (PStar is_space) (PSeq box_word PWordBoundary)).

(** The class [[:=]]. *)
Definition is_assign (c : ascii) : bool :=
  (Ascii.eqb c ":" || Ascii.eqb c "=")%bool.

(** [r"(?:boxes|bxs|box)\s*[:=]\s*(\d+)"]. *)
Definition boxes_then_count : pattern :=
  PSeq box_word
    (PSeq (PStar is_space)
       (PSeq (PClass is_assign)
          (PSeq (PStar is_space) (PGroup (PPlus is_digit))))).

(** [int(match.group(1))] for every match of one pattern; [None] stands for
    an exception: [int] of a group that did not take part or that is not a
    digit string. *)
Definition counts_of (r : pattern) (text : string) : option (list Z) :=
  fold_left
    (λ counts g,
       match counts, g with
       | Some counts, Some digits =>
           match int_of_str digits with
           | Some n => Some (counts ++ [n])
           | None => None
           end
       | _, _ => None
       end)
    (finditer r text) (Some []).

(** The two patterns in turn, the counts of the second after those of the
    first. *)
Definition extract_box_counts (text : string) : option (list Z) :=
  match counts_of count_then_boxes text with
  | Some counts1 =>
      match counts_of boxes_then_count text with
      | Some counts2 => Some (counts1 ++ counts2)
      | None => None
      end
  | None => None
  end.

(* ===================================================================== *)
(** * email/parser.py: [extract_weights] and [first_pass_extract] *)
(* ===================================================================== *)

(** The class [[\d,]]. *)
Definition is_digit_or_comma (c : ascii) : bool :=
  (is_digit c || Ascii.eqb c ",")%bool.

(** The class of the point. *)
Definition is_point (c : ascii) : bool := Ascii.eqb c ".".

(** The group of both patterns, [[\d,]+] then [\.?] then [\d*]: digits
    and commas, an optional point, digits. *)
Definition quantity : pattern :=
  PGroup
    (PSeq (PPlus is_digit_or_comma)
       (PSeq (POpt (PClass is_point)) (PStar is_digit))).

(** A word with an optional final s. *)
Definition plural (word : string) : pattern :=
  PSeq (iliteral word) (POpt (ichar "s")).

(** [(?:lbs?|pounds?|#)]. *)
Definition pound_unit : pattern :=
  PAlt (plural "lb") (PAlt (plural "pound") (iliteral "#")).

(** [(?:kg|kilos?|kilograms?)]. *)
Definition kilo_unit : pattern :=
  PAlt (iliteral "kg") (PAlt (plural "kilo") (plural "kilogram")).

(** The first pattern: the group, [\s*] and the units of pounds. *)
Definition weight_in_pounds : pattern :=
  PSeq quantity (PSeq (PStar is_space) pound_unit).

(** The second pattern: the group, [\s*] and the units of kilograms. *)
Definition weight_in_kilos : pattern :=
  PSeq quantity (PSeq (PStar is_space) kilo_unit).

(** The factor from kilograms to pounds, 2.205, as the nearest binary64
    number. *)
Definition KG_TO_LBS : float := 0x1.1a3d70a3d70a4p+1%float.

(** The body of the loop over the matches of one pattern, [kilos] telling
    whether the text of the pattern holds "kg"; [None] stands for an
    exception of [float]. *)
Definition weight_step (kilos : bool) (weights : option (list float))
    (g : option string) : option (list float) :=
  match weights, g with
  | Some weights, Some group =>
      match float_of_str (remove_commas group) with
      | Some val =>
          Some (weights
                ++ [if kilos then PrimFloat.mul val KG_TO_LBS else val])
      | None => None
      end
  | _, _ => None
  end.

(** The weights of the matches of one pattern. *)
Definition weights_of (r : pattern) (kilos : bool) (text : string)
  : option (list float) :=
  fold_left (weight_step kilos) (finditer r text) (Some []).

(** The two patterns in turn, the weights of the second after those of the
    first. *)
Definition extract_weights (text : string) : option (list float) :=
  match weights_of weight_in_pounds false text with
  | Some weights1 =>
      match weights_of weight_in_kilos true text with
      | Some weights2 => Some (weights1 ++ weights2)
      | None => None
      end
  | None => None
  end.

(** The summary dict of [first_pass_extract], a record of its five
    keys. *)
Module FirstPass.
Record t := mk {
  awbs : list string;
  customers : list (string * string);
  species : list string;
  weights : list float;
  box_counts : list Z;
}.
End FirstPass.

(** The five extractors in the order of the dict display; an exception of
    one of them leaves the function. *)
Definition first_pass_extract (text : string) : option FirstPass.t :=
  let awbs := extract_awbs text in
  let customers := extract_customer_mentions text in
  let species := extract_species_mentions text in
  match extract_weights text with
  | Some weights =>
      match extract_box_counts text with
      | Some box_counts =>
          Some (FirstPass.mk awbs customers species weights box_counts)
      | None => None
      end
  | None => None
  end.

(* ===================================================================== *)
(** * Specification vocabulary *)
(* ===================================================================== *)

(** ** Aggregation *)

(** Every line of a shipment list, in shipment then line order. *)
Definition payload_lines (shipments : list Shipment.t)
  : list ShipmentLine.t :=
  flat_map Shipment.lines shipments.

(** What a line contributes to a box total: an absent count is zero. *)
Definition boxes_of (line : ShipmentLine.t) : Z :=
  default 0 (ShipmentLine.boxes line).

(** What a line contributes to a weight total: [weight_lbs or 0.0]. *)
Definition weight_of (line : ShipmentLine.t) : float :=
  float_or (ShipmentLine.weight_lbs line) 0%float.

(** Sums in traversal order, from the zero the code starts from. *)
Definition sum_boxes (ls : list ShipmentLine.t) : Z :=
  fold_left (λ acc l, acc + boxes_of l) ls 0.

Definition sum_weight (ls : list ShipmentLine.t) : float :=
  fold_left (λ acc l, (acc + weight_of l)%float) ls 0%float.

(** The customer key as the specification words it: the company when it is
    given. *)
Definition customer_key_if_present (line : ShipmentLine.t) : string :=
  default (ShipmentLine.customer_name line) (ShipmentLine.company line).

(** The customer key the code uses: the company when it is given and not
    the empty string. *)
Definition customer_key (line : ShipmentLine.t) : string :=
  match ShipmentLine.company line with
  | Some c => if String.eqb c "" then ShipmentLine.customer_name line else c
  | None => ShipmentLine.customer_name line
  end.

(** The lines of one species, of one customer key. *)
Definition species_group (k : string) (ls : list ShipmentLine.t)
  : list ShipmentLine.t :=
  List.filter (λ l, String.eqb (ShipmentLine.species l) k) ls.

Definition customer_group (k : string) (ls : list ShipmentLine.t)
  : list ShipmentLine.t :=
  List.filter (λ l, String.eqb (customer_key l) k) ls.

(** The bucket a group of lines adds up to; no bucket for no line. *)
Definition species_total (g : list ShipmentLine.t)
  : option SpeciesTotal.t :=
  match g with
  | [] => None
  | _ :: _ => Some (SpeciesTotal.mk (sum_boxes g) (sum_weight g))
  end.

Definition customer_total (g : list ShipmentLine.t)
  : option CustomerTotal.t :=
  match g with
  | [] => None
  | _ :: _ =>
      Some (CustomerTotal.mk (sum_boxes g) (sum_weight g)
              (Z.of_nat (length g)))
  end.

(** Sums over the values of the two breakdowns. *)
Definition species_boxes (m : gmap string SpeciesTotal.t) : Z :=
  map_fold (λ _ v acc, SpeciesTotal.boxes v + acc) 0 m.

Definition customer_boxes (m : gmap string CustomerTotal.t) : Z :=
  map_fold (λ _ v acc, CustomerTotal.boxes v + acc) 0 m.

Definition customer_orders (m : gmap string CustomerTotal.t) : Z :=
  map_fold (λ _ v acc, CustomerTotal.order_count v + acc) 0 m.

(** The loop invariant of [compute_totals]: what the accumulators hold
    after the lines [ls]. *)
Definition accumulated (ls : list ShipmentLine.t) (a : Accumulators) : Prop :=
  acc_total_boxes a = sum_boxes ls
  ∧ acc_total_weight a = sum_weight ls
  ∧ (∀ k, acc_species a !! k = species_total (species_group k ls))
  ∧ (∀ k, acc_customers a !! k = customer_total (customer_group k ls)).

(** The loop invariant behind the consistency of the totals, after [n]
    lines. *)
Definition consistent (n : Z) (a : Accumulators) : Prop :=
  acc_total_boxes a = species_boxes (acc_species a)
  ∧ acc_total_boxes a = customer_boxes (acc_customers a)
  ∧ customer_orders (acc_customers a) = n.

(** ** Fixtures *)

Definition a_date : date := Date 2026 2 23.
Definition a_time : datetime := Datetime a_date 6 0 0.

Definition line_of (customer_name : string) (company : option string)
    (species : string) (boxes : option Z) (weight_lbs : option float)
  : ShipmentLine.t :=
  ShipmentLine.mk customer_name company species boxes weight_lbs
    None None None.

Definition shipment_of (awb supplier : string) (lines : list ShipmentLine.t)
    (source_email_ids : list string) : Shipment.t :=
  Shipment.mk awb a_date supplier None lines source_email_ids.

Definition payload_of (shipments : list Shipment.t) : DailyPayload.t :=
  DailyPayload.mk a_date a_time (Z.of_nat (length shipments)) shipments []
    ShipmentTotals.new.

(** The two shipments and five lines of the dry run. *)
Definition dry_run_shipments : list Shipment.t :=
  [ shipment_of "12345678901" "Victor"
      [ line_of "Mark" (Some "Mark's Seafood") "Swordfish"
          (Some 10) (Some 450.0%float);
        line_of "Bryan" (Some "Gosman's Fish Market") "Swordfish"
          (Some 8) (Some 360.0%float);
        line_of "Chade" (Some "Lockwood-Winant") "Yellowtail"
          (Some 5) (Some 40.0%float) ]
      ["msg_001"];
    shipment_of "23456789012" "Norman"
      [ line_of "Robby" (Some "Great Eastern") "Yellowfin Tuna"
          (Some 6) (Some 280.0%float);
        line_of "Manny" (Some "Stavis") "Mahi Mahi"
          (Some 4) (Some 90.0%float) ]
      ["msg_002"] ].

(** A line whose company is given as the empty string. *)
Definition blank_company_line : ShipmentLine.t :=
  line_of "Mark" (Some "") "Swordfish" (Some 10) (Some 450.0%float).

(** Keyword arguments with a negative box count and a negative weight. *)
Definition negative_kwargs : ShipmentLine_kwargs :=
  Kwargs (Some "Mark") None (Some "Swordfish")
    (Some (-3)) (Some (-450.0)%float) None None None.

(** An email whose body mentions an AWB. *)
Definition mention_email : EmailDetail.t :=
  EmailDetail.mk "msg_001" "thr_001" "Shipment today" "victor@example.com"
    None "AWB: 12345678901" "" [].

(** ** Detection *)

(** The text [check_missing_paperwork] scans for one email. *)
Definition scanned_text (email : EmailDetail.t) : string :=
  EmailDetail.body_text email +:+ " " +:+ EmailDetail.subject email.

(** The anomaly [check_missing_paperwork] builds for one mention. *)
Definition paperwork_anomaly (email : EmailDetail.t) (awb : string)
  : Anomaly.t :=
  Anomaly.mk MISSING_PAPERWORK WARNING
    (MissingPaperwork (EmailDetail.subject email) awb)
    (Some awb) [EmailDetail.message_id email].

(** What [check_awb_consistency] appends for one shipment. *)
Definition awb_anomalies (shipment : Shipment.t) : list Anomaly.t :=
  if String.eqb (Shipment.awb shipment) "MISSING" then
    [Anomaly.mk MISSING_AWB ERROR
       (NoAwb (Shipment.supplier shipment) (Shipment.date shipment))
       None (Shipment.source_email_ids shipment)]
  else
    match re_match clean_pattern (Shipment.awb shipment) with
    | None =>
        [Anomaly.mk AWB_MISMATCH WARNING
           (NonStandardFormat (Shipment.awb shipment))
           (Some (Shipment.awb shipment))
           (Shipment.source_email_ids shipment)]
    | Some _ => []
    end.

(** Every line paired with its shipment, in shipment then line order. *)
Definition shipment_lines (shipments : list Shipment.t)
  : list (Shipment.t * ShipmentLine.t) :=
  flat_map (λ s, map (pair s) (Shipment.lines s)) shipments.

(** A line is a weight outlier: its weight is known, its lowercased species
    is in the range table, and the weight is strictly below the minimum or
    strictly above the maximum. [str_lower] is [str.lower]. *)
Definition weight_outlier (str_lower : string → string)
    (line : ShipmentLine.t) : Prop :=
  ∃ w min_w max_w,
    ShipmentLine.weight_lbs line = Some w
    ∧ SPECIES_WEIGHT_RANGES !! str_lower (ShipmentLine.species line)
      = Some (min_w, max_w)
    ∧ (PrimFloat.ltb w min_w = true ∨ PrimFloat.ltb max_w w = true).

(** The same, decided. *)
Definition is_weight_outlier (str_lower : string → string)
    (line : ShipmentLine.t) : bool :=
  match ShipmentLine.weight_lbs line,
        SPECIES_WEIGHT_RANGES !! str_lower (ShipmentLine.species line) with
  | Some w, Some (min_w, max_w) =>
      (PrimFloat.ltb w min_w || PrimFloat.ltb max_w w)%bool
  | _, _ => false
  end.

(** Anomaly [a] is the report of the outlier line [p]. *)
Definition outlier_report (str_lower : string → string)
    (p : Shipment.t * ShipmentLine.t) (a : Anomaly.t) : Prop :=
  let '(shipment, line) := p in
  Anomaly.anomaly_type a = WEIGHT_OUTLIER
  ∧ Anomaly.severity a = WARNING
  ∧ Anomaly.related_awb a = Some (Shipment.awb shipment)
  ∧ Anomaly.related_emails a = Shipment.source_email_ids shipment
  ∧ ∃ w min_w max_w,
      ShipmentLine.weight_lbs line = Some w
      ∧ SPECIES_WEIGHT_RANGES !! str_lower (ShipmentLine.species line)
        = Some (min_w, max_w)
      ∧ Anomaly.description a
        = OutsideTypicalRange (Shipment.awb shipment)
            (ShipmentLine.species line) (ShipmentLine.customer_name line)
            w min_w max_w.

(** A shipment of one Swordfish line of the given weight. *)
Definition swordfish_shipment (weight : float) : Shipment.t :=
  shipment_of "99999999999" "Victor"
    [line_of "Test" None "Swordfish" None (Some weight)] [].

(** An AWB of eleven digits followed by a newline. *)
Definition newline_awb : string := "12345678901" +:+ String "010" "".

(** ** Double counts *)

(** How many times [k] occurs in [xs]. *)
Definition occurrences {K : Type} `{EqDecision K} (k : K) (xs : list K)
  : nat :=
  length (List.filter (λ x, bool_decide (x = k)) xs).

(** [c[k]] for a [Counter]: the count of a key, zero for a key it lacks. *)
Fixpoint counter_get {K : Type} `{EqDecision K} (k : K)
    (c : list (K * nat)) : nat :=
  match c with
  | [] => 0%nat
  | (k', n) :: c' => if decide (k = k') then n else counter_get k c'
  end.

(** In how many shipments the AWB occurs. *)
Definition awb_count (awb : string) (shipments : list Shipment.t) : nat :=
  length (dupes_of awb shipments).

(** The AWB is not the sentinel and occurs in more than one shipment. *)
Definition duplicated (awb : string) (shipments : list Shipment.t) : Prop :=
  awb ≠ "MISSING" ∧ (1 < awb_count awb shipments)%nat.

(** The (lowercased customer name, lowercased species) pairs of the lines
    of all shipments whose AWB is the given one, in shipment then line
    order. [str_lower] is [str.lower]. *)
Definition keys_sharing (str_lower : string → string) (awb : string)
    (shipments : list Shipment.t) : list (string * string) :=
  map (λ line, (str_lower (ShipmentLine.customer_name line),
                str_lower (ShipmentLine.species line)))
    (payload_lines
       (List.filter (λ s, bool_decide (Shipment.awb s = awb)) shipments)).

(** Some pair occurs more than once among them. *)
Definition repeated_line (str_lower : string → string) (awb : string)
    (shipments : list Shipment.t) : Prop :=
  ∃ key, (1 < occurrences key (keys_sharing str_lower awb shipments))%nat.

(** The anomalies of a list that are about the AWB. *)
Definition anomalies_about (awb : string) (anomalies : list Anomaly.t)
  : list Anomaly.t :=
  List.filter (λ a, bool_decide (Anomaly.related_awb a = Some awb)) anomalies.

(** Two shipments under one AWB, drawn from the same email, with the same
    line; and two with lines that share no pair. *)
Definition doubled_shipments : list Shipment.t :=
  [ shipment_of "12345678901" "Victor"
      [line_of "Mark" None "Swordfish" (Some 10) (Some 450.0%float)]
      ["msg_001"];
    shipment_of "12345678901" "Victor"
      [line_of "Mark" None "Swordfish" (Some 10) (Some 450.0%float)]
      ["msg_001"] ].

Definition split_shipments : list Shipment.t :=
  [ shipment_of "12345678901" "Victor"
      [line_of "Mark" None "Swordfish" (Some 10) (Some 450.0%float)]
      ["msg_001"];
    shipment_of "12345678901" "Victor"
      [line_of "Bryan" None "Yellowtail" (Some 5) (Some 40.0%float)]
      ["msg_002"] ].

(** Two shipments under one AWB whose lines name the same customer and
    species in different letter cases. *)
Definition recased_shipments : list Shipment.t :=
  [ shipment_of "12345678901" "Victor"
      [line_of "MARK" None "Swordfish" (Some 10) (Some 450.0%float)]
      ["msg_001"];
    shipment_of "12345678901" "Victor"
      [line_of "Mark" None "SWORDFISH" (Some 10) (Some 450.0%float)]
      ["msg_002"] ].

(** The anomaly [check_double_counts] reports for [recased_shipments]. *)
Definition recased_anomaly : Anomaly.t :=
  Anomaly.mk DOUBLE_COUNT ERROR
    (DuplicateLineItems "12345678901" 2 [("mark", "swordfish", 2%nat)])
    (Some "12345678901") ["msg_001"; "msg_002"].

(** The anomaly [check_double_counts] reports for [split_shipments]. *)
Definition split_anomaly : Anomaly.t :=
  Anomaly.mk DOUBLE_COUNT WARNING (SplitShipment "12345678901" 2)
    (Some "12345678901") ["msg_001"; "msg_002"].

(** ** ASCII texts *)

(** A code point below 128. *)
Definition is_ascii (c : ascii) : bool := Nat.ltb (nat_of_ascii c) 128.

(** A text of such code points only. On these texts the character classes
    and [lower] of the embedding are those of Python. *)
Fixpoint ascii_text (s : string) : bool :=
  match s with
  | EmptyString => true
  | String c s' => (is_ascii c && ascii_text s')%bool
  end.

(** The character [c] is one of the characters of [cs]. *)
Definition char_in (cs : string) (c : ascii) : bool :=
  existsb (Ascii.eqb c) (list_ascii_of_string cs).

(** The classes of an ASCII text, each by the list of its characters. *)
Definition DIGIT_CHARS : string := "0123456789".


(** Tab, line feed, vertical tab, form feed, carriage return, the file,
    group, record and unit separators, and the space. *)
Definition BLANK_CHARS : string :=
  String "009" (String "010" (String "011" (String "012" (String "013"
    (String "028" (String "029" (String "030" (String "031" " ")))))))).

Definition digit_char (c : ascii) : bool := char_in DIGIT_CHARS c.

Definition blank_char (c : ascii) : bool := char_in BLANK_CHARS c.



(** ** The meaning of a pattern *)

(** [Matches r prev s prev' s']: [r] matches a prefix of [s], the character
    before it being [prev], and leaves [s'], the character before which is
    [prev']. *)
Inductive Matches
  : regex → option ascii → string → option ascii → string → Prop :=
  | Matches_class p prev c s :
      p c = true → Matches (Class p) prev (String c s) (Some c) s
  | Matches_seq r1 r2 prev s prev1 s1 prev2 s2 :
      Matches r1 prev s prev1 s1 → Matches r2 prev1 s1 prev2 s2 →
      Matches (Seq r1 r2) prev s prev2 s2
  | Matches_opt_one r prev s prev' s' :
      Matches r prev s prev' s' → Matches (Opt r) prev s prev' s'
  | Matches_opt_none r prev s : Matches (Opt r) prev s prev s
  | Matches_rep_O r prev s : Matches (Rep 0 r) prev s prev s
  | Matches_rep_S n r prev s prev1 s1 prev2 s2 :
      Matches r prev s prev1 s1 → Matches (Rep n r) prev1 s1 prev2 s2 →
      Matches (Rep (S n) r) prev s prev2 s2
  | Matches_word_boundary prev s :
      xorb (word_before prev) (word_after s) = true →
      Matches WordBoundary prev s prev s
  | Matches_bol s : Matches Bol None s None s
  | Matches_eol_end prev : Matches Eol prev "" prev ""
  | Matches_eol_newline prev :
      Matches Eol prev (String "010" "") prev (String "010" "").

(** ** AWB mentions in a text *)

Fixpoint all_digits (s : string) : bool :=
  match s with
  | EmptyString => true
  | String c s' => (is_digit c && all_digits s')%bool
  end.

(** No separator, or one hyphen or whitespace character. *)
Inductive opt_sep : string → Prop :=
  | opt_sep_none : opt_sep ""
  | opt_sep_one c : is_sep c = true → opt_sep (String c "").

(** Eleven digits in groups of three, four and four, with an optional
    separator between the groups. *)
Definition awb_shaped (m : string) : Prop :=
  ∃ g1 s1 g2 s2 g3,
    m = g1 +:+ s1 +:+ g2 +:+ s2 +:+ g3
    ∧ String.length g1 = 3%nat ∧ all_digits g1 = true
    ∧ opt_sep s1
    ∧ String.length g2 = 4%nat ∧ all_digits g2 = true
    ∧ opt_sep s2
    ∧ String.length g3 = 4%nat ∧ all_digits g3 = true.

(** [m] stands at the head of [s] between two word boundaries: no word
    character before it and none after it. *)
Definition awb_at (prev : option ascii) (s m : string) : Prop :=
  awb_shaped m
  ∧ word_before prev = false
  ∧ ∃ rest, s = m +:+ rest ∧ word_after rest = false.


(** The same list, computed: a match attempt at every position. *)
Fixpoint mentions_from (prev : option ascii) (s : string) : list string :=
  match s with
  | EmptyString => []
  | String c s' =>
      match match_here AWB_PATTERN prev s with
      | Some rest => matched s rest :: mentions_from (Some c) s'
      | None => mentions_from (Some c) s'
      end
  end.

(** No match starts at any of the first [n] positions of [s]. *)
Fixpoint quiet (prev : option ascii) (s : string) (n : nat) : Prop :=
  match n, s with
  | S n', String c s' =>
      match_here AWB_PATTERN prev s = None ∧ quiet (Some c) s' n'
  | _, _ => True
  end.

(** The character before the position reached after reading [g]. *)
Fixpoint prev_after (prev : option ascii) (g : string) : option ascii :=
  match g with
  | EmptyString => prev
  | String c g' => prev_after (Some c) g'
  end.

(** ** AWB mentions in a text, in the words of the specification *)

(** Only digits. *)
Fixpoint digits_only (s : string) : bool :=
  match s with
  | EmptyString => true
  | String c s' => (digit_char c && digits_only s')%bool
  end.










(* ===================================================================== *)
(** * Further specification vocabulary *)
(* ===================================================================== *)

(** ** Detection *)

(** The elements of a list in order of first occurrence, each once. *)
Fixpoint first_occurrences {K : Type} `{EqDecision K} (xs : list K)
  : list K :=
  match xs with
  | [] => []
  | x :: xs' =>
      x :: List.filter (λ y, negb (bool_decide (y = x)))
             (first_occurrences xs')
  end.

(** The sum of the counts of a [Counter]. *)
Definition counter_total {K : Type} (c : list (K * nat)) : nat :=
  foldr (λ kv acc, (snd kv + acc)%nat) 0%nat c.

(** The AWBs [check_double_counts] counts: those of the shipments, the
    sentinel left out. *)
Definition counted_awbs (shipments : list Shipment.t) : list string :=
  map Shipment.awb
    (List.filter (λ s, negb (String.eqb (Shipment.awb s) "MISSING"))
       shipments).

(** Some shipment carries the AWB. *)
Definition covered (shipments : list Shipment.t) (awb : string) : bool :=
  existsb (λ s, String.eqb (Shipment.awb s) awb) shipments.

(** Eleven digits. *)
Definition eleven_digits (s : string) : bool :=
  (Nat.eqb (String.length s) 11 && digits_only s)%bool.

(** Eleven digits, with or without one final newline: the AWBs that
    [clean_pattern] accepts. *)
Definition accepted_awb (awb : string) : Prop :=
  ∃ g, String.length g = 11%nat ∧ digits_only g = true
       ∧ (awb = g ∨ awb = g +:+ String "010" "").

(** The (type, severity) pairs the detector produces. *)
Definition detector_kind (a : Anomaly.t) : Prop :=
  match Anomaly.anomaly_type a, Anomaly.severity a with
  | DOUBLE_COUNT, _ => True
  | MISSING_PAPERWORK, WARNING => True
  | AWB_MISMATCH, WARNING => True
  | WEIGHT_OUTLIER, WARNING => True
  | MISSING_AWB, ERROR => True
  | _, _ => False
  end.

(** The repeated (lowercased customer, lowercased species) pairs of the
    shipments sharing an AWB, in order of first occurrence, each with the
    number of its occurrences. [str_lower] is [str.lower]. *)
Definition repeated_pairs (str_lower : string → string) (awb : string)
    (shipments : list Shipment.t) : list (string * string * nat) :=
  let keys := keys_sharing str_lower awb shipments in
  map (λ k, (fst k, snd k, occurrences k keys))
    (List.filter (λ k, Nat.ltb 1 (occurrences k keys))
       (first_occurrences keys)).

(** [accepted_awb], decided. *)
Definition is_accepted_awb (awb : string) : bool :=
  (eleven_digits awb
   || (Nat.eqb (String.length awb) 12
       && eleven_digits (substring 0 11 awb)
       && String.eqb (substring 11 1 awb) (String "010" "")))%bool.

(** Anomaly [a] is what [check_awb_consistency] reports for shipment [s]:
    MISSING_AWB for the sentinel, AWB_MISMATCH for any other AWB. *)
Definition awb_report (s : Shipment.t) (a : Anomaly.t) : Prop :=
  Anomaly.related_emails a = Shipment.source_email_ids s
  ∧ ((Shipment.awb s = "MISSING"
      ∧ Anomaly.anomaly_type a = MISSING_AWB
      ∧ Anomaly.severity a = ERROR
      ∧ Anomaly.related_awb a = None
      ∧ Anomaly.description a
        = NoAwb (Shipment.supplier s) (Shipment.date s))
     ∨ (Shipment.awb s ≠ "MISSING"
        ∧ Anomaly.anomaly_type a = AWB_MISMATCH
        ∧ Anomaly.severity a = WARNING
        ∧ Anomaly.related_awb a = Some (Shipment.awb s)
        ∧ Anomaly.description a = NonStandardFormat (Shipment.awb s))).

(** ** Aggregation *)

(** The totals [compute_totals] assigns for a shipment list. *)
Definition totals_of (shipments : list Shipment.t) : ShipmentTotals.t :=
  DailyPayload.totals (compute_totals (payload_of shipments)).

(** Three one-line shipments weighing 0.1, 0.2 and 0.3 lbs (the nearest
    binary64 values, written exactly), in that order and in the reverse
    order. *)
Definition light_shipment (awb : string) (weight : float) : Shipment.t :=
  shipment_of awb "Victor"
    [line_of "Mark" None "Swordfish" (Some 1) (Some weight)] [].

Definition ascending_shipments : list Shipment.t :=
  [ light_shipment "11111111111" 0x1.999999999999ap-4%float;
    light_shipment "22222222222" 0x1.999999999999ap-3%float;
    light_shipment "33333333333" 0x1.3333333333333p-2%float ].

Definition descending_shipments : list Shipment.t :=
  [ light_shipment "33333333333" 0x1.3333333333333p-2%float;
    light_shipment "22222222222" 0x1.999999999999ap-3%float;
    light_shipment "11111111111" 0x1.999999999999ap-4%float ].

(** ** Mentions *)

(** [needle] occurs in [hay] as a contiguous substring. *)
Definition occurs_in (needle hay : string) : Prop :=
  ∃ pre post, hay = pre +:+ needle +:+ post.

(** The loop of [extract_customer_mentions] from a given set of seen
    companies, as a recursion over the table. *)
Fixpoint customer_scan (text_lower : string) (seen : gset string)
    (items : list (string * string)) : list (string * string) :=
  match items with
  | [] => []
  | (contact, company) :: items' =>
      if (str_in contact text_lower
          && negb (bool_decide (company ∈ seen)))%bool
      then (contact, company)
           :: customer_scan text_lower (seen ∪ {[company]}) items'
      else customer_scan text_lower seen items'
  end.

(** ** Box counts *)

(** Every character of [s] is in the class [p]. *)
Fixpoint all_in (p : ascii → bool) (s : string) : bool :=
  match s with
  | EmptyString => true
  | String c s' => (p c && all_in p s')%bool
  end.

(** A non-empty string of digits. *)
Definition is_number (ds : string) : bool :=
  (negb (String.eqb ds "") && all_in is_digit ds)%bool.

(** The value of a string of digits read in base ten. *)
Definition decimal (ds : string) : Z :=
  fold_left (λ acc c, 10 * acc + digit_value c) (list_ascii_of_string ds) 0.

(** The three spellings of the unit, in any mix of cases. *)
Definition box_words : list string := ["boxes"; "bxs"; "box"].

Definition is_box_word (w : string) : Prop := lower w ∈ box_words.

(** What a pattern of the second fragment matches: from subject [s] after
    [prev] with group 1 at [g], to subject [s'] after [prev'] with group 1
    at [g']. *)
Inductive PMatches
  : pattern → option ascii → string → option string
    → option ascii → string → option string → Prop :=
  | PMatches_eps prev s g : PMatches PEps prev s g prev s g
  | PMatches_class p prev c s g :
      p c = true → PMatches (PClass p) prev (String c s) g (Some c) s g
  | PMatches_seq r1 r2 prev s g prev1 s1 g1 prev2 s2 g2 :
      PMatches r1 prev s g prev1 s1 g1 → PMatches r2 prev1 s1 g1 prev2 s2 g2 →
      PMatches (PSeq r1 r2) prev s g prev2 s2 g2
  | PMatches_alt_l r1 r2 prev s g prev' s' g' :
      PMatches r1 prev s g prev' s' g' →
      PMatches (PAlt r1 r2) prev s g prev' s' g'
  | PMatches_alt_r r1 r2 prev s g prev' s' g' :
      PMatches r2 prev s g prev' s' g' →
      PMatches (PAlt r1 r2) prev s g prev' s' g'
  | PMatches_star p prev run s g :
      all_in p run = true →
      PMatches (PStar p) prev (run +:+ s) g (prev_after prev run) s g
  | PMatches_plus p prev run s g :
      run ≠ "" → all_in p run = true →
      PMatches (PPlus p) prev (run +:+ s) g (prev_after prev run) s g
  | PMatches_group r prev s g prev' s' g' :
      PMatches r prev s g prev' s' g' →
      PMatches (PGroup r) prev s g prev' s' (Some (matched s s'))
  | PMatches_word_boundary prev s g :
      xorb (word_before prev) (word_after s) = true →
      PMatches PWordBoundary prev s g prev s g
  | PMatches_opt_one r prev s g prev' s' g' :
      PMatches r prev s g prev' s' g' →
      PMatches (POpt r) prev s g prev' s' g'
  | PMatches_opt_none r prev s g : PMatches (POpt r) prev s g prev s g.

(** The text holds the count [n] beside a spelling of the unit: the digits
    of [n], whitespace and the unit, or the unit, a colon or an equals sign
    between whitespace, and the digits. *)
Definition box_count_in (text : string) (n : Z) : Prop :=
  ∃ ds ws w,
    is_number ds = true ∧ n = decimal ds
    ∧ all_in is_space ws = true ∧ is_box_word w
    ∧ (occurs_in (ds +:+ ws +:+ w) text
       ∨ ∃ sep ws2,
           is_assign sep = true ∧ all_in is_space ws2 = true
           ∧ occurs_in (w +:+ ws +:+ String sep (ws2 +:+ ds)) text).

(** The length of the longest run of digits of [s], when [cur] digits
    have just been read. *)
Fixpoint digit_run (s : string) (cur : nat) : nat :=
  match s with
  | EmptyString => cur
  | String c s' =>
      if is_digit c then digit_run s' (S cur)
      else Nat.max cur (digit_run s' 0)
  end.

Definition longest_digit_run (s : string) : nat := digit_run s 0.

(** No character of [s] is in the class [p]. *)
Definition free_of (p : ascii → bool) (s : string) : bool :=
  all_in (λ c, negb (p c)) s.

(** The letter b in either case. *)
Definition is_letter_b (c : ascii) : bool := Ascii.eqb (lower_ascii c) "b".

(** [rest] does not start with a character of the class [p]. *)
Definition stops (p : ascii → bool) (rest : string) : bool :=
  match rest with
  | EmptyString => true
  | String c _ => negb (p c)
  end.

(** ** Weights *)

(** The pattern holds no group. *)
Fixpoint group_free (r : pattern) : bool :=
  match r with
  | PGroup _ => false
  | PSeq r1 r2 | PAlt r1 r2 => (group_free r1 && group_free r2)%bool
  | POpt r1 => group_free r1
  | _ => true
  end.

(** The comma. *)
Definition is_comma (c : ascii) : bool := Ascii.eqb c ",".

(** The characters a quantity is made of: digits, commas and the point. *)
Definition is_quantity_char (c : ascii) : bool :=
  (is_digit_or_comma c || is_point c)%bool.

(** The units of weight in any mix of cases. Whatever follows a unit is
    free, so that "lbs", "pounds", "kilos" and "kilograms" start with one. *)
Definition pound_units : list string := ["lb"; "pound"; "#"].

Definition kilo_units : list string := ["kg"; "kilo"].

Definition is_weight_unit (u : string) : Prop :=
  lower u ∈ pound_units ∨ lower u ∈ kilo_units.

(** ** ASCII inputs *)

(** The text scanned for every email is ASCII. *)
Definition ascii_emails (emails : list EmailDetail.t) : Prop :=
  Forall (λ email, ascii_text (scanned_text email) = true) emails.

(** The AWB of every shipment is ASCII. *)
Definition ascii_awbs (shipments : list Shipment.t) : Prop :=
  Forall (λ s, ascii_text (Shipment.awb s) = true) shipments.

(** Shipments with the kinds of AWB [check_awb_consistency] tells apart. *)
Definition assorted_shipments : list Shipment.t :=
  [ shipment_of "MISSING" "Victor" [] ["msg_001"];
    shipment_of "123-4567-8901" "Victor" [] ["msg_002"];
    shipment_of "12345678901" "Norman" [] ["msg_003"];
    shipment_of newline_awb "Norman" [] ["msg_004"] ].

(* ===================================================================== *)
(** * Aggregation: [compute_totals] *)
(* ===================================================================== *)

Section Folds.
Context {A B C : Type}.

(** A loop nested in a loop over the same accumulator is one loop over the
    concatenation. *)
Lemma fold_left_nested (f : A → C → A) (g : B → list C) (xs : list B)
    (a : A) :
  fold_left (λ a x, fold_left f (g x) a) xs a
  = fold_left f (flat_map g xs) a.
Proof.
  revert a. induction xs as [|x xs IH]; intros a; simpl; [done|].
  by rewrite IH, fold_left_app.
Qed.

(** A loop whose body appends is a [flat_map]. *)
Lemma fold_left_append (f : list C → B → list C) (h : B → list C)
    (xs : list B) (acc : list C) :
  (∀ acc x, f acc x = acc ++ h x) →
  fold_left f xs acc = acc ++ flat_map h xs.
Proof.
  intros Hf. revert acc.
  induction xs as [|x xs IH]; intros acc; simpl.
  - by rewrite app_nil_r.
  - by rewrite IH, Hf, <- app_assoc.
Qed.
End Folds.

Lemma int_or_zero (x : option Z) : int_or x 0 = default 0 x.
Proof.
  destruct x as [v|]; simpl; [|done].
  destruct (Z.eqb_spec v 0); congruence.
Qed.

(** [float_or] changes nothing but a zero, which it replaces by [0.0]. *)
Lemma float_or_zero (x : option float) :
  match x with
  | None => float_or x 0%float = 0%float
  | Some v =>
      float_or x 0%float = v
      ∨ (PrimFloat.eqb v 0%float = true ∧ float_or x 0%float = 0%float)
  end.
Proof.
  destruct x as [v|]; simpl; [|done].
  destruct (PrimFloat.eqb v 0%float); [right|left]; done.
Qed.

Lemma str_or_customer_key (line : ShipmentLine.t) :
  str_or (ShipmentLine.company line) (ShipmentLine.customer_name line)
  = customer_key line.
Proof.
  unfold customer_key. destruct (ShipmentLine.company line) as [[|c s]|]; done.
Qed.

Lemma totals_loop_flat (shipments : list Shipment.t) :
  totals_loop shipments
  = fold_left totals_line (payload_lines shipments) (Acc 0 0%float ∅ ∅).
Proof. apply (fold_left_nested totals_line Shipment.lines). Qed.

Lemma sum_boxes_snoc ls l : sum_boxes (ls ++ [l]) = sum_boxes ls + boxes_of l.
Proof. unfold sum_boxes. by rewrite fold_left_app. Qed.

Lemma sum_weight_snoc ls l :
  sum_weight (ls ++ [l]) = (sum_weight ls + weight_of l)%float.
Proof. unfold sum_weight. by rewrite fold_left_app. Qed.

Lemma species_total_snoc g l :
  species_total (g ++ [l])
  = let sp := default SpeciesTotal.new (species_total g) in
    Some (SpeciesTotal.mk (SpeciesTotal.boxes sp + boxes_of l)
            (SpeciesTotal.weight_lbs sp + weight_of l)%float).
Proof.
  destruct g as [|x g]; [done|].
  change ((x :: g) ++ [l]) with (x :: (g ++ [l])) at 1.
  cbn [species_total default]. simpl SpeciesTotal.boxes.
  simpl SpeciesTotal.weight_lbs.
  change (x :: (g ++ [l])) with ((x :: g) ++ [l]).
  by rewrite sum_boxes_snoc, sum_weight_snoc.
Qed.

Lemma customer_total_snoc g l :
  customer_total (g ++ [l])
  = let ct := default CustomerTotal.new (customer_total g) in
    Some (CustomerTotal.mk (CustomerTotal.boxes ct + boxes_of l)
            (CustomerTotal.weight_lbs ct + weight_of l)%float
            (CustomerTotal.order_count ct + 1)).
Proof.
  destruct g as [|x g]; [done|].
  change ((x :: g) ++ [l]) with (x :: (g ++ [l])) at 1.
  cbn [customer_total default]. simpl CustomerTotal.boxes.
  simpl CustomerTotal.weight_lbs. simpl CustomerTotal.order_count.
  change (x :: (g ++ [l])) with ((x :: g) ++ [l]).
  rewrite sum_boxes_snoc, sum_weight_snoc, length_app. simpl length.
  do 2 f_equal. lia.
Qed.

Lemma accumulated_step ls a l :
  accumulated ls a → accumulated (ls ++ [l]) (totals_line a l).
Proof.
  intros (Hb & Hw & Hs & Hc). unfold totals_line.
  rewrite int_or_zero, str_or_customer_key.
  fold (boxes_of l). fold (weight_of l).
  repeat split; simpl.
  - by rewrite sum_boxes_snoc, Hb.
  - by rewrite sum_weight_snoc, Hw.
  - intros k. unfold species_add, species_group.
    rewrite List.filter_app. simpl.
    destruct (String.eqb_spec (ShipmentLine.species l) k) as [->|Hne].
    + rewrite lookup_insert_eq, Hs. by rewrite species_total_snoc.
    + rewrite lookup_insert_ne by done. by rewrite app_nil_r, Hs.
  - intros k. unfold customers_add, customer_group.
    rewrite List.filter_app. simpl.
    destruct (String.eqb_spec (customer_key l) k) as [->|Hne].
    + rewrite lookup_insert_eq, Hc. by rewrite customer_total_snoc.
    + rewrite lookup_insert_ne by done. by rewrite app_nil_r, Hc.
Qed.

Lemma accumulated_loop ls :
  accumulated ls (fold_left totals_line ls (Acc 0 0%float ∅ ∅)).
Proof.
  induction ls as [|l ls IH] using rev_ind.
  - repeat split; intros; simpl; apply lookup_empty.
  - rewrite fold_left_app. simpl. by apply accumulated_step.
Qed.

(** C2 as stated fails where a company is given as the empty string:
    [company or customer_name] then takes the customer name, so the
    breakdown has no bucket under the company and one under the name. *)
Lemma compute_totals_blank_company :
  let self := payload_of [shipment_of "12345678901" "Victor"
                            [blank_company_line] ["msg_001"]] in
  let breakdown :=
    ShipmentTotals.customer_breakdown
      (DailyPayload.totals (compute_totals self)) in
  ShipmentLine.company blank_company_line = Some ""
  ∧ customer_key_if_present blank_company_line = ""
  ∧ breakdown !! customer_key_if_present blank_company_line = None
  ∧ breakdown !! "Mark" = Some (CustomerTotal.mk 10 450.0%float 1).
Proof. vm_compute. done. Qed.

(** C2 (amended): [compute_totals] sets [totals] to the fold over the lines
    in shipment then line order. [total_boxes] is the sum of the box counts,
    an absent count being zero; [total_weight_lbs] is the sum of the weights,
    an absent or zero weight being [0.0]; [species_breakdown] has one bucket
    per species string, verbatim, holding the sums over the lines of that
    species; [customer_breakdown] has one bucket per customer key, the
    company when it is given and not empty and the customer name otherwise,
    holding the sums over the lines of that key and their number. On the five
    lines of the dry run the totals are 33 boxes and 1220.0 lbs. *)
Theorem compute_totals_fold (self : DailyPayload.t) :
  let ls := payload_lines (DailyPayload.shipments self) in
  let t := DailyPayload.totals (compute_totals self) in
  ShipmentTotals.total_boxes t = sum_boxes ls
  ∧ ShipmentTotals.total_weight_lbs t = sum_weight ls
  ∧ (∀ k, ShipmentTotals.species_breakdown t !! k
          = species_total (species_group k ls))
  ∧ (∀ k, ShipmentTotals.customer_breakdown t !! k
          = customer_total (customer_group k ls))
  ∧ (∀ line,
       boxes_of line = default 0 (ShipmentLine.boxes line)
       ∧ match ShipmentLine.weight_lbs line with
         | None => weight_of line = 0%float
         | Some w =>
             weight_of line = w
             ∨ (PrimFloat.eqb w 0%float = true ∧ weight_of line = 0%float)
         end)
  ∧ (let t5 :=
       DailyPayload.totals (compute_totals (payload_of dry_run_shipments)) in
     ShipmentTotals.total_boxes t5 = 33
     ∧ ShipmentTotals.total_weight_lbs t5 = 1220.0%float).
Proof.
  intros ls t.
  destruct (accumulated_loop ls) as (Hb & Hw & Hs & Hc).
  subst t ls. unfold compute_totals. simpl.
  rewrite totals_loop_flat.
  do 4 (split; [done|]). split; [|done].
  intros line. split; [done|]. apply float_or_zero.
Qed.

(** C8: [compute_totals] is idempotent. A second call leaves the payload,
    and so its totals, exactly as the first call left them, and the totals
    are the same from any payload with the same shipment list; the equality
    is Leibniz equality, on the floating-point sums too. *)
Theorem compute_totals_idempotent (self : DailyPayload.t) :
  compute_totals (compute_totals self) = compute_totals self
  ∧ DailyPayload.totals (compute_totals (compute_totals self))
    = DailyPayload.totals (compute_totals self)
  ∧ DailyPayload.shipments (compute_totals self)
    = DailyPayload.shipments self
  ∧ (∀ other,
       DailyPayload.shipments other = DailyPayload.shipments self →
       DailyPayload.totals (compute_totals other)
       = DailyPayload.totals (compute_totals self)).
Proof.
  repeat split. intros other Hsame. unfold compute_totals. simpl.
  by rewrite Hsame.
Qed.

Lemma species_boxes_add key boxes weight (m : gmap string SpeciesTotal.t) :
  species_boxes (species_add key boxes weight m) = species_boxes m + boxes.
Proof.
  unfold species_add, species_boxes.
  destruct (m !! key) as [sp|] eqn:Hkey; simpl.
  - rewrite <- insert_delete_eq.
    rewrite map_fold_insert_L; [|intros; lia|apply lookup_delete_eq].
    rewrite (map_fold_delete_L _ _ key sp m); [|intros; lia|done].
    simpl. lia.
  - rewrite map_fold_insert_L; [|intros; lia|done]. simpl. lia.
Qed.

Lemma customer_boxes_add name boxes weight (m : gmap string CustomerTotal.t) :
  customer_boxes (customers_add name boxes weight m)
  = customer_boxes m + boxes.
Proof.
  unfold customers_add, customer_boxes.
  destruct (m !! name) as [ct|] eqn:Hname; simpl.
  - rewrite <- insert_delete_eq.
    rewrite map_fold_insert_L; [|intros; lia|apply lookup_delete_eq].
    rewrite (map_fold_delete_L _ _ name ct m); [|intros; lia|done].
    simpl. lia.
  - rewrite map_fold_insert_L; [|intros; lia|done]. simpl. lia.
Qed.

Lemma customer_orders_add name boxes weight (m : gmap string CustomerTotal.t) :
  customer_orders (customers_add name boxes weight m)
  = customer_orders m + 1.
Proof.
  unfold customers_add, customer_orders.
  destruct (m !! name) as [ct|] eqn:Hname; simpl.
  - rewrite <- insert_delete_eq.
    rewrite map_fold_insert_L; [|intros; lia|apply lookup_delete_eq].
    rewrite (map_fold_delete_L _ _ name ct m); [|intros; lia|done].
    simpl. lia.
  - rewrite map_fold_insert_L; [|intros; lia|done]. simpl. lia.
Qed.

Lemma consistent_step n a l :
  consistent n a → consistent (n + 1) (totals_line a l).
Proof.
  intros (Hs & Hc & Ho). unfold totals_line, consistent. simpl.
  rewrite species_boxes_add, customer_boxes_add, customer_orders_add.
  repeat split; lia.
Qed.

Lemma consistent_loop ls n a :
  consistent n a →
  consistent (n + Z.of_nat (length ls)) (fold_left totals_line ls a).
Proof.
  revert n a. induction ls as [|l ls IH]; intros n a Ha; simpl fold_left.
  - by replace (n + Z.of_nat (length (@nil ShipmentLine.t))) with n
      by (simpl; lia).
  - replace (n + Z.of_nat (length (l :: ls)))
      with (n + 1 + Z.of_nat (length ls)) by (simpl length; lia).
    by apply IH, consistent_step.
Qed.

(** C10: after [compute_totals] the totals agree with each other.
    [total_boxes] is the sum of [boxes] over the values of
    [species_breakdown] and also over the values of [customer_breakdown],
    and the sum of [order_count] over [customer_breakdown] is the number of
    shipment lines of the payload. *)
Theorem compute_totals_consistent (self : DailyPayload.t) :
  let t := DailyPayload.totals (compute_totals self) in
  ShipmentTotals.total_boxes t
  = species_boxes (ShipmentTotals.species_breakdown t)
  ∧ ShipmentTotals.total_boxes t
    = customer_boxes (ShipmentTotals.customer_breakdown t)
  ∧ customer_orders (ShipmentTotals.customer_breakdown t)
    = Z.of_nat (length (payload_lines (DailyPayload.shipments self))).
Proof.
  intros t. subst t. unfold compute_totals. simpl.
  rewrite totals_loop_flat.
  apply (consistent_loop _ 0 (Acc 0 0%float ∅ ∅)).
  by repeat split.
Qed.

(* ===================================================================== *)
(** * The record model: construction *)
(* ===================================================================== *)

(** C4 as stated fails: a negative box count and a negative weight are
    accepted and stored. *)
Lemma ShipmentLine_init_negative :
  ShipmentLine_init negative_kwargs
  = inr (ShipmentLine.mk "Mark" None "Swordfish"
           (Some (-3)) (Some (-450.0)%float) None None None)
  ∧ -3 < 0
  ∧ PrimFloat.ltb (-450.0)%float 0%float = true.
Proof. by vm_compute. Qed.

(** C4 (amended): construction from well-typed arguments fails only when
    [customer_name] or [species] is not supplied. No sign is checked: a
    constructed line holds [boxes] and [weight_lbs] as they were given,
    absent or of either sign. *)
Theorem ShipmentLine_init_unconstrained (kw : ShipmentLine_kwargs) :
  match ShipmentLine_init kw with
  | inr line =>
      kw_customer_name kw = Some (ShipmentLine.customer_name line)
      ∧ kw_species kw = Some (ShipmentLine.species line)
      ∧ ShipmentLine.boxes line = kw_boxes kw
      ∧ ShipmentLine.weight_lbs line = kw_weight_lbs kw
  | inl _ => kw_customer_name kw = None ∨ kw_species kw = None
  end.
Proof.
  unfold ShipmentLine_init.
  destruct (kw_customer_name kw), (kw_species kw); simpl; auto.
Qed.

(* ===================================================================== *)
(** * The matcher *)
(* ===================================================================== *)

(** Whatever [rmatch] returns comes from a match of the pattern followed by
    a success of the continuation. *)
Lemma rmatch_sound (r : regex) :
  ∀ prev s k e,
    rmatch r prev s k = Some e →
    ∃ prev' s', Matches r prev s prev' s' ∧ k prev' s' = Some e.
Proof.
  induction r as [p|r1 IH1 r2 IH2|r1 IH1|n r1 IH1| | |];
    intros prev s k e; simpl.
  - destruct s as [|c s]; [done|].
    destruct (p c) eqn:Hp; [|done].
    intros Hk. exists (Some c), s. split; [by constructor|done].
  - intros (prev1 & s1 & H1 & H2)%IH1.
    apply IH2 in H2 as (prev2 & s2 & H2 & Hk).
    exists prev2, s2. split; [by econstructor|done].
  - destruct (rmatch r1 prev s k) as [e'|] eqn:Hr.
    + intros [= ->]. apply IH1 in Hr as (prev' & s' & H1 & Hk).
      exists prev', s'. split; [by constructor|done].
    + intros Hk. exists prev, s. split; [apply Matches_opt_none|done].
  - revert prev s. induction n as [|n IHn]; intros prev s.
    + intros Hk. exists prev, s. split; [constructor|done].
    + intros (prev1 & s1 & H1 & Hrep)%IH1.
      apply IHn in Hrep as (prev2 & s2 & H2 & Hk).
      exists prev2, s2. split; [by econstructor|done].
  - destruct (xorb _ _) eqn:Hx; [|done].
    intros Hk. exists prev, s. split; [by constructor|done].
  - destruct prev; [done|].
    intros Hk. exists None, s. split; [constructor|done].
  - destruct s as [|c [|c' s]]; [| |done].
    + intros Hk. exists prev, "". split; [constructor|done].
    + destruct (Ascii.eqb_spec c "010") as [->|]; [|done].
      intros Hk. eexists prev, _. split; [constructor|done].
Qed.

Lemma match_here_sound r prev s rest :
  match_here r prev s = Some rest → ∃ prev', Matches r prev s prev' rest.
Proof.
  intros (prev' & s' & Hm & [= ->])%rmatch_sound. by exists prev'.
Qed.

(** ** Character classes *)

Lemma digit_is_word c : is_digit c = true → is_word c = true.
Proof. unfold is_digit, is_word. by intros ->. Qed.

(** The next two facts are checked on each of the 256 characters. *)
Lemma digit_not_sep c : is_digit c = true → is_sep c = false.
Proof. destruct c as [[] [] [] [] [] [] [] []]; by vm_compute. Qed.

Lemma sep_not_word c : is_sep c = true → is_word c = false.
Proof. destruct c as [[] [] [] [] [] [] [] []]; by vm_compute. Qed.

Lemma sep_not_digit c : is_sep c = true → is_digit c = false.
Proof.
  intros Hsep. destruct (is_digit c) eqn:Hd; [|done].
  apply digit_not_sep in Hd. congruence.
Qed.

Lemma not_word_not_digit c : is_word c = false → is_digit c = false.
Proof.
  intros Hw. destruct (is_digit c) eqn:Hd; [|done].
  apply digit_is_word in Hd. congruence.
Qed.

(** ** Strings *)

Lemma append_length (s t : string) :
  String.length (s +:+ t) = (String.length s + String.length t)%nat.
Proof. induction s as [|c s IH]; simpl; [done|]. by rewrite IH. Qed.

Lemma substring_prefix (s t : string) :
  substring 0 (String.length s) (s +:+ t) = s.
Proof. induction s as [|c s IH]; simpl; [by destruct t|]. by rewrite IH. Qed.

Lemma matched_append (m rest : string) : matched (m +:+ rest) rest = m.
Proof.
  unfold matched. rewrite append_length.
  replace (String.length m + String.length rest - String.length rest)%nat
    with (String.length m) by lia.
  apply substring_prefix.
Qed.

(* ===================================================================== *)
(** * [AWB_PATTERN] *)
(* ===================================================================== *)

Section AwbPattern.

Local Arguments is_digit : simpl never.
Local Arguments is_sep : simpl never.
Local Arguments is_word : simpl never.
Local Arguments String.append !_ _ / : simpl nomatch.

(** Rewrite with what is known of the class of each character. *)
Ltac class_rewrite :=
  repeat match goal with
    | H : is_digit ?c = _ |- context [is_digit ?c] => rewrite H
    | H : is_sep ?c = _ |- context [is_sep ?c] => rewrite H
    | H : is_word ?c = _ |- context [is_word ?c] => rewrite H
    | H : word_before ?p = _ |- context [word_before ?p] => rewrite H
    | H : word_after ?s = _ |- context [word_after ?s] => rewrite H
    end.

(** Derive the other classes of a digit, of a separator, of a non-word
    character. *)
Ltac classify :=
  repeat match goal with
    | H : is_digit ?c = true |- _ =>
        lazymatch goal with
        | _ : is_word c = true |- _ => fail
        | _ =>
            pose proof (digit_is_word c H); pose proof (digit_not_sep c H)
        end
    | H : is_sep ?c = true |- _ =>
        lazymatch goal with
        | _ : is_word c = false |- _ => fail
        | _ =>
            pose proof (sep_not_word c H); pose proof (sep_not_digit c H)
        end
    | H : is_word ?c = false |- _ =>
        lazymatch goal with
        | _ : is_digit c = false |- _ => fail
        | _ => pose proof (not_word_not_digit c H)
        end
    end.

(** Run the matcher on a subject whose characters are classified. *)
Ltac run_matcher :=
  unfold match_here, AWB_PATTERN; cbn; repeat (class_rewrite; cbn).

Lemma all_digits_3 g :
  String.length g = 3%nat → all_digits g = true →
  ∃ a1 a2 a3,
    g = String a1 (String a2 (String a3 ""))
    ∧ is_digit a1 = true ∧ is_digit a2 = true ∧ is_digit a3 = true.
Proof.
  destruct g as [|a1 [|a2 [|a3 [|? ?]]]]; try done. simpl.
  rewrite !andb_true_iff. intros _ (? & ? & ? & _). by exists a1, a2, a3.
Qed.

Lemma all_digits_4 g :
  String.length g = 4%nat → all_digits g = true →
  ∃ a1 a2 a3 a4,
    g = String a1 (String a2 (String a3 (String a4 "")))
    ∧ is_digit a1 = true ∧ is_digit a2 = true ∧ is_digit a3 = true
    ∧ is_digit a4 = true.
Proof.
  destruct g as [|a1 [|a2 [|a3 [|a4 [|? ?]]]]]; try done. simpl.
  rewrite !andb_true_iff. intros _ (? & ? & ? & ? & _).
  by exists a1, a2, a3, a4.
Qed.

Lemma Matches_opt_sep prev s prev' s' :
  Matches (Opt (Class is_sep)) prev s prev' s' →
  ∃ x, opt_sep x ∧ s = x +:+ s'.
Proof.
  inversion 1 as [| |? ? ? ? ? Hc| | | | | | |]; subst.
  - inversion Hc; subst. eexists (String _ ""). split; [by constructor|done].
  - exists "". split; [constructor|done].
Qed.

Lemma word_after_false_cases rest :
  word_after rest = false →
  rest = "" ∨ ∃ r rest', rest = String r rest' ∧ is_word r = false.
Proof. destruct rest as [|r rest']; [by left|right]. by exists r, rest'. Qed.

Lemma append_assoc (s t u : string) : (s +:+ t) +:+ u = s +:+ (t +:+ u).
Proof. induction s as [|c s IH]; simpl; [done|]. by rewrite IH. Qed.

(** A run of [n] digits. *)
Lemma Matches_digits n prev s prev' s' :
  Matches (Rep n (Class is_digit)) prev s prev' s' →
  ∃ g, s = g +:+ s' ∧ String.length g = n ∧ all_digits g = true
       ∧ word_before prev'
         = match n with O => word_before prev | S _ => true end
       ∧ (n ≠ 0%nat → word_after s = true).
Proof.
  revert prev s. induction n as [|n IH]; intros prev s Hm.
  - inversion Hm; subst. by exists "".
  - inversion Hm as [| | | | |? ? ? ? ? ? ? ? Hc Hrest| | | |]; subst.
    inversion Hc as [? ? c ? Hd| | | | | | | | |]; subst.
    apply IH in Hrest as (g & -> & Hlen & Hall & Hw & _).
    exists (String c g). simpl. rewrite Hd, Hlen, Hall.
    do 3 (split; [done|]). split.
    + rewrite Hw. destruct n; [by apply digit_is_word|done].
    + intros _. by apply digit_is_word.
Qed.

Lemma Matches_seq_inv r1 r2 prev s prev2 s2 :
  Matches (Seq r1 r2) prev s prev2 s2 →
  ∃ prev1 s1, Matches r1 prev s prev1 s1 ∧ Matches r2 prev1 s1 prev2 s2.
Proof. inversion 1; subst. eauto. Qed.

Lemma Matches_word_boundary_inv prev s prev' s' :
  Matches WordBoundary prev s prev' s' →
  prev' = prev ∧ s' = s ∧ xorb (word_before prev) (word_after s) = true.
Proof. by inversion 1; subst. Qed.

(** A match of [AWB_PATTERN] is an AWB-shaped word between two word
    boundaries. *)
Lemma match_here_awb_sound prev s rest :
  match_here AWB_PATTERN prev s = Some rest →
  ∃ m, s = m +:+ rest ∧ awb_shaped m
       ∧ word_before prev = false ∧ word_after rest = false.
Proof.
  intros [prev' Hm]%match_here_sound. unfold AWB_PATTERN in Hm.
  apply Matches_seq_inv in Hm
    as (p0 & t0 & (-> & -> & Hb)%Matches_word_boundary_inv & Hm).
  apply Matches_seq_inv in Hm
    as (p1 & t1 & (g1 & -> & Hl1 & Hd1 & _ & Hw)%Matches_digits & Hm).
  apply Matches_seq_inv in Hm
    as (p2 & t2 & (x & Hx & ->)%Matches_opt_sep & Hm).
  apply Matches_seq_inv in Hm
    as (p3 & t3 & (g2 & -> & Hl2 & Hd2 & _)%Matches_digits & Hm).
  apply Matches_seq_inv in Hm
    as (p4 & t4 & (y & Hy & ->)%Matches_opt_sep & Hm).
  apply Matches_seq_inv in Hm
    as (p5 & t5 & (g3 & -> & Hl3 & Hd3 & Hp5 & _)%Matches_digits & Hm).
  apply Matches_word_boundary_inv in Hm as (-> & <- & He).
  rewrite Hw in Hb by done. rewrite Hp5 in He.
  exists (g1 +:+ x +:+ g2 +:+ y +:+ g3).
  split; [by rewrite !append_assoc|].
  split; [by exists g1, x, g2, y, g3|].
  split; [by destruct (word_before prev)|by destruct (word_after rest)].
Qed.


Lemma match_here_awb_at prev s rest :
  match_here AWB_PATTERN prev s = Some rest → awb_at prev s (matched s rest).
Proof.
  intros (m & -> & Hm & Hp & Hr)%match_here_awb_sound.
  rewrite matched_append. split; [done|]. split; [done|]. by exists rest.
Qed.




(** No match starts inside a match: after the first character of an
    AWB-shaped word, every position up to its end is quiet. *)
Lemma match_here_awb_quiet prev c s rest :
  match_here AWB_PATTERN prev (String c s) = Some rest →
  quiet (Some c) s (String.length (matched (String c s) rest) - 1).
Proof.
  intros (m & Heq & Hm & Hp & Hr)%match_here_awb_sound.
  rewrite Heq, matched_append.
  destruct Hm as (g1 & x & g2 & y & g3 & -> & Hl1 & Hd1 & Hx & Hl2 & Hd2
                  & Hy & Hl3 & Hd3).
  apply all_digits_3 in Hd1 as (a1 & a2 & a3 & -> & ? & ? & ?); [|done].
  apply all_digits_4 in Hd2 as (b1 & b2 & b3 & b4 & -> & ? & ? & ? & ?);
    [|done].
  apply all_digits_4 in Hd3 as (c1 & c2 & c3 & c4 & -> & ? & ? & ? & ?);
    [|done].
  apply word_after_false_cases in Hr as [->|(r & rest' & -> & Hr)];
    destruct Hx as [|x Hx], Hy as [|y Hy];
    simpl in Heq; injection Heq as -> ->; classify;
    cbn [String.length String.append Nat.sub quiet];
    repeat split; by run_matcher.
Qed.

Lemma quiet_O prev s : quiet prev s 0.
Proof. by destruct s. Qed.

(** [findall] skips no mention. *)
Lemma findall_from_mentions s :
  ∀ prev skip,
    quiet prev s skip →
    findall_from AWB_PATTERN prev s skip = mentions_from prev s.
Proof.
  induction s as [|c s IH]; intros prev skip Hq; [done|].
  cbn [findall_from mentions_from]. destruct skip as [|n].
  - destruct (match_here AWB_PATTERN prev (String c s)) as [rest|] eqn:Hm.
    + cbn zeta. f_equal. apply IH. by apply (match_here_awb_quiet prev).
    + apply IH, quiet_O.
  - destruct Hq as [-> Hq]. by apply IH.
Qed.

Lemma awb_shaped_stripped m :
  awb_shaped m →
  String.length (sub_delete is_sep m) = 11%nat
  ∧ all_digits (sub_delete is_sep m) = true.
Proof.
  intros (g1 & x & g2 & y & g3 & -> & Hl1 & Hd1 & Hx & Hl2 & Hd2 & Hy
          & Hl3 & Hd3).
  apply all_digits_3 in Hd1 as (a1 & a2 & a3 & -> & ? & ? & ?); [|done].
  apply all_digits_4 in Hd2 as (b1 & b2 & b3 & b4 & -> & ? & ? & ? & ?);
    [|done].
  apply all_digits_4 in Hd3 as (c1 & c2 & c3 & c4 & -> & ? & ? & ? & ?);
    [|done].
  destruct Hx as [|x Hx], Hy as [|y Hy]; classify;
    cbn; class_rewrite; cbn; by class_rewrite.
Qed.

Lemma mentions_from_shaped s :
  ∀ prev, Forall awb_shaped (mentions_from prev s).
Proof.
  induction s as [|c s IH]; intros prev; [constructor|].
  cbn [mentions_from].
  destruct (match_here AWB_PATTERN prev (String c s)) as [rest|] eqn:Hm;
    [|apply IH].
  constructor; [|apply IH]. by apply match_here_awb_at in Hm as [Hm _].
Qed.

Lemma extract_awbs_mentions text :
  extract_awbs text = map (sub_delete is_sep) (mentions_from None text).
Proof.
  unfold extract_awbs, findall.
  by rewrite findall_from_mentions by apply quiet_O.
Qed.

(** ** The classes in words *)

(** The classes of the matcher are the lists of characters of the
    specification; each fact is checked on the 256 characters. *)
Lemma digit_char_is_digit c : digit_char c = is_digit c.
Proof. destruct c as [[] [] [] [] [] [] [] []]; by vm_compute. Qed.

Lemma blank_char_is_space c : blank_char c = is_space c.
Proof. destruct c as [[] [] [] [] [] [] [] []]; by vm_compute. Qed.



Lemma digits_only_all_digits s : digits_only s = all_digits s.
Proof.
  induction s as [|c s IH]; [done|].
  cbn [digits_only all_digits]. by rewrite digit_char_is_digit, IH.
Qed.








(* ===================================================================== *)
(** * [clean_pattern] *)
(* ===================================================================== *)

Lemma append_empty_r (g : string) : g +:+ "" = g.
Proof. induction g as [|c g IH]; simpl; [done|]. by rewrite IH. Qed.

Lemma rmatch_digits g :
  ∀ prev t k,
    all_digits g = true →
    rmatch (Rep (String.length g) (Class is_digit)) prev (g +:+ t) k
    = k (prev_after prev g) t.
Proof.
  induction g as [|c g IH]; intros prev t k; [done|].
  cbn [all_digits]. intros [Hc Hg]%andb_true_iff.
  specialize (IH (Some c) t k Hg). cbn in IH |- *. by rewrite Hc.
Qed.

Lemma Matches_bol_inv prev s prev' s' :
  Matches Bol prev s prev' s' → prev = None ∧ prev' = None ∧ s' = s.
Proof. by inversion 1. Qed.

Lemma Matches_eol_inv prev s prev' s' :
  Matches Eol prev s prev' s' →
  s' = s ∧ (s = "" ∨ s = String "010" "").
Proof. inversion 1; subst; auto. Qed.

(** [clean_pattern] matches eleven digits, and eleven digits followed by
    one newline, and nothing else. *)
Lemma clean_pattern_matches (awb : string) :
  is_Some (re_match clean_pattern awb)
  ↔ ∃ g, String.length g = 11%nat ∧ all_digits g = true
         ∧ (awb = g ∨ awb = g +:+ String "010" "").
Proof.
  unfold re_match, clean_pattern. split.
  - intros [rest [prev' Hm]%match_here_sound].
    apply Matches_seq_inv in Hm as (p0 & t0 & (_ & -> & ->)%Matches_bol_inv
                                    & Hm).
    apply Matches_seq_inv in Hm
      as (p1 & t1 & (g & -> & Hl & Hd & _)%Matches_digits
          & (_ & Hend)%Matches_eol_inv).
    exists g. do 2 (split; [done|]).
    destruct Hend as [->| ->]; [left|by right].
    apply append_empty_r.
  - intros (g & Hl & Hd & Hawb).
    assert (∀ t, match_here (Bol ⋅ Rep 11 (Class is_digit) ⋅ Eol) None
                   (g +:+ t)
                 = rmatch Eol (prev_after None g) t (λ _ rest, Some rest))
      as Hrun.
    { intros t.
      change (match_here (Bol ⋅ Rep 11 (Class is_digit) ⋅ Eol) None
                (g +:+ t))
        with (rmatch (Rep 11 (Class is_digit)) None (g +:+ t)
                (λ prev' s', rmatch Eol prev' s' (λ _ rest, Some rest))).
      rewrite <- Hl. by apply rmatch_digits. }
    destruct Hawb as [->| ->].
    + exists "". rewrite <- (append_empty_r g) at 1. by rewrite Hrun.
    + exists (String "010" ""). by rewrite Hrun.
Qed.

End AwbPattern.

(* ===================================================================== *)
(** * Detection: the loops as concatenations *)
(* ===================================================================== *)

Lemma flat_map_filter_map {A B : Type} (p : A → bool) (f : A → B)
    (l : list A) :
  flat_map (λ x, if p x then [f x] else []) l = map f (List.filter p l).
Proof.
  induction l as [|x l IH]; simpl; [done|].
  destruct (p x); simpl; by rewrite IH.
Qed.

Lemma flat_map_pairs {A B C : Type} (g : A → list B) (h : A * B → list C)
    (l : list A) :
  flat_map h (flat_map (λ a, map (pair a) (g a)) l)
  = flat_map (λ a, flat_map (λ b, h (a, b)) (g a)) l.
Proof.
  induction l as [|a l IH]; simpl; [done|].
  rewrite flat_map_app, IH. f_equal.
  induction (g a) as [|b bs IHb]; simpl; [done|]. by rewrite IHb.
Qed.

Lemma check_awb_consistency_flat (shipments : list Shipment.t) :
  check_awb_consistency shipments = flat_map awb_anomalies shipments.
Proof.
  unfold check_awb_consistency.
  rewrite (fold_left_append _ awb_anomalies); [done|].
  intros acc s. unfold awb_anomalies.
  destruct (String.eqb _ _); [done|].
  destruct (re_match _ _); [|done]. by rewrite app_nil_r.
Qed.

Lemma check_missing_paperwork_flat emails shipments :
  check_missing_paperwork emails shipments
  = flat_map
      (λ email,
         flat_map
           (λ awb,
              if decide (awb ∈ extracted_awbs_of shipments) then []
              else [paperwork_anomaly email awb])
           (extract_awbs (scanned_text email)))
      emails.
Proof.
  unfold check_missing_paperwork.
  rewrite (fold_left_append _
    (λ email,
       flat_map
         (λ awb,
            if decide (awb ∈ extracted_awbs_of shipments) then []
            else [paperwork_anomaly email awb])
         (extract_awbs (scanned_text email)))); [done|].
  intros acc email.
  apply (fold_left_append _
    (λ awb,
       if decide (awb ∈ extracted_awbs_of shipments) then []
       else [paperwork_anomaly email awb])).
  intros acc' awb. destruct (decide _); [|done]. by rewrite app_nil_r.
Qed.

Section StrLower.

Variable str_lower : string → string.

Lemma weight_outlier_line_append shipment acc line :
  weight_outlier_line_with str_lower shipment acc line
  = acc ++ weight_outlier_line_with str_lower shipment [] line.
Proof.
  unfold weight_outlier_line_with.
  destruct (ShipmentLine.weight_lbs line) as [w|]; [|by rewrite app_nil_r].
  destruct (SPECIES_WEIGHT_RANGES !! _) as [[min_w max_w]|];
    [|by rewrite app_nil_r].
  destruct (_ || _)%bool; [done|by rewrite app_nil_r].
Qed.

Lemma check_weight_outliers_flat (shipments : list Shipment.t) :
  check_weight_outliers_with str_lower shipments
  = flat_map (λ p, weight_outlier_line_with str_lower (fst p) [] (snd p))
      (shipment_lines shipments).
Proof.
  unfold check_weight_outliers_with, shipment_lines.
  rewrite (flat_map_pairs Shipment.lines
             (λ p, weight_outlier_line_with str_lower (fst p) [] (snd p))).
  rewrite (fold_left_append _
    (λ s, flat_map (weight_outlier_line_with str_lower s [])
            (Shipment.lines s))); [done|].
  intros acc s.
  apply (fold_left_append (weight_outlier_line_with str_lower s)).
  intros. apply weight_outlier_line_append.
Qed.

(* ===================================================================== *)
(** * Detection: empty inputs *)
(* ===================================================================== *)

(** C3 as stated fails. With no shipment at all, an email that mentions an
    AWB is reported by [check_missing_paperwork]; with no email at all, a
    shipment without AWB is reported by [run_all_checks]. *)
Lemma checks_not_empty_on_one_empty_list :
  check_missing_paperwork [mention_email] []
  = [Anomaly.mk MISSING_PAPERWORK WARNING
       (MissingPaperwork "Shipment today" "12345678901")
       (Some "12345678901") ["msg_001"]]
  ∧ run_all_checks [] [shipment_of "MISSING" "Victor" [] ["msg_001"]]
    = [Anomaly.mk MISSING_AWB ERROR (NoAwb "Victor" a_date) None
         ["msg_001"]].
Proof. by vm_compute. Qed.

(** C3 (amended): each check returns the empty list when every list it
    reads is empty. The three checks that read only the shipments return it
    on an empty shipment list; [check_missing_paperwork] returns it on an
    empty email list, whatever the shipments; [run_all_checks] returns it
    when both lists are empty. With no shipment, [check_missing_paperwork],
    and so [run_all_checks], reports every AWB mentioned in the emails; with
    no email, [run_all_checks] returns what the three shipment checks
    return. *)
Theorem checks_on_empty_input :
  check_double_counts [] = []
  ∧ check_awb_consistency [] = []
  ∧ check_weight_outliers [] = []
  ∧ (∀ shipments, check_missing_paperwork [] shipments = [])
  ∧ run_all_checks [] [] = []
  ∧ (∀ emails,
       check_missing_paperwork emails []
       = flat_map
           (λ email,
              map (paperwork_anomaly email)
                (extract_awbs (scanned_text email)))
           emails)
  ∧ (∀ emails,
       run_all_checks emails [] = check_missing_paperwork emails [])
  ∧ (∀ shipments,
       run_all_checks [] shipments
       = check_double_counts shipments ++ check_awb_consistency shipments
         ++ check_weight_outliers shipments).
Proof.
  repeat split; try done.
  - intros emails. rewrite check_missing_paperwork_flat.
    induction emails as [|email emails IH]; simpl; [done|].
    rewrite IH. by f_equal.
  - intros emails. unfold run_all_checks, run_all_checks_with. simpl.
    by rewrite !app_nil_r.
  - intros shipments.
    unfold run_all_checks, run_all_checks_with, check_missing_paperwork.
    simpl. by rewrite app_nil_r, <- app_assoc.
Qed.

(* ===================================================================== *)
(** * Detection: [check_weight_outliers] *)
(* ===================================================================== *)

Lemma is_weight_outlier_true (line : ShipmentLine.t) :
  is_weight_outlier str_lower line = true ↔ weight_outlier str_lower line.
Proof.
  unfold is_weight_outlier, weight_outlier. split.
  - destruct (ShipmentLine.weight_lbs line) as [w|]; [|done].
    destruct (SPECIES_WEIGHT_RANGES !! _) as [[min_w max_w]|]; [|done].
    intros H%orb_true_iff. by exists w, min_w, max_w.
  - intros (w & min_w & max_w & -> & -> & H). by apply orb_true_iff.
Qed.

Lemma weight_outlier_line_report shipment line :
  if is_weight_outlier str_lower line
  then ∃ a, weight_outlier_line_with str_lower shipment [] line = [a]
            ∧ outlier_report str_lower (shipment, line) a
  else weight_outlier_line_with str_lower shipment [] line = [].
Proof.
  unfold is_weight_outlier, weight_outlier_line_with, outlier_report.
  destruct (ShipmentLine.weight_lbs line) as [w|]; [|done].
  destruct (SPECIES_WEIGHT_RANGES !! _) as [[min_w max_w]|]; [|done].
  destruct (_ || _)%bool; [|done].
  eexists. split; [done|]. simpl. repeat split. by exists w, min_w, max_w.
Qed.

Lemma Forall2_filter_flat_map {A B : Type} (R : A → B → Prop)
    (p : A → bool) (h : A → list B) (l : list A) :
  (∀ x, if p x then ∃ b, h x = [b] ∧ R x b else h x = []) →
  Forall2 R (List.filter p l) (flat_map h l).
Proof.
  intros Hh. induction l as [|x l IH]; simpl; [constructor|].
  specialize (Hh x). destruct (p x).
  - destruct Hh as (b & -> & Hb). by constructor.
  - by rewrite Hh.
Qed.

(** C7: [check_weight_outliers] reports exactly the lines that are weight
    outliers, one WEIGHT_OUTLIER anomaly of severity WARNING for each, in
    shipment then line order. A line is an outlier when its weight is known,
    its species, lowercased by [str.lower], is in the range table and the
    weight is strictly below the minimum or strictly above the maximum; a
    line with no weight, with a species outside the table or with a weight
    within the range is not reported. This holds whatever [str.lower] does
    to a species. A Swordfish line of 5000 lbs gives exactly one anomaly,
    one of 450 lbs gives none. *)
Theorem check_weight_outliers_exact (shipments : list Shipment.t) :
  Forall2 (outlier_report str_lower)
    (List.filter (λ p, is_weight_outlier str_lower (snd p))
       (shipment_lines shipments))
    (check_weight_outliers_with str_lower shipments)
  ∧ (∀ line, is_weight_outlier str_lower line = true
             ↔ weight_outlier str_lower line)
  ∧ check_weight_outliers [swordfish_shipment 5000.0%float]
    = [Anomaly.mk WEIGHT_OUTLIER WARNING
         (OutsideTypicalRange "99999999999" "Swordfish" "Test"
            5000.0%float 40.0%float 500.0%float)
         (Some "99999999999") []]
  ∧ check_weight_outliers [swordfish_shipment 450.0%float] = [].
Proof.
  split; [|split; [apply is_weight_outlier_true|by vm_compute]].
  rewrite check_weight_outliers_flat.
  apply Forall2_filter_flat_map. intros [shipment line]. simpl.
  apply weight_outlier_line_report.
Qed.

(* ===================================================================== *)
(** * Detection: [check_awb_consistency] *)
(* ===================================================================== *)

(** Each shipment contributes at most one anomaly: MISSING_AWB for the
    sentinel, AWB_MISMATCH when [clean_pattern] does not match, nothing when
    it does. *)
Lemma check_awb_consistency_per_shipment (shipment : Shipment.t) :
  (Shipment.awb shipment = "MISSING"
   ∧ ∃ a, awb_anomalies shipment = [a]
          ∧ Anomaly.anomaly_type a = MISSING_AWB
          ∧ Anomaly.severity a = ERROR)
  ∨ (Shipment.awb shipment ≠ "MISSING"
     ∧ re_match clean_pattern (Shipment.awb shipment) = None
     ∧ ∃ a, awb_anomalies shipment = [a]
            ∧ Anomaly.anomaly_type a = AWB_MISMATCH
            ∧ Anomaly.severity a = WARNING)
  ∨ (Shipment.awb shipment ≠ "MISSING"
     ∧ is_Some (re_match clean_pattern (Shipment.awb shipment))
     ∧ awb_anomalies shipment = []).
Proof.
  unfold awb_anomalies.
  destruct (String.eqb_spec (Shipment.awb shipment) "MISSING") as [He|Hne].
  - left. split; [done|]. by eexists.
  - right. destruct (re_match clean_pattern _) as [rest|].
    + right. by repeat split.
    + left. repeat split; [done|]. by eexists.
Qed.

(** What [check_awb_consistency] decides for one shipment, in words: it is
    silent exactly on an AWB, other than the sentinel, made of eleven digits
    and at most one final newline, the digits being those of [is_digit]. *)
Lemma awb_anomalies_silent (shipment : Shipment.t) :
  awb_anomalies shipment = []
  ↔ ∃ g, String.length g = 11%nat ∧ all_digits g = true
         ∧ (Shipment.awb shipment = g
            ∨ Shipment.awb shipment = g +:+ String "010" "").
Proof.
  rewrite <- clean_pattern_matches. unfold awb_anomalies.
  destruct (String.eqb_spec (Shipment.awb shipment) "MISSING") as [->|Hne].
  - split; [done|]. by intros [? [=]].
  - destruct (re_match clean_pattern _) as [rest|]; split; try done.
Qed.

(** C5, where the code departs from it: an AWB of eleven digits followed by
    a newline has twelve characters, yet [$] matches before a final newline,
    [clean_pattern] accepts it and the shipment is not reported. The three
    AWBs of the specification behave as it says. *)
Lemma check_awb_consistency_trailing_newline :
  String.length newline_awb = 12%nat
  ∧ re_match clean_pattern newline_awb = Some (String "010" "")
  ∧ check_awb_consistency [shipment_of newline_awb "Victor" [] ["msg_001"]]
    = []
  ∧ check_awb_consistency [shipment_of "MISSING" "Victor" [] ["msg_001"]]
    = [Anomaly.mk MISSING_AWB ERROR (NoAwb "Victor" a_date) None
         ["msg_001"]]
  ∧ check_awb_consistency [shipment_of "123" "Victor" [] ["msg_001"]]
    = [Anomaly.mk AWB_MISMATCH WARNING (NonStandardFormat "123")
         (Some "123") ["msg_001"]]
  ∧ check_awb_consistency [shipment_of "12345678901" "Victor" [] ["msg_001"]]
    = [].
Proof. by vm_compute. Qed.

(* ===================================================================== *)
(** * [collections.Counter] *)
(* ===================================================================== *)

Section Counter.
Context {K : Type} `{EqDecision K}.
Implicit Types (k x : K) (c : list (K * nat)) (xs : list K).

Lemma occurrences_cons k x xs :
  occurrences k (x :: xs)
  = ((if decide (x = k) then 1 else 0) + occurrences k xs)%nat.
Proof.
  unfold occurrences. simpl.
  destruct (decide (x = k)) as [->|Hne].
  - by rewrite bool_decide_eq_true_2.
  - by rewrite bool_decide_eq_false_2.
Qed.

Lemma counter_get_incr k x c :
  counter_get k (counter_incr x c)
  = (counter_get k c + if decide (x = k) then 1 else 0)%nat.
Proof.
  induction c as [|[k' n] c IH]; simpl.
  - destruct (decide (k = x)), (decide (x = k)); congruence.
  - destruct (decide (x = k')) as [->|Hx]; simpl.
    + destruct (decide (k = k')), (decide (k' = k)); try congruence; lia.
    + destruct (decide (k = k')) as [->|Hk]; [|done].
      destruct (decide (x = k')); [done|lia].
Qed.

Lemma counter_get_fold k xs c :
  counter_get k (fold_left (λ c x, counter_incr x c) xs c)
  = (counter_get k c + occurrences k xs)%nat.
Proof.
  revert c. induction xs as [|x xs IH]; intros c; simpl.
  - unfold occurrences. simpl. lia.
  - rewrite IH, counter_get_incr, occurrences_cons. lia.
Qed.

Lemma Counter_get k xs : counter_get k (Counter xs) = occurrences k xs.
Proof. unfold Counter. by rewrite counter_get_fold. Qed.

(** A key is inserted once; a count starts at one and only grows. *)
Lemma counter_incr_keys x c :
  NoDup (map fst c) → NoDup (map fst (counter_incr x c))
  ∧ ∀ k, k ∈ map fst (counter_incr x c) ↔ k = x ∨ k ∈ map fst c.
Proof.
  induction c as [|[k' n] c IH]; simpl.
  - intros _. split; [repeat constructor; by intros ?%elem_of_nil|].
    intros k. rewrite elem_of_cons, elem_of_nil. tauto.
  - intros [Hk' Hc]%NoDup_cons.
    destruct (IH Hc) as [IH1 IH2].
    destruct (decide (x = k')) as [->|Hx]; simpl.
    + split; [by apply NoDup_cons|].
      intros k. rewrite !elem_of_cons. tauto.
    + split.
      * apply NoDup_cons. split; [|done].
        rewrite IH2. intros [?|?]; congruence.
      * intros k. rewrite !elem_of_cons, IH2. tauto.
Qed.

Lemma Counter_NoDup xs : NoDup (map fst (Counter xs)).
Proof.
  unfold Counter.
  assert (NoDup (map fst (@nil (K * nat)))) as Hnil by constructor.
  revert Hnil. generalize (@nil (K * nat)).
  induction xs as [|x xs IH]; intros c Hc; simpl; [done|].
  apply IH. by apply counter_incr_keys.
Qed.

Lemma counter_get_absent k c : k ∉ map fst c → counter_get k c = 0%nat.
Proof.
  induction c as [|[k' n] c IH]; simpl; [done|].
  rewrite not_elem_of_cons. intros [Hne Hc].
  destruct (decide (k = k')); [done|auto].
Qed.

Lemma counter_get_elem k n c :
  NoDup (map fst c) → (k, n) ∈ c → counter_get k c = n.
Proof.
  induction c as [|[k' n'] c IH]; simpl.
  - by intros _ ?%elem_of_nil.
  - intros [Hk' Hc]%NoDup_cons [Heq|Hin]%elem_of_cons.
    + injection Heq as -> ->. by rewrite decide_True.
    + destruct (decide (k = k')) as [->|Hne]; [|auto].
      destruct Hk'. apply list_elem_of_fmap. by exists (k', n).
Qed.

(** The items of [Counter xs] are the keys of [xs], each with the number
    of its occurrences. *)
Lemma Counter_items k n xs :
  (k, n) ∈ Counter xs → n = occurrences k xs.
Proof.
  intros Hin. rewrite <- Counter_get.
  symmetry. apply counter_get_elem; [apply Counter_NoDup|done].
Qed.

Lemma counter_get_positive k c :
  (0 < counter_get k c)%nat → (k, counter_get k c) ∈ c.
Proof.
  induction c as [|[k' n] c IH]; simpl; [lia|].
  destruct (decide (k = k')) as [->|Hne]; intros Hpos.
  - apply elem_of_cons. by left.
  - apply elem_of_cons. right. auto.
Qed.
End Counter.

(* ===================================================================== *)
(** * Detection: [check_double_counts] *)
(* ===================================================================== *)

Lemma all_lines_of_keys (dupes : list Shipment.t) :
  all_lines_of_with str_lower dupes
  = map (line_key_with str_lower) (payload_lines dupes).
Proof.
  unfold all_lines_of_with, payload_lines.
  rewrite (fold_left_nested
             (λ all_lines line, all_lines ++ [line_key_with str_lower line])
             Shipment.lines).
  rewrite (fold_left_append _ (λ line, [line_key_with str_lower line]));
    [|intros; reflexivity].
  simpl. induction (flat_map Shipment.lines dupes) as [|l ls IH]; simpl;
    [done|].
  by rewrite IH.
Qed.

Lemma double_count_item_append shipments acc item :
  double_count_item_with str_lower shipments acc item
  = acc ++ double_count_item_with str_lower shipments [] item.
Proof.
  destruct item as [awb count]. unfold double_count_item_with.
  destruct (Nat.leb count 1); [by rewrite app_nil_r|].
  by destruct (List.filter _ _).
Qed.

Lemma check_double_counts_flat (shipments : list Shipment.t) :
  check_double_counts_with str_lower shipments
  = flat_map (double_count_item_with str_lower shipments [])
      (Counter
         (map Shipment.awb
            (List.filter
               (λ s, negb (String.eqb (Shipment.awb s) "MISSING"))
               shipments))).
Proof.
  unfold check_double_counts_with.
  rewrite (fold_left_append _
             (double_count_item_with str_lower shipments [])); [done|].
  intros. apply double_count_item_append.
Qed.

Lemma dupes_of_filter (awb : string) (shipments : list Shipment.t) :
  dupes_of awb shipments
  = List.filter (λ s, bool_decide (Shipment.awb s = awb)) shipments.
Proof.
  unfold dupes_of. induction shipments as [|s ss IH]; simpl; [done|].
  rewrite IH.
  destruct (String.eqb_spec (Shipment.awb s) awb) as [He|Hne].
  - by rewrite bool_decide_eq_true_2.
  - by rewrite bool_decide_eq_false_2.
Qed.

(** The keys the code collects are the lowercased pairs of the lines of the
    shipments with that AWB. *)
Lemma all_lines_of_sharing (awb : string) (shipments : list Shipment.t) :
  all_lines_of_with str_lower (dupes_of awb shipments)
  = keys_sharing str_lower awb shipments.
Proof.
  rewrite all_lines_of_keys. unfold keys_sharing.
  by rewrite dupes_of_filter.
Qed.

(** The duplicated line items the code looks for are the repeated pairs. *)
Lemma duplicate_lines_repeated (awb : string) (shipments : list Shipment.t) :
  List.filter (λ kv : string * string * nat, Nat.ltb 1 (snd kv))
    (Counter (all_lines_of_with str_lower (dupes_of awb shipments))) ≠ []
  ↔ repeated_line str_lower awb shipments.
Proof.
  rewrite all_lines_of_sharing.
  unfold repeated_line.
  generalize (keys_sharing str_lower awb shipments) as keys.
  intros keys. split.
  - destruct (List.filter _ _) as [|[key v] rest] eqn:Hf; [done|].
    intros _. exists key.
    assert (In (key, v) (List.filter
      (λ kv : string * string * nat, Nat.ltb 1 (snd kv)) (Counter keys)))
      as [Hin Hv]%filter_In by (rewrite Hf; by left).
    apply list_elem_of_In, Counter_items in Hin. subst v.
    by apply Nat.ltb_lt in Hv.
  - intros [key Hkey] Hf.
    rewrite <- Counter_get in Hkey.
    assert (In (key, counter_get key (Counter keys))
              (List.filter (λ kv : string * string * nat, Nat.ltb 1 (snd kv))
                 (Counter keys))) as Hin.
    { apply filter_In. split.
      - apply list_elem_of_In, counter_get_positive. lia.
      - by apply Nat.ltb_lt. }
    by rewrite Hf in Hin.
Qed.

(** What the loop body yields for one item of [awb_counts]. *)
Lemma double_count_item_cases shipments awb count :
  ((count ≤ 1)%nat
   ∧ double_count_item_with str_lower shipments [] (awb, count) = [])
  ∨ ((1 < count)%nat
     ∧ ∃ a, double_count_item_with str_lower shipments [] (awb, count) = [a]
            ∧ Anomaly.anomaly_type a = DOUBLE_COUNT
            ∧ Anomaly.related_awb a = Some awb
            ∧ Anomaly.related_emails a
              = flat_map Shipment.source_email_ids (dupes_of awb shipments)
            ∧ (Anomaly.severity a = ERROR
               ↔ repeated_line str_lower awb shipments)
            ∧ (Anomaly.severity a = WARNING
               ↔ ¬ repeated_line str_lower awb shipments)).
Proof.
  unfold double_count_item_with.
  destruct (Nat.leb_spec count 1) as [Hle|Hlt]; [by left|right].
  split; [done|].
  pose proof (duplicate_lines_repeated awb shipments) as Hrep.
  destruct (List.filter _ (Counter _)) as [|kv rest].
  - eexists. split; [done|]. simpl. repeat split; try done.
    + intros Hr%Hrep. by destruct Hr.
    + intros _ Hr%Hrep. by destruct Hr.
  - eexists. split; [done|]. simpl. repeat split; try done.
    + intros _. by apply Hrep.
    + intros Hr. destruct Hr. by apply Hrep.
Qed.

Lemma occurrences_awb awb (shipments : list Shipment.t) :
  occurrences awb
    (map Shipment.awb
       (List.filter (λ s, negb (String.eqb (Shipment.awb s) "MISSING"))
          shipments))
  = if decide (awb = "MISSING") then 0%nat else awb_count awb shipments.
Proof.
  unfold awb_count, dupes_of.
  induction shipments as [|s ss IH]; simpl.
  - by destruct (decide _).
  - destruct (String.eqb_spec (Shipment.awb s) "MISSING") as [Hm|Hm]; simpl.
    + rewrite IH. destruct (decide (awb = "MISSING")) as [->|Hne]; [done|].
      destruct (String.eqb_spec (Shipment.awb s) awb); [congruence|done].
    + rewrite occurrences_cons, IH.
      destruct (decide (Shipment.awb s = awb)) as [<-|Hne].
      * destruct (decide (Shipment.awb s = "MISSING")); [done|].
        by rewrite String.eqb_refl.
      * destruct (String.eqb_spec (Shipment.awb s) awb); [congruence|].
        by destruct (decide _).
Qed.

(** Every anomaly of [check_double_counts] is the one anomaly of a
    duplicated AWB. *)
Lemma check_double_counts_elem shipments a :
  a ∈ check_double_counts_with str_lower shipments →
  ∃ awb,
    duplicated awb shipments
    ∧ Anomaly.anomaly_type a = DOUBLE_COUNT
    ∧ Anomaly.related_awb a = Some awb
    ∧ Anomaly.related_emails a
      = flat_map Shipment.source_email_ids (dupes_of awb shipments)
    ∧ (Anomaly.severity a = ERROR ↔ repeated_line str_lower awb shipments)
    ∧ (Anomaly.severity a = WARNING ↔ ¬ repeated_line str_lower awb shipments).
Proof.
  rewrite check_double_counts_flat, list_elem_of_In, in_flat_map.
  intros ([awb count] & Hitem & Ha).
  apply list_elem_of_In, Counter_items in Hitem.
  rewrite occurrences_awb in Hitem.
  destruct (double_count_item_cases shipments awb count)
    as [[_ Hnil]|[Hlt (a' & Hone & Hrest)]].
  - by rewrite Hnil in Ha.
  - rewrite Hone in Ha. destruct Ha as [<-|[]].
    exists awb. split; [|done].
    destruct (decide (awb = "MISSING")); [lia|]. split; [done|lia].
Qed.

(** The anomalies about one AWB are what the loop body yields for it. *)
Lemma anomalies_about_items shipments awb (c : list (string * nat)) :
  NoDup (map fst c) →
  anomalies_about awb
    (flat_map (double_count_item_with str_lower shipments []) c)
  = double_count_item_with str_lower shipments [] (awb, counter_get awb c).
Proof.
  unfold anomalies_about.
  induction c as [|[k n] c IH]; [done|].
  cbn [flat_map map fst counter_get].
  intros [Hk Hc]%NoDup_cons. rewrite List.filter_app, IH by done.
  destruct (double_count_item_cases shipments k n)
    as [[_ Hnil]|[_ (a & Hone & _ & Hawb & _)]].
  - rewrite Hnil. cbn [List.filter app].
    destruct (decide (awb = k)) as [->|Hne]; [|done].
    by rewrite Hnil, counter_get_absent.
  - rewrite Hone. cbn [List.filter]. rewrite Hawb.
    destruct (decide (awb = k)) as [->|Hne].
    + rewrite bool_decide_eq_true_2, Hone by done.
      by rewrite counter_get_absent.
    + rewrite bool_decide_eq_false_2; [done|congruence].
Qed.

Lemma anomalies_about_count shipments awb :
  anomalies_about awb (check_double_counts_with str_lower shipments)
  = double_count_item_with str_lower shipments []
      (awb, if decide (awb = "MISSING") then 0%nat
            else awb_count awb shipments).
Proof.
  rewrite check_double_counts_flat, anomalies_about_items
    by apply Counter_NoDup.
  by rewrite Counter_get, occurrences_awb.
Qed.

Lemma awb_count_NoDup awb (shipments : list Shipment.t) :
  NoDup (map Shipment.awb shipments) → (awb_count awb shipments ≤ 1)%nat.
Proof.
  unfold awb_count, dupes_of.
  induction shipments as [|s ss IH]; simpl; [lia|].
  intros [Hs Hss]%NoDup_cons.
  destruct (String.eqb_spec (Shipment.awb s) awb) as [<-|Hne]; [|auto].
  simpl. enough (List.filter
    (λ s', String.eqb (Shipment.awb s') (Shipment.awb s)) ss = [])
    as -> by (simpl; lia).
  clear IH Hss. induction ss as [|s' ss IH]; simpl; [done|].
  apply not_elem_of_cons in Hs as [Hne Hs].
  destruct (String.eqb_spec (Shipment.awb s') (Shipment.awb s));
    [congruence|auto].
Qed.

(** C1: [check_double_counts] emits only DOUBLE_COUNT anomalies, each about
    an AWB; exactly one about each AWB, other than the sentinel, that occurs
    in more than one shipment, and none about any other AWB, so none at all
    when no AWB is repeated. The anomaly about an AWB has severity ERROR when
    some (lowercased customer name, lowercased species) pair occurs more than
    once among the lines of the shipments sharing the AWB, and WARNING
    otherwise. This holds whatever [str.lower] does to a name; the pairs are
    taken from the lines, not from the keys of the code. Two shipments with
    the same line give an ERROR, also when the letter cases differ, and two
    with lines that share no pair a WARNING. *)
Theorem check_double_counts_exact (shipments : list Shipment.t) :
  let result := check_double_counts_with str_lower shipments in
  Forall (λ a, Anomaly.anomaly_type a = DOUBLE_COUNT
               ∧ ∃ awb, Anomaly.related_awb a = Some awb) result
  ∧ (∀ awb, duplicated awb shipments →
       length (anomalies_about awb result) = 1%nat)
  ∧ (∀ awb, ¬ duplicated awb shipments → anomalies_about awb result = [])
  ∧ (∀ a awb, a ∈ result → Anomaly.related_awb a = Some awb →
       (Anomaly.severity a = ERROR ↔ repeated_line str_lower awb shipments)
       ∧ (Anomaly.severity a = WARNING
          ↔ ¬ repeated_line str_lower awb shipments))
  ∧ (NoDup (map Shipment.awb shipments) → result = [])
  ∧ map Anomaly.severity (check_double_counts doubled_shipments) = [ERROR]
  ∧ map Anomaly.severity (check_double_counts split_shipments) = [WARNING]
  ∧ check_double_counts recased_shipments = [recased_anomaly].
Proof.
  intros result. subst result.
  assert (∀ awb, ¬ duplicated awb shipments →
            anomalies_about awb (check_double_counts_with str_lower shipments)
            = [])
    as Hnone.
  { intros awb Hnot. rewrite anomalies_about_count.
    destruct (double_count_item_cases shipments awb
      (if decide (awb = "MISSING") then 0%nat else awb_count awb shipments))
      as [[_ Hnil]|[Hlt _]]; [done|].
    destruct Hnot. destruct (decide (awb = "MISSING")); [lia|done]. }
  assert (Forall (λ a, Anomaly.anomaly_type a = DOUBLE_COUNT
                       ∧ ∃ awb, Anomaly.related_awb a = Some awb)
            (check_double_counts_with str_lower shipments)) as Hall.
  { apply Forall_forall. intros a Ha.
    destruct (check_double_counts_elem _ _ Ha) as (awb & _ & Ht & Hawb & _).
    split; [done|by exists awb]. }
  assert (∀ a awb, a ∈ check_double_counts_with str_lower shipments →
            Anomaly.related_awb a = Some awb →
            (Anomaly.severity a = ERROR
             ↔ repeated_line str_lower awb shipments)
            ∧ (Anomaly.severity a = WARNING
               ↔ ¬ repeated_line str_lower awb shipments))
    as Hsev.
  { intros a awb Ha Hawb.
    destruct (check_double_counts_elem _ _ Ha)
      as (awb' & _ & _ & Hawb' & _ & He & Hw).
    rewrite Hawb' in Hawb. by injection Hawb as ->. }
  split; [done|]. split; [|split; [done|split; [done|split]]].
  - intros awb [Hne Hlt]. rewrite anomalies_about_count.
    rewrite decide_False by done.
    destruct (double_count_item_cases shipments awb
      (awb_count awb shipments)) as [[Hle _]|[_ (a & -> & _)]]; [lia|done].
  - intros Hnd.
    destruct (check_double_counts_with str_lower shipments)
      as [|a rest] eqn:Hres; [done|].
    apply Forall_cons in Hall as [[_ [awb Hawb]] _].
    assert (¬ duplicated awb shipments) as Hnot.
    { intros [_ Hlt]. pose proof (awb_count_NoDup awb _ Hnd). lia. }
    apply Hnone in Hnot.
    unfold anomalies_about in Hnot. simpl in Hnot.
    by rewrite Hawb, bool_decide_eq_true_2 in Hnot.
  - by vm_compute.
Qed.

End StrLower.

(** C1 on two shipments under one AWB whose lines differ in letter case
    only: one anomaly, an ERROR, so a lowercased pair occurs twice. *)
Lemma check_double_counts_exact_witness :
  duplicated "12345678901" recased_shipments
  ∧ length (anomalies_about "12345678901"
              (check_double_counts recased_shipments)) = 1%nat
  ∧ recased_anomaly ∈ check_double_counts recased_shipments
  ∧ repeated_line lower "12345678901" recased_shipments.
Proof.
  assert (duplicated "12345678901" recased_shipments) as Hdup
    by (split; [done|vm_compute; lia]).
  assert (recased_anomaly ∈ check_double_counts recased_shipments) as Hin
    by (vm_compute; apply list_elem_of_here).
  split; [exact Hdup|].
  split;
    [exact (proj1 (proj2 (check_double_counts_exact lower
                            recased_shipments)) _ Hdup)|].
  split; [exact Hin|].
  exact (proj1 (proj1 (proj1 (proj2 (proj2 (proj2
           (check_double_counts_exact lower recased_shipments))))
           recased_anomaly "12345678901" Hin eq_refl)) eq_refl).
Defined.

(** C6 as stated fails: two shipments under one AWB that carry the same
    source email id put that id twice into [related_emails]. *)
Lemma double_count_related_emails_repeat :
  map Shipment.source_email_ids doubled_shipments
  = [["msg_001"]; ["msg_001"]]
  ∧ map Anomaly.related_emails (check_double_counts doubled_shipments)
    = [["msg_001"; "msg_001"]].
Proof. by vm_compute. Qed.

(** C6 (amended): the DOUBLE_COUNT anomaly of a duplicated AWB, ERROR or
    WARNING, has as [related_emails] the concatenation, in shipment order,
    of the source email id lists of the shipments sharing the AWB. It holds
    the ids of their union, and an id is listed once for every occurrence in
    those lists. *)
Theorem double_count_related_emails (shipments : list Shipment.t)
    (a : Anomaly.t) :
  a ∈ check_double_counts shipments →
  ∃ awb,
    Anomaly.related_awb a = Some awb
    ∧ Anomaly.related_emails a
      = flat_map Shipment.source_email_ids (dupes_of awb shipments)
    ∧ (∀ eid, eid ∈ Anomaly.related_emails a
              ↔ ∃ s, s ∈ shipments ∧ Shipment.awb s = awb
                     ∧ eid ∈ Shipment.source_email_ids s)
    ∧ (∀ eid, occurrences eid (Anomaly.related_emails a)
              = foldr Nat.add 0%nat
                  (map (λ s, occurrences eid (Shipment.source_email_ids s))
                     (dupes_of awb shipments))).
Proof.
  intros Ha.
  destruct (check_double_counts_elem lower _ _ Ha)
    as (awb & _ & _ & Hawb & He & _).
  exists awb. rewrite He. repeat split; try done.
  - rewrite list_elem_of_In, in_flat_map.
    intros (s & [Hs Heq]%filter_In & Heid).
    exists s. rewrite !list_elem_of_In.
    by apply String.eqb_eq in Heq.
  - intros (s & Hs & Heq & Heid).
    rewrite list_elem_of_In, in_flat_map. exists s.
    unfold dupes_of. rewrite filter_In, <- !list_elem_of_In.
    by apply String.eqb_eq in Heq.
  - intros eid. unfold occurrences. clear.
    induction (dupes_of awb shipments) as [|s ss IH]; simpl; [done|].
    by rewrite List.filter_app, length_app, IH.
Qed.

(** C6 (amended) on a shipment split over two emails. *)
Lemma double_count_related_emails_witness :
  split_anomaly ∈ check_double_counts split_shipments
  ∧ ∃ awb,
      Anomaly.related_awb split_anomaly = Some awb
      ∧ Anomaly.related_emails split_anomaly
        = flat_map Shipment.source_email_ids (dupes_of awb split_shipments)
      ∧ (∀ eid, eid ∈ Anomaly.related_emails split_anomaly
                ↔ ∃ s, s ∈ split_shipments ∧ Shipment.awb s = awb
                       ∧ eid ∈ Shipment.source_email_ids s)
      ∧ (∀ eid, occurrences eid (Anomaly.related_emails split_anomaly)
                = foldr Nat.add 0%nat
                    (map (λ s, occurrences eid (Shipment.source_email_ids s))
                       (dupes_of awb split_shipments))).
Proof.
  assert (split_anomaly ∈ check_double_counts split_shipments) as Ha
    by (vm_compute; apply list_elem_of_here).
  split; [exact Ha|].
  exact (double_count_related_emails split_shipments split_anomaly Ha).
Defined.

(* ===================================================================== *)
(** * More on [collections.Counter] *)
(* ===================================================================== *)

Section CounterOrder.
Context {K : Type} `{EqDecision K}.
Implicit Types (k x : K) (c : list (K * nat)) (xs : list K).

Lemma counter_incr_fst x c :
  map fst (counter_incr x c)
  = if decide (x ∈ map fst c) then map fst c else map fst c ++ [x].
Proof.
  induction c as [|[k n] c IH]; simpl.
  - destruct (decide (x ∈ [])) as [Hin|_]; [|done].
    by apply elem_of_nil in Hin.
  - destruct (decide (x = k)) as [->|Hne]; simpl.
    + destruct (decide (k ∈ k :: map fst c)) as [_|Hnin]; [done|].
      destruct Hnin. apply list_elem_of_here.
    + rewrite IH.
      destruct (decide (x ∈ map fst c)) as [Hin|Hnin],
               (decide (x ∈ k :: map fst c)) as [Hin'|Hnin']; try done.
      * destruct Hnin'. by apply list_elem_of_further.
      * apply elem_of_cons in Hin' as [?|?]; done.
Qed.

Lemma filter_ext_in {A : Type} (p q : A → bool) (l : list A) :
  (∀ a, a ∈ l → p a = q a) → List.filter p l = List.filter q l.
Proof.
  induction l as [|a l IH]; intros Hpq; simpl; [done|].
  rewrite (Hpq a) by apply list_elem_of_here.
  rewrite IH; [done|]. intros b Hb. apply Hpq. by apply list_elem_of_further.
Qed.

Lemma filter_filter {A : Type} (p q : A → bool) (l : list A) :
  List.filter p (List.filter q l) = List.filter (λ a, q a && p a) l.
Proof.
  induction l as [|a l IH]; simpl; [done|].
  destruct (q a); simpl; [|done]. destruct (p a); by rewrite IH.
Qed.

(** The keys after counting [xs] on top of [c]. *)
Lemma counter_fold_fst xs :
  ∀ c,
    map fst (fold_left (λ c x, counter_incr x c) xs c)
    = map fst c
      ++ List.filter (λ k, negb (bool_decide (k ∈ map fst c)))
           (first_occurrences xs).
Proof.
  induction xs as [|x xs IH]; intros c; simpl.
  - by rewrite app_nil_r.
  - rewrite IH, counter_incr_fst.
    destruct (decide (x ∈ map fst c)) as [Hin|Hnin].
    + rewrite bool_decide_eq_true_2 by done. simpl. f_equal.
      rewrite filter_filter. apply filter_ext_in. intros k _.
      destruct (bool_decide_reflect (k = x)) as [->|Hne]; simpl; [|done].
      by rewrite bool_decide_eq_true_2.
    + rewrite bool_decide_eq_false_2 by done. simpl.
      rewrite <- app_assoc. simpl. do 2 f_equal.
      rewrite filter_filter. apply filter_ext_in. intros k _.
      destruct (bool_decide_reflect (k = x)) as [->|Hne]; simpl.
      * rewrite bool_decide_eq_true_2; [done|].
        apply elem_of_app. right. apply list_elem_of_here.
      * apply f_equal, bool_decide_ext.
        rewrite elem_of_app, elem_of_cons, elem_of_nil. tauto.
Qed.

Lemma Counter_fst xs : map fst (Counter xs) = first_occurrences xs.
Proof.
  unfold Counter. rewrite counter_fold_fst. simpl.
  induction (first_occurrences xs) as [|k ks IH]; simpl; [done|].
  by rewrite IH.
Qed.

(** A [Counter] lists the elements in order of first occurrence, each with
    the number of its occurrences. *)
Lemma Counter_exact xs :
  Counter xs = map (λ k, (k, occurrences k xs)) (first_occurrences xs).
Proof.
  rewrite <- Counter_fst.
  assert (Forall (λ kv, snd kv = occurrences (fst kv) xs) (Counter xs)) as Hc.
  { apply Forall_forall. intros [k n] Hin. by apply Counter_items. }
  induction Hc as [|[k n] c Hk _ IH]; simpl; [done|].
  simpl in Hk. by rewrite <- Hk, <- IH.
Qed.

Lemma counter_total_incr x c :
  counter_total (counter_incr x c) = S (counter_total c).
Proof.
  induction c as [|[k n] c IH]; simpl; [done|].
  destruct (decide (x = k)); simpl; [done|]. rewrite IH. lia.
Qed.

Lemma Counter_total xs : counter_total (Counter xs) = length xs.
Proof.
  unfold Counter.
  enough (∀ c, counter_total (fold_left (λ c x, counter_incr x c) xs c)
               = (counter_total c + length xs)%nat) as Hgen
    by (by rewrite Hgen).
  induction xs as [|x xs IH]; intros c; simpl; [lia|].
  rewrite IH, counter_total_incr. lia.
Qed.

Lemma counter_repeats_bound c :
  (2 * length (List.filter (λ kv : K * nat, Nat.ltb 1 (snd kv)) c)
   ≤ counter_total c)%nat.
Proof.
  induction c as [|[k n] c IH]; simpl; [lia|].
  destruct (Nat.ltb_spec 1 n); simpl; lia.
Qed.
End CounterOrder.

(* ===================================================================== *)
(** * More on [check_double_counts] *)
(* ===================================================================== *)

Section MoreDoubleCounts.

Variable str_lower : string → string.

Lemma first_occurrences_elem {K : Type} `{EqDecision K} (k : K)
    (xs : list K) :
  k ∈ first_occurrences xs → k ∈ xs.
Proof.
  induction xs as [|x xs IH]; simpl; [done|].
  rewrite !elem_of_cons. intros [->|Hin]; [by left|right].
  apply list_elem_of_In, filter_In in Hin as [Hin _].
  by apply IH, list_elem_of_In.
Qed.

Lemma counted_awbs_elem awb shipments :
  awb ∈ counted_awbs shipments → awb ≠ "MISSING".
Proof.
  unfold counted_awbs. rewrite list_elem_of_In, in_map_iff.
  intros (s & <- & [_ Hs]%filter_In) Heq.
  by rewrite Heq in Hs.
Qed.

Lemma filter_map_comm {A B : Type} (f : A → B) (p : B → bool)
    (l : list A) :
  List.filter p (map f l) = map f (List.filter (λ a, p (f a)) l).
Proof.
  induction l as [|a l IH]; simpl; [done|].
  destruct (p (f a)); simpl; by rewrite IH.
Qed.

(** The repeated line items the code collects, spelled out. *)
Lemma duplicate_lines_pairs awb shipments :
  map (λ kv : string * string * nat, (fst (fst kv), snd (fst kv), snd kv))
    (List.filter (λ kv : string * string * nat, Nat.ltb 1 (snd kv))
       (Counter (all_lines_of_with str_lower (dupes_of awb shipments))))
  = repeated_pairs str_lower awb shipments.
Proof.
  rewrite all_lines_of_sharing. unfold repeated_pairs.
  rewrite Counter_exact, filter_map_comm, map_map. done.
Qed.

(** The anomaly of one duplicated AWB, spelled out. *)
Lemma double_count_item_anomaly shipments awb count :
  (1 < count)%nat →
  double_count_item_with str_lower shipments [] (awb, count)
  = [Anomaly.mk DOUBLE_COUNT
       (match (repeated_pairs str_lower) awb shipments with
        | [] => WARNING
        | _ :: _ => ERROR
        end)
       (match (repeated_pairs str_lower) awb shipments with
        | [] => SplitShipment awb count
        | _ :: _ =>
            DuplicateLineItems awb count
              (repeated_pairs str_lower awb shipments)
        end)
       (Some awb)
       (flat_map Shipment.source_email_ids (dupes_of awb shipments))].
Proof.
  intros Hlt. unfold double_count_item_with.
  destruct (Nat.leb_spec count 1) as [Hle|_]; [lia|].
  rewrite <- duplicate_lines_pairs.
  by destruct (List.filter _ (Counter _)).
Qed.

(** The whole check as one pass over the AWBs in order of first
    occurrence. *)
Lemma check_double_counts_by_awb shipments :
  check_double_counts_with str_lower shipments
  = flat_map
      (λ awb, double_count_item_with str_lower shipments []
                (awb, awb_count awb shipments))
      (first_occurrences (counted_awbs shipments)).
Proof.
  rewrite check_double_counts_flat. fold (counted_awbs shipments).
  rewrite Counter_exact.
  assert (∀ awb, awb ∈ first_occurrences (counted_awbs shipments) →
                 occurrences awb (counted_awbs shipments)
                 = awb_count awb shipments) as Hocc.
  { intros awb Hin%first_occurrences_elem%counted_awbs_elem.
    unfold counted_awbs. rewrite occurrences_awb. by rewrite decide_False. }
  induction (first_occurrences (counted_awbs shipments)) as [|awb awbs IH];
    simpl; [done|].
  rewrite Hocc by apply list_elem_of_here. f_equal.
  apply IH. intros awb' Hin. apply Hocc. by apply list_elem_of_further.
Qed.

(** X2: the description of a DOUBLE_COUNT anomaly carries the AWB, the
    number of shipments sharing it and, when line items repeat, every
    repeated (lowercased customer, lowercased species) pair once, in order
    of first occurrence, with the number of its occurrences; when none
    repeats it is the split-shipment text. This holds whatever [str.lower]
    does to a name. *)
Theorem double_count_description (shipments : list Shipment.t)
    (a : Anomaly.t) (awb : string) :
  a ∈ check_double_counts_with str_lower shipments →
  Anomaly.related_awb a = Some awb →
  Anomaly.description a
  = match repeated_pairs str_lower awb shipments with
    | [] => SplitShipment awb (awb_count awb shipments)
    | _ :: _ =>
        DuplicateLineItems awb (awb_count awb shipments)
          (repeated_pairs str_lower awb shipments)
    end.
Proof.
  rewrite check_double_counts_by_awb, list_elem_of_In, in_flat_map.
  intros (awb' & _ & Ha) Hawb.
  destruct (double_count_item_cases str_lower shipments awb'
              (awb_count awb' shipments)) as [[_ Hnil]|[Hlt _]].
  - by rewrite Hnil in Ha.
  - rewrite double_count_item_anomaly in Ha by done.
    destruct Ha as [<-|[]]. simpl in Hawb. by injection Hawb as ->.
Qed.

End MoreDoubleCounts.

(** X2 on two shipments under one AWB whose lines differ in letter case
    only: the description lists the pair of mark and swordfish, twice. *)
Lemma double_count_description_witness :
  recased_anomaly ∈ check_double_counts recased_shipments
  ∧ Anomaly.related_awb recased_anomaly = Some "12345678901"
  ∧ Anomaly.description recased_anomaly
    = DuplicateLineItems "12345678901" 2 [("mark", "swordfish", 2%nat)]
  ∧ repeated_pairs lower "12345678901" recased_shipments
    = [("mark", "swordfish", 2%nat)].
Proof.
  assert (recased_anomaly ∈ check_double_counts recased_shipments) as Hin
    by (vm_compute; repeat constructor).
  assert (Anomaly.related_awb recased_anomaly = Some "12345678901") as Hawb
    by done.
  do 2 (split; [done|]).
  split; [|by vm_compute].
  exact (double_count_description lower _ _ _ Hin Hawb).
Defined.

(** X1: the anomalies of [check_double_counts] follow the order in which
    the duplicated AWBs first occur among the shipments, one anomaly for
    each, and there are at most half as many anomalies as shipments. *)
Theorem check_double_counts_order (shipments : list Shipment.t) :
  map Anomaly.related_awb (check_double_counts shipments)
  = map Some
      (List.filter (λ awb, Nat.ltb 1 (awb_count awb shipments))
         (first_occurrences (counted_awbs shipments)))
  ∧ (2 * length (check_double_counts shipments) ≤ length shipments)%nat.
Proof.
  unfold check_double_counts. split.
  - rewrite check_double_counts_by_awb.
    induction (first_occurrences (counted_awbs shipments)) as [|awb awbs IH];
      [done|].
    cbn [flat_map List.filter]. rewrite map_app, IH.
    destruct (Nat.ltb_spec 1 (awb_count awb shipments)) as [Hlt|Hle].
    + by rewrite double_count_item_anomaly.
    + destruct (double_count_item_cases lower shipments awb
                  (awb_count awb shipments)) as [[_ ->]|[Hlt _]]; [done|lia].
  - rewrite check_double_counts_flat. fold (counted_awbs shipments).
    assert (length (flat_map (double_count_item_with lower shipments [])
                      (Counter (counted_awbs shipments)))
            = length (List.filter (λ kv : string * nat, Nat.ltb 1 (snd kv))
                        (Counter (counted_awbs shipments)))) as ->.
    { induction (Counter (counted_awbs shipments)) as [|[awb n] c IH];
        [done|].
      cbn [flat_map List.filter snd]. rewrite length_app, IH.
      destruct (Nat.ltb_spec 1 n) as [Hlt|Hle].
      - by rewrite double_count_item_anomaly.
      - destruct (double_count_item_cases lower shipments awb n)
          as [[_ ->]|[Hlt _]]; [done|lia]. }
    assert (length (counted_awbs shipments) ≤ length shipments)%nat as Hlen.
    { unfold counted_awbs. rewrite length_map. apply filter_length_le. }
    rewrite <- (Counter_total (counted_awbs shipments)) in Hlen.
    pose proof (counter_repeats_bound (Counter (counted_awbs shipments))).
    lia.
Qed.

(* ===================================================================== *)
(** * More on [check_missing_paperwork] *)
(* ===================================================================== *)

Lemma extract_awbs_eleven_digits text :
  Forall (λ awb, eleven_digits awb = true) (extract_awbs text).
Proof.
  rewrite extract_awbs_mentions. apply Forall_map.
  eapply Forall_impl; [apply mentions_from_shaped|].
  intros m [Hlen Hdigits]%awb_shaped_stripped. unfold eleven_digits.
  rewrite digits_only_all_digits. simpl. by rewrite Hlen, Hdigits.
Qed.

Lemma eleven_digits_not_sentinel awb :
  eleven_digits awb = true → awb ≠ "MISSING".
Proof. by intros Hd ->. Qed.

Lemma extracted_awbs_covered shipments awb :
  awb ≠ "MISSING" →
  awb ∈ extracted_awbs_of shipments ↔ covered shipments awb = true.
Proof.
  intros Hne. unfold extracted_awbs_of, covered.
  rewrite elem_of_list_to_set, list_elem_of_In, in_map_iff, existsb_exists.
  split.
  - intros (s & <- & [Hs _]%filter_In). exists s.
    by rewrite String.eqb_refl.
  - intros (s & Hs & <-%String.eqb_eq). exists s. split; [done|].
    apply filter_In. split; [done|].
    by destruct (String.eqb_spec (Shipment.awb s) "MISSING").
Qed.

Lemma covered_eleven_digits shipments awb :
  eleven_digits awb = true →
  covered (List.filter (λ s, eleven_digits (Shipment.awb s)) shipments) awb
  = covered shipments awb.
Proof.
  intros Hd. unfold covered.
  induction shipments as [|s ss IH]; simpl; [done|].
  destruct (eleven_digits (Shipment.awb s)) eqn:Hs; simpl; [by rewrite IH|].
  rewrite IH.
  destruct (String.eqb_spec (Shipment.awb s) awb) as [Heq|]; [|done].
  congruence.
Qed.

Lemma flat_map_map_filter {A B : Type} (p : A → bool) (f : A → B)
    (h : A → list B) (l : list A) :
  (∀ a, a ∈ l → h a = if p a then [f a] else []) →
  flat_map h l = map f (List.filter p l).
Proof.
  induction l as [|a l IH]; intros Hh; simpl; [done|].
  rewrite (Hh a) by apply list_elem_of_here.
  rewrite IH by (intros b Hb; by apply Hh, list_elem_of_further).
  by destruct (p a).
Qed.

Lemma missing_paperwork_uncovered emails shipments :
  check_missing_paperwork emails shipments
  = flat_map
      (λ email,
         map (paperwork_anomaly email)
           (List.filter (λ awb, negb (covered shipments awb))
              (extract_awbs (scanned_text email))))
      emails.
Proof.
  rewrite check_missing_paperwork_flat.
  induction emails as [|email emails IH]; simpl; [done|].
  rewrite IH. f_equal. apply flat_map_map_filter.
  intros awb Hawb.
  pose proof (extract_awbs_eleven_digits (scanned_text email)) as Hall.
  rewrite Forall_forall in Hall.
  apply Hall, eleven_digits_not_sentinel in Hawb.
  destruct (decide (awb ∈ extracted_awbs_of shipments)) as [Hin|Hnin].
  - apply extracted_awbs_covered in Hin; [|done]. by rewrite Hin.
  - destruct (covered shipments awb) eqn:Hc; [|done].
    destruct Hnin. by apply extracted_awbs_covered.
Qed.

(** X3: on ASCII emails, [check_missing_paperwork] reports, in email then
    mention order, exactly the AWB mentions that no shipment carries, once
    for every mention, a repeated mention being reported again; it reads the
    shipments only through their eleven-digit AWBs, so a shipment whose AWB
    is the sentinel or is not eleven digits never accounts for a mention. *)
Theorem check_missing_paperwork_exact (emails : list EmailDetail.t)
    (shipments : list Shipment.t) :
  ascii_emails emails →
  check_missing_paperwork emails shipments
  = flat_map
      (λ email,
         map (paperwork_anomaly email)
           (List.filter (λ awb, negb (covered shipments awb))
              (extract_awbs (scanned_text email))))
      emails
  ∧ check_missing_paperwork emails shipments
    = check_missing_paperwork emails
        (List.filter (λ s, eleven_digits (Shipment.awb s)) shipments).
Proof.
  intros _. split; [apply missing_paperwork_uncovered|].
  rewrite !missing_paperwork_uncovered. apply flat_map_ext. intros email.
  f_equal. apply filter_ext_in. intros awb Hawb.
  pose proof (extract_awbs_eleven_digits (scanned_text email)) as Hall.
  rewrite Forall_forall in Hall.
  by rewrite covered_eleven_digits by by apply Hall.
Qed.

(** X3 on an email that mentions an AWB which the shipments carry with
    hyphens only. *)
Lemma check_missing_paperwork_exact_witness :
  ascii_emails [mention_email]
  ∧ check_missing_paperwork [mention_email] assorted_shipments
    = flat_map
        (λ email,
           map (paperwork_anomaly email)
             (List.filter (λ awb, negb (covered assorted_shipments awb))
                (extract_awbs (scanned_text email))))
        [mention_email]
  ∧ check_missing_paperwork [mention_email] assorted_shipments
    = check_missing_paperwork [mention_email]
        (List.filter (λ s, eleven_digits (Shipment.awb s))
           assorted_shipments).
Proof.
  assert (ascii_emails [mention_email]) as Hascii
    by (repeat constructor).
  split; [exact Hascii|].
  exact (check_missing_paperwork_exact _ assorted_shipments Hascii).
Defined.

(* ===================================================================== *)
(** * More on [run_all_checks] *)
(* ===================================================================== *)

Lemma flat_map_nil_iff {A B : Type} (h : A → list B) (l : list A) :
  flat_map h l = [] ↔ Forall (λ x, h x = []) l.
Proof.
  induction l as [|x l IH]; simpl; [by split|].
  rewrite Forall_cons, <- IH. split.
  - by intros [? ?]%app_eq_nil.
  - by intros [-> ->].
Qed.

Lemma filter_nil_iff {A : Type} (p : A → bool) (l : list A) :
  List.filter p l = [] ↔ Forall (λ x, p x = false) l.
Proof.
  induction l as [|x l IH]; simpl; [by split|].
  rewrite Forall_cons, <- IH. destruct (p x); split; try done.
  - by intros [? ?].
  - by intros [_ ?].
Qed.

(** [check_awb_consistency] is silent on the accepted AWBs. *)
Lemma awb_anomalies_accepted (s : Shipment.t) :
  awb_anomalies s = [] ↔ accepted_awb (Shipment.awb s).
Proof.
  rewrite awb_anomalies_silent. unfold accepted_awb.
  by setoid_rewrite digits_only_all_digits.
Qed.

Section MoreChecks.

Variable str_lower : string → string.

Lemma run_all_checks_elem emails shipments a :
  a ∈ run_all_checks_with str_lower emails shipments
  ↔ a ∈ check_double_counts_with str_lower shipments
    ∨ a ∈ check_missing_paperwork emails shipments
    ∨ a ∈ check_awb_consistency shipments
    ∨ a ∈ check_weight_outliers_with str_lower shipments.
Proof.
  unfold run_all_checks_with. cbn zeta. rewrite app_nil_l, !elem_of_app. tauto.
Qed.

Lemma check_missing_paperwork_elem emails shipments a :
  a ∈ check_missing_paperwork emails shipments →
  Anomaly.anomaly_type a = MISSING_PAPERWORK
  ∧ Anomaly.severity a = WARNING.
Proof.
  rewrite missing_paperwork_uncovered, list_elem_of_In, in_flat_map.
  by intros (email & _ & (awb & <- & _)%in_map_iff).
Qed.

Lemma check_awb_consistency_elem shipments a :
  a ∈ check_awb_consistency shipments
  ↔ ∃ s, s ∈ shipments ∧ a ∈ awb_anomalies s.
Proof.
  rewrite check_awb_consistency_flat, list_elem_of_In, in_flat_map.
  by setoid_rewrite list_elem_of_In.
Qed.

Lemma awb_anomalies_elem s a :
  a ∈ awb_anomalies s →
  (Shipment.awb s = "MISSING"
   ∧ Anomaly.anomaly_type a = MISSING_AWB ∧ Anomaly.severity a = ERROR)
  ∨ (Shipment.awb s ≠ "MISSING"
     ∧ Anomaly.anomaly_type a = AWB_MISMATCH
     ∧ Anomaly.severity a = WARNING).
Proof.
  unfold awb_anomalies.
  destruct (String.eqb_spec (Shipment.awb s) "MISSING") as [Heq|Hne].
  - intros ->%list_elem_of_singleton. by left.
  - destruct (re_match clean_pattern _); [by intros ?%elem_of_nil|].
    intros ->%list_elem_of_singleton. by right.
Qed.

Lemma check_weight_outliers_elem shipments a :
  a ∈ check_weight_outliers_with str_lower shipments →
  Anomaly.anomaly_type a = WEIGHT_OUTLIER ∧ Anomaly.severity a = WARNING.
Proof.
  rewrite check_weight_outliers_flat, list_elem_of_In, in_flat_map.
  intros ([s line] & _ & Ha). simpl in Ha.
  pose proof (weight_outlier_line_report str_lower s line) as Hrep.
  destruct (is_weight_outlier str_lower line).
  - destruct Hrep as (a' & Heq & Ht & Hs & _). rewrite Heq in Ha.
    by destruct Ha as [<-|[]].
  - by rewrite Hrep in Ha.
Qed.

Lemma check_double_counts_present shipments awb :
  duplicated awb shipments →
  ∃ a, a ∈ check_double_counts_with str_lower shipments
       ∧ (Anomaly.severity a = ERROR ↔ repeated_line str_lower awb shipments).
Proof.
  intros [Hne Hlt].
  pose proof (anomalies_about_count str_lower shipments awb) as Habout.
  rewrite decide_False in Habout by done.
  destruct (double_count_item_cases str_lower shipments awb
              (awb_count awb shipments))
    as [[Hle _]|[_ (a & Hone & _ & _ & _ & Hsev & _)]]; [lia|].
  rewrite Hone in Habout. exists a. split; [|done].
  assert (In a (anomalies_about awb
                  (check_double_counts_with str_lower shipments))) as Hin
    by (rewrite Habout; by left).
  apply filter_In in Hin as [Hin _]. by apply list_elem_of_In.
Qed.

Lemma check_double_counts_nil_iff shipments :
  check_double_counts_with str_lower shipments = []
  ↔ ∀ awb, ¬ duplicated awb shipments.
Proof.
  split.
  - intros Hnil awb (a & Ha & _)%check_double_counts_present.
    rewrite Hnil in Ha. by apply elem_of_nil in Ha.
  - intros Hnone.
    destruct (check_double_counts_with str_lower shipments)
      as [|a rest] eqn:Hres; [done|].
    assert (a ∈ check_double_counts_with str_lower shipments) as Ha
      by (rewrite Hres; apply list_elem_of_here).
    apply check_double_counts_elem in Ha as (awb & Hdup & _).
    by destruct (Hnone awb).
Qed.

Lemma check_awb_consistency_nil_iff shipments :
  check_awb_consistency shipments = []
  ↔ Forall (λ s, accepted_awb (Shipment.awb s)) shipments.
Proof.
  rewrite check_awb_consistency_flat, flat_map_nil_iff.
  apply Forall_iff. intros s. apply awb_anomalies_accepted.
Qed.

Lemma check_weight_outliers_nil_iff shipments :
  check_weight_outliers_with str_lower shipments = []
  ↔ Forall (λ line, is_weight_outlier str_lower line = false)
      (payload_lines shipments).
Proof.
  rewrite check_weight_outliers_flat, flat_map_nil_iff.
  unfold shipment_lines, payload_lines.
  induction shipments as [|s ss IH]; simpl; [by split|].
  rewrite !Forall_app, IH. apply and_iff_compat_r.
  induction (Shipment.lines s) as [|line ls IHl]; simpl; [by split|].
  rewrite !Forall_cons, IHl. apply and_iff_compat_r. simpl.
  pose proof (weight_outlier_line_report str_lower s line) as Hrep.
  destruct (is_weight_outlier str_lower line); [|by split].
  destruct Hrep as (a & -> & _). by split.
Qed.

Lemma check_missing_paperwork_nil_iff emails shipments :
  check_missing_paperwork emails shipments = []
  ↔ Forall
      (λ email,
         Forall (λ awb, covered shipments awb = true)
           (extract_awbs (scanned_text email)))
      emails.
Proof.
  rewrite missing_paperwork_uncovered, flat_map_nil_iff.
  apply Forall_iff. intros email. split.
  - intros Hnil%map_eq_nil%filter_nil_iff.
    eapply Forall_impl; [exact Hnil|]. intros awb Hc. simpl in Hc.
    by destruct (covered shipments awb).
  - intros Hall.
    enough (List.filter (λ awb, negb (covered shipments awb))
              (extract_awbs (scanned_text email)) = []) as -> by done.
    apply filter_nil_iff. eapply Forall_impl; [exact Hall|].
    by intros awb ->.
Qed.

(** X5: [run_all_checks] reports an anomaly of severity ERROR exactly when
    some shipment has the sentinel AWB or some AWB is shared by several
    shipments among whose lines a (lowercased customer, lowercased species)
    pair repeats; the emails play no part. This holds whatever [str.lower]
    does to a name. Two shipments under one AWB whose lines differ in letter
    case only give an ERROR. *)
Theorem run_all_checks_errors (emails : list EmailDetail.t)
    (shipments : list Shipment.t) :
  ((∃ a, a ∈ run_all_checks_with str_lower emails shipments
         ∧ Anomaly.severity a = ERROR)
   ↔ (∃ s, s ∈ shipments ∧ Shipment.awb s = "MISSING")
     ∨ (∃ awb, duplicated awb shipments
               ∧ repeated_line str_lower awb shipments))
  ∧ map Anomaly.severity (run_all_checks [] recased_shipments) = [ERROR].
Proof.
  split; [|by vm_compute]. split.
  - intros (a & Ha & Hsev).
    apply run_all_checks_elem in Ha as [Ha|[Ha|[Ha|Ha]]].
    + apply check_double_counts_elem in Ha
        as (awb & Hdup & _ & _ & _ & Herr & _).
      right. exists awb. split; [done|by apply Herr].
    + apply check_missing_paperwork_elem in Ha as [_ Hw]. congruence.
    + apply check_awb_consistency_elem in Ha as (s & Hs & Ha).
      apply awb_anomalies_elem in Ha as [(Hm & _)|(_ & _ & Hw)];
        [|congruence].
      left. by exists s.
    + apply check_weight_outliers_elem in Ha as [_ Hw]. congruence.
  - intros [(s & Hs & Hm)|(awb & Hdup & Hrep)].
    + exists (Anomaly.mk MISSING_AWB ERROR
                (NoAwb (Shipment.supplier s) (Shipment.date s)) None
                (Shipment.source_email_ids s)).
      split; [|done]. apply run_all_checks_elem. right. right. left.
      apply check_awb_consistency_elem. exists s. split; [done|].
      unfold awb_anomalies. rewrite Hm. apply list_elem_of_here.
    + apply check_double_counts_present in Hdup as (a & Ha & Herr).
      exists a. split; [|by apply Herr].
      apply run_all_checks_elem. by left.
Qed.

(** X6: on ASCII emails and AWBs, [run_all_checks] returns no anomaly
    exactly on clean input: no AWB other than the sentinel is shared by two
    shipments, every AWB is eleven digits (one final newline being let
    through), no line is a weight outlier, and every AWB mentioned in an
    email is carried by a shipment. This holds whatever [str.lower] does to
    a species. *)
Theorem run_all_checks_silent (emails : list EmailDetail.t)
    (shipments : list Shipment.t) :
  ascii_emails emails → ascii_awbs shipments →
  run_all_checks_with str_lower emails shipments = []
  ↔ (∀ awb, ¬ duplicated awb shipments)
    ∧ Forall (λ s, accepted_awb (Shipment.awb s)) shipments
    ∧ Forall (λ line, is_weight_outlier str_lower line = false)
        (payload_lines shipments)
    ∧ Forall
        (λ email,
           Forall (λ awb, covered shipments awb = true)
             (extract_awbs (scanned_text email)))
        emails.
Proof.
  intros _ _.
  rewrite <- check_double_counts_nil_iff, <- check_awb_consistency_nil_iff,
    <- check_weight_outliers_nil_iff,
    <- (check_missing_paperwork_nil_iff emails shipments).
  unfold run_all_checks_with. cbn zeta. rewrite app_nil_l. split.
  - intros [[[? ?]%app_eq_nil ?]%app_eq_nil ?]%app_eq_nil. tauto.
  - by intros (-> & -> & -> & ->).
Qed.

End MoreChecks.

(** X6 on the dry run and an email that mentions its first AWB. *)
Lemma run_all_checks_silent_witness :
  ascii_emails [mention_email]
  ∧ ascii_awbs dry_run_shipments
  ∧ (run_all_checks [mention_email] dry_run_shipments = []
     ↔ (∀ awb, ¬ duplicated awb dry_run_shipments)
       ∧ Forall (λ s, accepted_awb (Shipment.awb s)) dry_run_shipments
       ∧ Forall (λ line, is_weight_outlier lower line = false)
           (payload_lines dry_run_shipments)
       ∧ Forall
           (λ email,
              Forall (λ awb, covered dry_run_shipments awb = true)
                (extract_awbs (scanned_text email)))
           [mention_email]).
Proof.
  assert (ascii_emails [mention_email]) as He by (repeat constructor).
  assert (ascii_awbs dry_run_shipments) as Hs by (repeat constructor).
  do 2 (split; [done|]).
  exact (run_all_checks_silent lower _ _ He Hs).
Defined.

(** X4: every anomaly of [run_all_checks] is a DOUBLE_COUNT, a
    MISSING_PAPERWORK warning, an AWB_MISMATCH warning, a WEIGHT_OUTLIER
    warning or a MISSING_AWB error; the detector never produces
    MISSING_DATA. *)
Theorem run_all_checks_kinds (emails : list EmailDetail.t)
    (shipments : list Shipment.t) :
  Forall detector_kind (run_all_checks emails shipments).
Proof.
  apply Forall_forall. intros a Ha. unfold detector_kind.
  apply run_all_checks_elem in Ha as [Ha|[Ha|[Ha|Ha]]].
  - apply check_double_counts_elem in Ha as (_ & _ & -> & _). done.
  - apply check_missing_paperwork_elem in Ha as [-> ->]. done.
  - apply check_awb_consistency_elem in Ha as (s & _ & Ha).
    by apply awb_anomalies_elem in Ha as [(_ & -> & ->)|(_ & -> & ->)].
  - apply check_weight_outliers_elem in Ha as [-> ->]. done.
Qed.

(* ===================================================================== *)
(** * More on [check_awb_consistency] *)
(* ===================================================================== *)

Lemma is_accepted_awb_true awb :
  is_accepted_awb awb = true ↔ accepted_awb awb.
Proof.
  unfold is_accepted_awb, accepted_awb, eleven_digits.
  rewrite !digits_only_all_digits. setoid_rewrite digits_only_all_digits.
  split.
  - rewrite orb_true_iff, !andb_true_iff, !Nat.eqb_eq.
    intros [[Hlen Hd]|[[Hlen [Hlen' Hd]] Hnl%String.eqb_eq]].
    + exists awb. by repeat split; [..|left].
    + exists (substring 0 11 awb). do 2 (split; [done|]). right.
      do 13 (destruct awb as [|? awb]; try done).
      simpl in Hnl. injection Hnl as ->. done.
  - intros (g & Hlen & Hd & [->| ->]).
    + by rewrite Hlen, Hd.
    + do 12 (destruct g as [|? g]; try done).
      simpl in Hd |- *. by rewrite Hd.
Qed.

Lemma awb_anomalies_report s :
  if negb (is_accepted_awb (Shipment.awb s))
  then ∃ a, awb_anomalies s = [a] ∧ awb_report s a
  else awb_anomalies s = [].
Proof.
  destruct (is_accepted_awb (Shipment.awb s)) eqn:Hacc; simpl.
  - by apply awb_anomalies_accepted, is_accepted_awb_true.
  - destruct (check_awb_consistency_per_shipment s)
      as [(Hm & a & Ha & _)|[(Hne & Hno & a & Ha & _)|(_ & _ & Hnil)]].
    + exists a. split; [done|]. unfold awb_anomalies in Ha.
      rewrite Hm in Ha. simpl in Ha. injection Ha as <-.
      split; [done|]. left. by rewrite Hm.
    + exists a. split; [done|]. unfold awb_anomalies in Ha.
      rewrite Hno in Ha.
      destruct (String.eqb_spec (Shipment.awb s) "MISSING"); [done|].
      injection Ha as <-. split; [done|]. by right.
    + apply awb_anomalies_accepted, is_accepted_awb_true in Hnil.
      congruence.
Qed.

(** X7: on ASCII AWBs, [check_awb_consistency] reports, in shipment order
    and once each, exactly the shipments whose AWB is not eleven digits, one
    final newline being let through: MISSING_AWB, an error without related
    AWB, for the sentinel, and AWB_MISMATCH, a warning about the AWB, for any
    other; each report carries the source email ids of its shipment. *)
Theorem check_awb_consistency_exact (shipments : list Shipment.t) :
  ascii_awbs shipments →
  Forall2 awb_report
    (List.filter (λ s, negb (is_accepted_awb (Shipment.awb s))) shipments)
    (check_awb_consistency shipments)
  ∧ (∀ awb, is_accepted_awb awb = true ↔ accepted_awb awb).
Proof.
  intros _. split; [|apply is_accepted_awb_true].
  rewrite check_awb_consistency_flat.
  apply Forall2_filter_flat_map. intros s. apply awb_anomalies_report.
Qed.

(** X7 on four shipments: no AWB, a hyphenated one, eleven digits, and
    eleven digits with a final newline. *)
Lemma check_awb_consistency_exact_witness :
  ascii_awbs assorted_shipments
  ∧ Forall2 awb_report
      (List.filter (λ s, negb (is_accepted_awb (Shipment.awb s)))
         assorted_shipments)
      (check_awb_consistency assorted_shipments)
  ∧ (∀ awb, is_accepted_awb awb = true ↔ accepted_awb awb).
Proof.
  assert (ascii_awbs assorted_shipments) as Hs by (repeat constructor).
  split; [exact Hs|].
  exact (check_awb_consistency_exact assorted_shipments Hs).
Defined.

(* ===================================================================== *)
(** * More on [compute_totals] *)
(* ===================================================================== *)

Lemma sum_boxes_from ls :
  ∀ a, fold_left (λ acc l, acc + boxes_of l) ls a = a + sum_boxes ls.
Proof.
  unfold sum_boxes.
  induction ls as [|l ls IH]; intros a; simpl; [lia|].
  rewrite IH, (IH (0 + boxes_of l)). lia.
Qed.

Lemma sum_boxes_cons l ls : sum_boxes (l :: ls) = boxes_of l + sum_boxes ls.
Proof. unfold sum_boxes at 1. simpl. apply sum_boxes_from. Qed.

Lemma sum_boxes_app ls ls' :
  sum_boxes (ls ++ ls') = sum_boxes ls + sum_boxes ls'.
Proof.
  induction ls as [|l ls IH]; simpl; [done|].
  rewrite !sum_boxes_cons, IH. lia.
Qed.

Lemma sum_boxes_Permutation ls ls' :
  Permutation ls ls' → sum_boxes ls = sum_boxes ls'.
Proof.
  induction 1 as [|l ls ls' _ IH|l l' ls|ls ls' ls'' _ IH1 _ IH2].
  - done.
  - by rewrite !sum_boxes_cons, IH.
  - rewrite !sum_boxes_cons. lia.
  - by rewrite IH1.
Qed.

Lemma filter_Permutation_bool {A : Type} (p : A → bool) (l l' : list A) :
  Permutation l l' → Permutation (List.filter p l) (List.filter p l').
Proof.
  induction 1 as [|a l l' _ IH|a b l|l l' l'' _ IH1 _ IH2]; simpl.
  - done.
  - destruct (p a); [by constructor|done].
  - destruct (p a), (p b); try done. apply perm_swap.
  - by etrans.
Qed.

Lemma totals_of_lookup shipments :
  let ls := payload_lines shipments in
  ShipmentTotals.total_boxes (totals_of shipments) = sum_boxes ls
  ∧ (∀ k, ShipmentTotals.species_breakdown (totals_of shipments) !! k
          = species_total (species_group k ls))
  ∧ (∀ k, ShipmentTotals.customer_breakdown (totals_of shipments) !! k
          = customer_total (customer_group k ls)).
Proof.
  intros ls. destruct (accumulated_loop ls) as (Hb & _ & Hs & Hc).
  unfold totals_of, compute_totals. simpl. rewrite totals_loop_flat.
  by repeat split.
Qed.

Lemma species_total_boxes_Permutation g g' :
  Permutation g g' →
  SpeciesTotal.boxes <$> species_total g
  = SpeciesTotal.boxes <$> species_total g'.
Proof.
  intros Hp. pose proof (sum_boxes_Permutation _ _ Hp) as Hsum.
  destruct g as [|l g], g' as [|l' g']; simpl; try done.
  - by apply Permutation_nil_cons in Hp.
  - symmetry in Hp. by apply Permutation_nil_cons in Hp.
  - by rewrite Hsum.
Qed.

Lemma customer_total_counts_Permutation g g' :
  Permutation g g' →
  (λ ct, (CustomerTotal.boxes ct, CustomerTotal.order_count ct))
    <$> customer_total g
  = (λ ct, (CustomerTotal.boxes ct, CustomerTotal.order_count ct))
    <$> customer_total g'.
Proof.
  intros Hp. pose proof (sum_boxes_Permutation _ _ Hp) as Hsum.
  pose proof (Permutation_length Hp) as Hlen.
  destruct g as [|l g], g' as [|l' g']; simpl; try done.
  simpl in Hlen. by rewrite Hsum, Hlen.
Qed.

(** X8: the integer totals do not depend on the order of the lines: two
    shipment lists with the same lines in any order and grouping get the
    same [total_boxes], the same box count under every species and the same
    box count and [order_count] under every customer. The weights do depend
    on it: the floating-point sums of 0.1, 0.2 and 0.3 lbs taken in the two
    directions differ. *)
Theorem integer_totals_order_independent :
  (∀ shipments shipments',
     Permutation (payload_lines shipments) (payload_lines shipments') →
     ShipmentTotals.total_boxes (totals_of shipments)
     = ShipmentTotals.total_boxes (totals_of shipments')
     ∧ (∀ k, SpeciesTotal.boxes
               <$> ShipmentTotals.species_breakdown (totals_of shipments) !! k
             = SpeciesTotal.boxes
                 <$> ShipmentTotals.species_breakdown (totals_of shipments')
                       !! k)
     ∧ (∀ k, (λ ct, (CustomerTotal.boxes ct, CustomerTotal.order_count ct))
               <$> ShipmentTotals.customer_breakdown (totals_of shipments)
                     !! k
             = (λ ct, (CustomerTotal.boxes ct, CustomerTotal.order_count ct))
                 <$> ShipmentTotals.customer_breakdown (totals_of shipments')
                       !! k))
  ∧ Permutation ascending_shipments descending_shipments
  ∧ ShipmentTotals.total_weight_lbs (totals_of ascending_shipments)
    = 0x1.3333333333334p-1%float
  ∧ ShipmentTotals.total_weight_lbs (totals_of descending_shipments)
    = 0x1.3333333333333p-1%float.
Proof.
  split; [|split; [|by vm_compute]].
  - intros ss ss' Hp.
    destruct (totals_of_lookup ss) as (-> & Hs & Hc).
    destruct (totals_of_lookup ss') as (-> & Hs' & Hc').
    split; [by apply sum_boxes_Permutation|]. split; intros k.
    + rewrite Hs, Hs'. apply species_total_boxes_Permutation.
      by apply filter_Permutation_bool.
    + rewrite Hc, Hc'. apply customer_total_counts_Permutation.
      by apply filter_Permutation_bool.
  - unfold ascending_shipments, descending_shipments.
    etrans; [apply perm_swap|]. etrans; [apply perm_skip, perm_swap|].
    apply perm_swap.
Qed.

(** X8 on two shipments taken in either order. *)
Lemma integer_totals_order_independent_witness :
  Permutation (payload_lines ascending_shipments)
    (payload_lines descending_shipments)
  ∧ ShipmentTotals.total_boxes (totals_of ascending_shipments)
    = ShipmentTotals.total_boxes (totals_of descending_shipments).
Proof.
  assert (Permutation (payload_lines ascending_shipments)
            (payload_lines descending_shipments)) as Hp.
  { cbn. etrans; [apply perm_swap|]. etrans; [apply perm_skip, perm_swap|].
    apply perm_swap. }
  split; [exact Hp|].
  exact (proj1 (proj1 integer_totals_order_independent _ _ Hp)).
Defined.

Lemma sum_boxes_filter_le (p : ShipmentLine.t → bool) ls :
  Forall (λ l, 0 ≤ boxes_of l) ls →
  0 ≤ sum_boxes (List.filter p ls) ≤ sum_boxes ls.
Proof.
  induction 1 as [|l ls Hl _ IH]; simpl; [done|].
  destruct (p l); rewrite !sum_boxes_cons; lia.
Qed.

(** X9: when no line has a negative box count, no bucket does: the box
    count under every species and under every customer lies between zero
    and [total_boxes]. *)
Theorem bucket_boxes_bounded (shipments : list Shipment.t) :
  Forall (λ line, 0 ≤ boxes_of line) (payload_lines shipments) →
  (∀ k sp,
     ShipmentTotals.species_breakdown (totals_of shipments) !! k = Some sp →
     0 ≤ SpeciesTotal.boxes sp
       ≤ ShipmentTotals.total_boxes (totals_of shipments))
  ∧ (∀ k ct,
       ShipmentTotals.customer_breakdown (totals_of shipments) !! k
       = Some ct →
       0 ≤ CustomerTotal.boxes ct
         ≤ ShipmentTotals.total_boxes (totals_of shipments)).
Proof.
  intros Hpos. destruct (totals_of_lookup shipments) as (-> & Hs & Hc).
  split; intros k t; [rewrite Hs|rewrite Hc].
  - unfold species_group.
    pose proof (sum_boxes_filter_le
      (λ l, String.eqb (ShipmentLine.species l) k) _ Hpos) as Hle.
    destruct (List.filter _ _); [done|]. by intros [= <-].
  - unfold customer_group.
    pose proof (sum_boxes_filter_le
      (λ l, String.eqb (customer_key l) k) _ Hpos) as Hle.
    destruct (List.filter _ _); [done|]. by intros [= <-].
Qed.

(** X9 on the shipments of the dry run. *)
Lemma bucket_boxes_bounded_witness :
  Forall (λ line, 0 ≤ boxes_of line) (payload_lines dry_run_shipments)
  ∧ (∀ k sp,
       ShipmentTotals.species_breakdown (totals_of dry_run_shipments) !! k
       = Some sp →
       0 ≤ SpeciesTotal.boxes sp
         ≤ ShipmentTotals.total_boxes (totals_of dry_run_shipments)).
Proof.
  assert (Forall (λ line, 0 ≤ boxes_of line)
            (payload_lines dry_run_shipments)) as Hpos
    by (repeat constructor; by vm_compute).
  split; [exact Hpos|].
  exact (proj1 (bucket_boxes_bounded dry_run_shipments Hpos)).
Defined.

(* ===================================================================== *)
(** * The mention scanners *)
(* ===================================================================== *)

Section Mentions.

Local Arguments String.append !_ _ / : simpl nomatch.

Lemma prefix_append (needle hay : string) :
  String.prefix needle hay = true ↔ ∃ post, hay = needle +:+ post.
Proof.
  revert hay. induction needle as [|c needle IH]; intros hay.
  - split; [intros _; by exists hay|]. intros _. by destruct hay.
  - destruct hay as [|d hay]; simpl.
    + split; [done|]. by intros [post [=]].
    + destruct (ascii_dec c d) as [->|Hne].
      * rewrite IH. split; intros [post Hpost]; exists post.
        -- by rewrite Hpost.
        -- by injection Hpost.
      * split; [done|]. intros [post [= ? _]]. done.
Qed.

(** [in] finds exactly the contiguous substrings. *)
Lemma str_in_occurs (needle hay : string) :
  str_in needle hay = true ↔ occurs_in needle hay.
Proof.
  unfold occurs_in. induction hay as [|d hay IH]; cbn [str_in].
  - rewrite orb_false_r, prefix_append. split.
    + intros [post ->]. by exists "", post.
    + intros ([|? ?] & post & Heq); [by exists post|done].
  - rewrite orb_true_iff, IH, prefix_append. split.
    + intros [[post ->]|(pre & post & ->)].
      * by exists "", post.
      * by exists (String d pre), post.
    + intros ([|e pre] & post & Heq).
      * left. by exists post.
      * right. injection Heq as -> ->. by exists pre, post.
Qed.

Lemma occurs_in_trans (a b c : string) :
  occurs_in a b → occurs_in b c → occurs_in a c.
Proof.
  intros (pre & post & ->) (pre' & post' & ->).
  exists (pre' +:+ pre), (post +:+ post'). by rewrite !append_assoc.
Qed.

(** ** [extract_species_mentions] *)

Lemma extract_species_mentions_filter (str_lower : string → string) text :
  extract_species_mentions_with str_lower text
  = List.filter (λ species, str_in species (str_lower text)) KNOWN_SPECIES.
Proof.
  unfold extract_species_mentions_with. cbn zeta.
  generalize KNOWN_SPECIES. intros l.
  rewrite (fold_left_append _
    (λ species, if str_in species (str_lower text) then [species] else [])).
  - rewrite app_nil_l.
    induction l as [|sp l IH]; [done|]. cbn [flat_map List.filter].
    rewrite IH. by destruct (str_in sp (str_lower text)).
  - intros acc sp. destruct (str_in sp (str_lower text)); [done|].
    by rewrite app_nil_r.
Qed.

Lemma NoDup_KNOWN_SPECIES : NoDup KNOWN_SPECIES.
Proof. apply (bool_decide_unpack _). by vm_compute. Qed.

Lemma NoDup_filter_bool {A : Type} (p : A → bool) (l : list A) :
  NoDup l → NoDup (List.filter p l).
Proof.
  induction 1 as [|a l Ha _ IH]; simpl; [constructor|].
  destruct (p a); [|done]. constructor; [|done].
  rewrite list_elem_of_In, filter_In, <- list_elem_of_In. tauto.
Qed.

(** X10: [extract_species_mentions] returns the species of the vocabulary
    that occur in the lowercased text as contiguous substrings, each once
    and in vocabulary order, whatever [str.lower] does to the text. A text
    that names swordfish in capitals and red snapper with initials is
    reported for swordfish, snapper and red snapper. *)
Theorem extract_species_mentions_exact (str_lower : string → string)
    (text : string) :
  sublist (extract_species_mentions_with str_lower text) KNOWN_SPECIES
  ∧ NoDup (extract_species_mentions_with str_lower text)
  ∧ (∀ species,
       species ∈ extract_species_mentions_with str_lower text
       ↔ species ∈ KNOWN_SPECIES ∧ occurs_in species (str_lower text))
  ∧ extract_species_mentions "Fresh SWORDFISH and Red Snapper"
    = ["swordfish"; "snapper"; "red snapper"].
Proof.
  rewrite extract_species_mentions_filter.
  split; [|split; [|split; [|by vm_compute]]].
  - generalize KNOWN_SPECIES. intros l.
    induction l as [|sp l IH]; simpl; [constructor|].
    destruct (str_in sp (str_lower text)); by constructor.
  - apply NoDup_filter_bool, NoDup_KNOWN_SPECIES.
  - intros species.
    rewrite !list_elem_of_In, filter_In, str_in_occurs. done.
Qed.

(** X11: the species mentions are closed under containment: when a
    reported species contains another species of the vocabulary, that one
    is reported too, so a mention of red snapper is also a mention of
    snapper. *)
Theorem extract_species_mentions_closed (text inner outer : string) :
  outer ∈ extract_species_mentions text →
  inner ∈ KNOWN_SPECIES →
  occurs_in inner outer →
  inner ∈ extract_species_mentions text.
Proof.
  unfold extract_species_mentions.
  rewrite extract_species_mentions_filter, !list_elem_of_In, !filter_In.
  intros [_ Houter%str_in_occurs] Hin Hocc. split; [done|].
  apply str_in_occurs. by eapply occurs_in_trans.
Qed.

(** X11 on a text that mentions red snapper. *)
Lemma extract_species_mentions_closed_witness :
  "red snapper" ∈ extract_species_mentions "10 boxes Red Snapper"
  ∧ "snapper" ∈ KNOWN_SPECIES
  ∧ occurs_in "snapper" "red snapper"
  ∧ "snapper" ∈ extract_species_mentions "10 boxes Red Snapper".
Proof.
  assert ("red snapper" ∈ extract_species_mentions "10 boxes Red Snapper")
    as Houter by (vm_compute; repeat constructor).
  assert ("snapper" ∈ KNOWN_SPECIES) as Hin
    by (vm_compute; repeat constructor).
  assert (occurs_in "snapper" "red snapper") as Hocc
    by (by exists "red ", "").
  do 3 (split; [done|]).
  exact (extract_species_mentions_closed _ _ _ Houter Hin Hocc).
Defined.

(** ** [extract_customer_mentions] *)

Lemma customer_fold_scan text_lower items :
  ∀ found seen,
    fst (fold_left (customer_mention_step text_lower) items (found, seen))
    = found ++ customer_scan text_lower seen items.
Proof.
  induction items as [|[contact company] items IH]; intros found seen.
  - by rewrite app_nil_r.
  - cbn [fold_left customer_scan customer_mention_step].
    destruct (_ && _)%bool; rewrite IH; [|done].
    by rewrite <- app_assoc.
Qed.

Lemma extract_customer_mentions_scan (str_lower : string → string) text :
  extract_customer_mentions_with str_lower text
  = customer_scan (str_lower text) ∅ KNOWN_CUSTOMERS.
Proof. unfold extract_customer_mentions_with. apply customer_fold_scan. Qed.

Lemma customer_scan_sublist text_lower items :
  ∀ seen, sublist (customer_scan text_lower seen items) items.
Proof.
  induction items as [|[contact company] items IH]; intros seen; simpl.
  - constructor.
  - destruct (_ && _)%bool; constructor; apply IH.
Qed.

(** An item is reported when its contact occurs in the text and no earlier
    item of the same company does, the company not being seen already. *)
Lemma customer_scan_elem text_lower items :
  ∀ seen contact company,
    (contact, company) ∈ customer_scan text_lower seen items
    ↔ ∃ before after,
        items = before ++ (contact, company) :: after
        ∧ occurs_in contact text_lower
        ∧ (company ∉ seen)
        ∧ Forall (λ item, snd item = company
                          → ¬ occurs_in (fst item) text_lower) before.
Proof.
  induction items as [|[c1 co1] items IH]; intros seen contact company.
  - simpl. split; [by intros ?%elem_of_nil|].
    by intros ([|? ?] & after & ? & _).
  - cbn [customer_scan].
    destruct (str_in c1 text_lower) eqn:Hocc;
      [destruct (decide (co1 ∈ seen)) as [Hseen|Hseen]|]; simpl.
    + (* the company was seen already *)
      rewrite bool_decide_eq_true_2 by done. simpl. rewrite IH. split.
      * intros (before & after & -> & Hc & Hns & Hall).
        exists ((c1, co1) :: before), after. do 3 (split; [done|]).
        constructor; [|done]. simpl. intros ->. done.
      * intros ([|item before] & after & Heq & Hc & Hns & Hall).
        -- injection Heq as -> -> ->. done.
        -- injection Heq as <- ->. apply Forall_cons in Hall as [_ Hall].
           by exists before, after.
    + (* the item is reported *)
      rewrite bool_decide_eq_false_2 by done. simpl.
      rewrite elem_of_cons, IH. split.
      * intros [[= -> ->]|(before & after & -> & Hc & Hns & Hall)].
        -- exists [], items. split; [done|].
           split; [by apply str_in_occurs|]. by split.
        -- apply not_elem_of_union in Hns as [Hns Hne].
           exists ((c1, co1) :: before), after. do 3 (split; [done|]).
           constructor; [|done]. simpl. intros ->.
           destruct Hne. by apply elem_of_singleton.
      * intros ([|item before] & after & Heq & Hc & Hns & Hall).
        -- injection Heq as -> -> ->. by left.
        -- injection Heq as <- ->. apply Forall_cons in Hall as [Hhd Hall].
           right. exists before, after. do 2 (split; [done|]).
           split; [|done]. apply not_elem_of_union. split; [done|].
           intros ->%elem_of_singleton. simpl in Hhd.
           by apply Hhd, str_in_occurs.
    + (* the contact does not occur *)
      rewrite IH. split.
      * intros (before & after & -> & Hc & Hns & Hall).
        exists ((c1, co1) :: before), after. do 3 (split; [done|]).
        constructor; [|done]. simpl. intros _ Hc1%str_in_occurs. congruence.
      * intros ([|item before] & after & Heq & Hc & Hns & Hall).
        -- injection Heq as -> -> ->. apply str_in_occurs in Hc. congruence.
        -- injection Heq as <- ->. apply Forall_cons in Hall as [_ Hall].
           by exists before, after.
Qed.

(** A company is reported when it was not seen and one of its contacts
    occurs in the text. *)
Lemma customer_scan_company text_lower items :
  ∀ seen company,
    company ∈ map snd (customer_scan text_lower seen items)
    ↔ (company ∉ seen)
      ∧ ∃ contact, (contact, company) ∈ items
                   ∧ occurs_in contact text_lower.
Proof.
  induction items as [|[c1 co1] items IH]; intros seen company.
  - simpl. split; [by intros ?%elem_of_nil|].
    by intros (_ & contact & ?%elem_of_nil & _).
  - cbn [customer_scan].
    destruct (str_in c1 text_lower) eqn:Hocc;
      [destruct (decide (co1 ∈ seen)) as [Hseen|Hseen]|]; simpl.
    + rewrite bool_decide_eq_true_2 by done. simpl. rewrite IH. split.
      * intros (Hns & contact & Hin & Hc). split; [done|]. exists contact.
        split; [by apply list_elem_of_further|done].
      * intros (Hns & contact & [[= -> ->]|Hin]%elem_of_cons & Hc);
          [done|].
        split; [done|]. by exists contact.
    + rewrite bool_decide_eq_false_2 by done. simpl.
      rewrite elem_of_cons, IH, not_elem_of_union, not_elem_of_singleton.
      split.
      * intros [->|((Hns & Hne) & contact & Hin & Hc)].
        -- split; [done|]. exists c1.
           split; [apply list_elem_of_here|by apply str_in_occurs].
        -- split; [done|]. exists contact.
           split; [by apply list_elem_of_further|done].
      * intros (Hns & contact & [[= -> ->]|Hin]%elem_of_cons & Hc);
          [by left|].
        destruct (decide (company = co1)) as [->|Hne]; [by left|right].
        split; [done|]. by exists contact.
    + rewrite IH. split.
      * intros (Hns & contact & Hin & Hc). split; [done|]. exists contact.
        split; [by apply list_elem_of_further|done].
      * intros (Hns & contact & [[= -> ->]|Hin]%elem_of_cons & Hc).
        -- apply str_in_occurs in Hc. congruence.
        -- split; [done|]. by exists contact.
Qed.

Lemma customer_scan_NoDup text_lower items :
  ∀ seen, NoDup (map snd (customer_scan text_lower seen items)).
Proof.
  induction items as [|[c1 co1] items IH]; intros seen; simpl.
  - constructor.
  - destruct (_ && _)%bool; [|apply IH]. simpl.
    constructor; [|apply IH].
    rewrite customer_scan_company, not_elem_of_union, not_elem_of_singleton.
    tauto.
Qed.

(** X12: [extract_customer_mentions] reports the items of the customer
    table whose contact occurs in the lowercased text as a contiguous
    substring, in table order, at most one per company: of the contacts of a
    company that occur, only the first in table order. A company is reported
    exactly when one of its contacts occurs. This holds whatever [str.lower]
    does to the text. A text that names MARK, Bob and mike is reported for
    mark and, of the two contacts of BST Seafood, for mike only. *)
Theorem extract_customer_mentions_exact (str_lower : string → string)
    (text : string) :
  sublist (extract_customer_mentions_with str_lower text) KNOWN_CUSTOMERS
  ∧ NoDup (map snd (extract_customer_mentions_with str_lower text))
  ∧ (∀ contact company,
       (contact, company) ∈ extract_customer_mentions_with str_lower text
       ↔ ∃ before after,
           KNOWN_CUSTOMERS = before ++ (contact, company) :: after
           ∧ occurs_in contact (str_lower text)
           ∧ Forall (λ item, snd item = company
                             → ¬ occurs_in (fst item) (str_lower text))
               before)
  ∧ (∀ company,
       company ∈ map snd (extract_customer_mentions_with str_lower text)
       ↔ ∃ contact, (contact, company) ∈ KNOWN_CUSTOMERS
                    ∧ occurs_in contact (str_lower text))
  ∧ extract_customer_mentions "MARK, Bob and mike"
    = [("mark", "Mark's Seafood"); ("mike", "BST Seafood")].
Proof.
  rewrite extract_customer_mentions_scan.
  split; [apply customer_scan_sublist|].
  split; [apply customer_scan_NoDup|].
  split; [|split; [|by vm_compute]].
  - intros contact company. rewrite customer_scan_elem.
    split; intros (before & after & Heq & Hrest); exists before, after.
    + tauto.
    + split; [done|]. split; [tauto|]. split; [apply not_elem_of_empty|tauto].
  - intros company. rewrite customer_scan_company.
    split; [tauto|]. intros H. split; [apply not_elem_of_empty|done].
Qed.

(** X13: the contacts are matched inside words: every text that contains
    the word customer, in any letter case, reports the contact tom of
    Emerald Seafood. *)
Theorem extract_customer_mentions_inside_words (text : string) :
  occurs_in "customer" (lower text) →
  ("tom", "Emerald Seafood") ∈ extract_customer_mentions text.
Proof.
  intros Hocc. unfold extract_customer_mentions.
  rewrite extract_customer_mentions_scan, customer_scan_elem.
  exists (take 10 KNOWN_CUSTOMERS), (drop 11 KNOWN_CUSTOMERS).
  split; [done|]. split; [|split; [apply not_elem_of_empty|]].
  - eapply occurs_in_trans; [|exact Hocc]. by exists "cus", "er".
  - repeat constructor; by intros [=].
Qed.

(** X13 on a text that names no contact. *)
Lemma extract_customer_mentions_inside_words_witness :
  occurs_in "customer" (lower "Customer list attached")
  ∧ ("tom", "Emerald Seafood")
    ∈ extract_customer_mentions "Customer list attached".
Proof.
  assert (occurs_in "customer" (lower "Customer list attached")) as Hocc
    by (by exists "", " list attached").
  split; [exact Hocc|].
  exact (extract_customer_mentions_inside_words _ Hocc).
Defined.
End Mentions.

(* ===================================================================== *)
(** * Box counts *)
(* ===================================================================== *)

Section BoxCounts.

Local Arguments String.append !_ _ / : simpl nomatch.

(** ** Strings *)

Lemma all_in_append p (a b : string) :
  all_in p (a +:+ b) = (all_in p a && all_in p b)%bool.
Proof.
  induction a as [|c a IH]; simpl; [done|]. by rewrite IH, andb_assoc.
Qed.

Lemma prev_after_append prev (a b : string) :
  prev_after prev (a +:+ b) = prev_after (prev_after prev a) b.
Proof. revert prev. induction a as [|c a IH]; intros prev; simpl; auto. Qed.

Lemma lower_append (a b : string) : lower (a +:+ b) = lower a +:+ lower b.
Proof. induction a as [|c a IH]; simpl; [done|]. by rewrite IH. Qed.

Lemma lower_length (a : string) : String.length (lower a) = String.length a.
Proof. induction a as [|c a IH]; simpl; [done|]. by rewrite IH. Qed.

(** Checked on each of the 256 characters. *)
Lemma lower_ascii_idemp c : lower_ascii (lower_ascii c) = lower_ascii c.
Proof. destruct c as [[] [] [] [] [] [] [] []]; by vm_compute. Qed.

Lemma lower_idemp (a : string) : lower (lower a) = lower a.
Proof.
  induction a as [|c a IH]; simpl; [done|]. by rewrite IH, lower_ascii_idemp.
Qed.

(** ** The matcher finds only matches *)

Lemma star_class_sound p s :
  ∀ prev k e,
    star_class p prev s k = Some e →
    ∃ run s', s = run +:+ s' ∧ all_in p run = true
              ∧ k (prev_after prev run) s' = Some e.
Proof.
  induction s as [|c s IH]; intros prev k e; simpl.
  - intros Hk. by exists "", "".
  - destruct (p c) eqn:Hp.
    + destruct (star_class p (Some c) s k) as [e'|] eqn:Hs.
      * intros [= ->]. apply IH in Hs as (run & s' & -> & Hrun & Hk).
        exists (String c run), s'. simpl. by rewrite Hp, Hrun.
      * intros Hk. by exists "", (String c s).
    + intros Hk. by exists "", (String c s).
Qed.

Lemma pmatch_sound (r : pattern) :
  ∀ prev s g k e,
    pmatch r prev s g k = Some e →
    ∃ prev' s' g', PMatches r prev s g prev' s' g' ∧ k prev' s' g' = Some e.
Proof.
  induction r as [|p|r1 IH1 r2 IH2|r1 IH1 r2 IH2|p|p|r1 IH1| |r1 IH1];
    intros prev s g k e; simpl.
  - intros Hk. exists prev, s, g. split; [constructor|done].
  - destruct s as [|c s]; [done|].
    destruct (p c) eqn:Hp; [|done].
    intros Hk. exists (Some c), s, g. split; [by constructor|done].
  - intros (prev1 & s1 & g1 & H1 & H2)%IH1.
    apply IH2 in H2 as (prev2 & s2 & g2 & H2 & Hk).
    exists prev2, s2, g2. split; [by econstructor|done].
  - destruct (pmatch r1 prev s g k) as [e'|] eqn:Hr.
    + intros [= ->]. apply IH1 in Hr as (prev' & s' & g' & H1 & Hk).
      exists prev', s', g'. split; [by apply PMatches_alt_l|done].
    + intros (prev' & s' & g' & H2 & Hk)%IH2.
      exists prev', s', g'. split; [by apply PMatches_alt_r|done].
  - intros (run & s' & -> & Hrun & Hk)%star_class_sound.
    exists (prev_after prev run), s', g.
    split; [by apply PMatches_star|done].
  - destruct s as [|c s]; [done|].
    destruct (p c) eqn:Hp; [|done].
    intros (run & s' & -> & Hrun & Hk)%star_class_sound.
    exists (prev_after (Some c) run), s', g. split; [|done].
    apply (PMatches_plus p prev (String c run)); [done|].
    simpl. by rewrite Hp.
  - intros (prev' & s' & g' & H1 & Hk)%IH1.
    exists prev', s', (Some (matched s s')).
    split; [by econstructor|done].
  - destruct (xorb _ _) eqn:Hx; [|done].
    intros Hk. exists prev, s, g. split; [by constructor|done].
  - destruct (pmatch r1 prev s g k) as [e'|] eqn:Hr.
    + intros [= ->]. apply IH1 in Hr as (prev' & s' & g' & H1 & Hk).
      exists prev', s', g'. split; [by apply PMatches_opt_one|done].
    + intros Hk. exists prev, s, g. split; [apply PMatches_opt_none|done].
Qed.

Lemma pmatch_here_sound r prev s rest g :
  pmatch_here r prev s = Some (rest, g) →
  ∃ prev', PMatches r prev s None prev' rest g.
Proof.
  intros (prev' & s' & g' & Hm & [= -> ->])%pmatch_sound. by exists prev'.
Qed.

(** ** What the two patterns match *)

Lemma iliteral_inv x :
  ∀ prev s g prev' s' g',
    PMatches (iliteral x) prev s g prev' s' g' →
    ∃ w, s = w +:+ s' ∧ lower w = lower x
         ∧ prev' = prev_after prev w ∧ g' = g.
Proof.
  induction x as [|c x IH]; intros prev s g prev' s' g' Hm; simpl in Hm.
  - inversion Hm; subst. by exists "".
  - inversion Hm as [| |? ? ? ? ? prev1 s1 g1 ? ? ? H1 H2| | | | | | | |];
      subst.
    inversion H1 as [|? ? c1 ? ? Hc| | | | | | | | |]; subst.
    apply IH in H2 as (w & -> & Hw & -> & ->).
    exists (String c1 w). simpl. rewrite Hw.
    apply Ascii.eqb_eq in Hc. by rewrite Hc.
Qed.

Lemma box_word_inv prev s g prev' s' g' :
  PMatches box_word prev s g prev' s' g' →
  ∃ w, s = w +:+ s' ∧ is_box_word w ∧ prev' = prev_after prev w ∧ g' = g.
Proof.
  unfold box_word, is_box_word, box_words. intros Hm.
  inversion Hm as [| | |? ? ? ? ? ? ? ? H1|? ? ? ? ? ? ? ? H1| | | | | |];
    subst.
  - apply (iliteral_inv "boxes") in H1 as (w & -> & Hw & -> & ->).
    exists w. rewrite Hw. repeat split. set_solver.
  - inversion H1 as [| | |? ? ? ? ? ? ? ? H2|? ? ? ? ? ? ? ? H2| | | | | |];
      subst.
    + apply (iliteral_inv "bxs") in H2 as (w & -> & Hw & -> & ->).
      exists w. rewrite Hw. repeat split. set_solver.
    + apply (iliteral_inv "box") in H2 as (w & -> & Hw & -> & ->).
      exists w. rewrite Hw. repeat split. set_solver.
Qed.

Lemma star_inv p prev s g prev' s' g' :
  PMatches (PStar p) prev s g prev' s' g' →
  ∃ run, s = run +:+ s' ∧ all_in p run = true
         ∧ prev' = prev_after prev run ∧ g' = g.
Proof. inversion 1; subst. by eexists. Qed.

Lemma plus_inv p prev s g prev' s' g' :
  PMatches (PPlus p) prev s g prev' s' g' →
  ∃ run, s = run +:+ s' ∧ run ≠ "" ∧ all_in p run = true
         ∧ prev' = prev_after prev run ∧ g' = g.
Proof. inversion 1; subst. by eexists. Qed.

Lemma seq_inv r1 r2 prev s g prev2 s2 g2 :
  PMatches (PSeq r1 r2) prev s g prev2 s2 g2 →
  ∃ prev1 s1 g1,
    PMatches r1 prev s g prev1 s1 g1 ∧ PMatches r2 prev1 s1 g1 prev2 s2 g2.
Proof. inversion 1; subst. by eexists _, _, _. Qed.

Lemma group_inv r prev s g prev' s' g' :
  PMatches (PGroup r) prev s g prev' s' g' →
  g' = Some (matched s s') ∧ ∃ g1, PMatches r prev s g prev' s' g1.
Proof. inversion 1; subst. split; [done|by eexists]. Qed.

Lemma is_number_spec ds :
  is_number ds = true ↔ ds ≠ "" ∧ all_in is_digit ds = true.
Proof.
  unfold is_number. rewrite andb_true_iff, negb_true_iff.
  by destruct (String.eqb_spec ds "") as [->|]; split; intros []; try done.
Qed.

(** A match of the first pattern: a number, whitespace, the unit. *)
Lemma count_then_boxes_shape prev s rest g :
  pmatch_here count_then_boxes prev s = Some (rest, g) →
  ∃ ds ws w,
    s = ds +:+ ws +:+ w +:+ rest ∧ is_number ds = true
    ∧ all_in is_space ws = true ∧ is_box_word w ∧ g = Some ds.
Proof.
  intros (prev' & Hm)%pmatch_here_sound. unfold count_then_boxes in Hm.
  apply seq_inv in Hm as (prev1 & s1 & g1 & Hg & Hm).
  apply group_inv in Hg as (-> & g0 & Hd).
  apply plus_inv in Hd as (ds & -> & Hne & Hds & -> & ->).
  apply seq_inv in Hm as (prev2 & s2 & g2 & Hs & Hm).
  apply star_inv in Hs as (ws & -> & Hws & -> & ->).
  apply seq_inv in Hm as (prev3 & s3 & g3 & Hw & Hb).
  apply box_word_inv in Hw as (w & -> & Hw & -> & ->).
  inversion Hb; subst.
  exists ds, ws, w. rewrite matched_append.
  repeat split; try done. by apply is_number_spec.
Qed.

(** A match of the second pattern: the unit, a colon or an equals sign
    between whitespace, a number. *)
Lemma boxes_then_count_shape prev s rest g :
  pmatch_here boxes_then_count prev s = Some (rest, g) →
  ∃ w ws1 sep ws2 ds,
    s = w +:+ ws1 +:+ String sep (ws2 +:+ ds +:+ rest)
    ∧ is_box_word w ∧ all_in is_space ws1 = true ∧ is_assign sep = true
    ∧ all_in is_space ws2 = true ∧ is_number ds = true ∧ g = Some ds.
Proof.
  intros (prev' & Hm)%pmatch_here_sound. unfold boxes_then_count in Hm.
  apply seq_inv in Hm as (prev1 & s1 & g1 & Hw & Hm).
  apply box_word_inv in Hw as (w & -> & Hw & -> & ->).
  apply seq_inv in Hm as (prev2 & s2 & g2 & Hs & Hm).
  apply star_inv in Hs as (ws1 & -> & Hws1 & -> & ->).
  apply seq_inv in Hm as (prev3 & s3 & g3 & Hc & Hm).
  inversion Hc as [|? ? sep ? ? Hsep| | | | | | | | |]; subst.
  apply seq_inv in Hm as (prev4 & s4 & g4 & Hs & Hm).
  apply star_inv in Hs as (ws2 & -> & Hws2 & -> & ->).
  apply group_inv in Hm as (-> & g0 & Hd).
  apply plus_inv in Hd as (ds & -> & Hne & Hds & -> & ->).
  exists w, ws1, sep, ws2, ds. rewrite matched_append.
  repeat split; try done. by apply is_number_spec.
Qed.

(** ** The scan *)

(** Every match the scan reports is a match at some position. *)
Lemma finditer_from_elem r s :
  ∀ prev skip g,
    g ∈ finditer_from r prev s skip →
    ∃ pre prev' s' rest,
      s = pre +:+ s' ∧ pmatch_here r prev' s' = Some (rest, g).
Proof.
  induction s as [|c s IH]; intros prev skip g; simpl.
  - by intros ?%elem_of_nil.
  - assert (∀ n, g ∈ finditer_from r (Some c) s n →
              ∃ pre prev' s' rest,
                String c s = pre +:+ s'
                ∧ pmatch_here r prev' s' = Some (rest, g)) as Htail.
    { intros n (pre & prev' & s' & rest & -> & Hm)%IH.
      by exists (String c pre), prev', s', rest. }
    destruct skip as [|n]; [|by apply Htail].
    destruct (pmatch_here r prev (String c s)) as [[rest g']|] eqn:Hm;
      [|by apply Htail].
    intros [->|Hin]%elem_of_cons; [|by eapply Htail].
    by exists "", prev, (String c s), rest.
Qed.

(** Where no suffix of the subject can match, the scan reports nothing. *)
Lemma finditer_from_quiet r (Q : string → Prop) :
  (∀ c s, Q (String c s) → Q s) →
  (∀ prev s, Q s → pmatch_here r prev s = None) →
  ∀ s prev skip, Q s → finditer_from r prev s skip = [].
Proof.
  intros Htail Hnone. induction s as [|c s IH]; intros prev skip HQ; [done|].
  simpl. destruct skip as [|n]; [|by eauto].
  rewrite Hnone by done. eauto.
Qed.

(** The scan passes over the characters of the last match. *)
Lemma finditer_from_skip r s :
  ∀ prev skip,
    (String.length s ≤ skip)%nat → finditer_from r prev s skip = [].
Proof.
  induction s as [|c s IH]; intros prev skip Hlen; [done|].
  simpl in *. destruct skip as [|n]; [lia|]. apply IH. lia.
Qed.

(** The scan passes over a prefix at which no match starts. *)
Lemma finditer_from_prefix r (p : ascii → bool) :
  (∀ prev c s, p c = true → pmatch_here r prev (String c s) = None) →
  ∀ pre prev s,
    all_in p pre = true →
    finditer_from r prev (pre +:+ s) 0
    = finditer_from r (prev_after prev pre) s 0.
Proof.
  intros Hnone. induction pre as [|c pre IH]; intros prev s; [done|].
  simpl. intros [Hc Hpre]%andb_true_iff.
  rewrite Hnone by done. by apply IH.
Qed.

(** ** [int] of a group *)

Lemma forallb_all_in p ds :
  forallb p (list_ascii_of_string ds) = all_in p ds.
Proof. induction ds as [|c ds IH]; simpl; [done|]. by rewrite IH. Qed.

Lemma int_of_str_number ds :
  is_number ds = true → (String.length ds ≤ int_max_str_digits)%nat →
  int_of_str ds = Some (decimal ds).
Proof.
  intros Hn Hlen. unfold int_of_str. rewrite forallb_all_in.
  unfold is_number in Hn. rewrite Hn.
  by rewrite (proj2 (Nat.leb_le _ _) Hlen).
Qed.

Lemma digit_value_nonneg c : is_digit c = true → 0 ≤ digit_value c.
Proof.
  unfold is_digit, digit_value.
  intros [H1%Nat.leb_le _]%andb_true_iff. lia.
Qed.

Lemma decimal_from_nonneg cs :
  ∀ acc,
    forallb is_digit cs = true → 0 ≤ acc →
    0 ≤ fold_left (λ acc c, 10 * acc + digit_value c) cs acc.
Proof.
  induction cs as [|c cs IH]; intros acc; simpl; [done|].
  intros [Hc Hcs]%andb_true_iff Hacc. apply IH; [done|].
  apply digit_value_nonneg in Hc. lia.
Qed.

Lemma decimal_nonneg ds : is_number ds = true → 0 ≤ decimal ds.
Proof.
  intros [_ Hds]%is_number_spec. apply decimal_from_nonneg; [|done].
  by rewrite forallb_all_in.
Qed.

(** The loop over the matches of one pattern, when every group is a number
    that [int] accepts. *)
Lemma counts_fold (gs : list (option string)) :
  ∀ acc,
    Forall (λ g, ∃ ds, g = Some ds ∧ is_number ds = true
                       ∧ (String.length ds ≤ int_max_str_digits)%nat) gs →
    fold_left
      (λ counts g,
         match counts, g with
         | Some counts, Some digits =>
             match int_of_str digits with
             | Some n => Some (counts ++ [n])
             | None => None
             end
         | _, _ => None
         end) gs (Some acc)
    = Some (acc ++ map (from_option decimal 0) gs).
Proof.
  induction gs as [|g gs IH]; intros acc Hgs; simpl.
  - by rewrite app_nil_r.
  - apply Forall_cons in Hgs as [(ds & -> & Hn & Hlen) Hgs].
    rewrite int_of_str_number by done. rewrite IH by done.
    simpl. by rewrite <- app_assoc.
Qed.

(** ** Runs of digits *)

Lemma digit_run_mono s :
  ∀ cur cur', (cur ≤ cur')%nat → (digit_run s cur ≤ digit_run s cur')%nat.
Proof.
  induction s as [|c s IH]; intros cur cur' Hle; simpl; [done|].
  destruct (is_digit c); [apply IH|]; lia.
Qed.

Lemma digit_run_ge s : ∀ cur, (cur ≤ digit_run s cur)%nat.
Proof.
  induction s as [|c s IH]; intros cur; simpl; [done|].
  destruct (is_digit c); [|lia]. specialize (IH (S cur)). lia.
Qed.

Lemma digit_run_number ds :
  ∀ post cur,
    all_in is_digit ds = true →
    (cur + String.length ds ≤ digit_run (ds +:+ post) cur)%nat.
Proof.
  induction ds as [|c ds IH]; intros post cur; simpl.
  - intros _. pose proof (digit_run_ge post cur). lia.
  - intros [-> Hds]%andb_true_iff.
    specialize (IH post (S cur) Hds). lia.
Qed.

Lemma digit_run_suffix pre :
  ∀ s cur, (digit_run s 0 ≤ digit_run (pre +:+ s) cur)%nat.
Proof.
  induction pre as [|c pre IH]; intros s cur; simpl.
  - apply digit_run_mono. lia.
  - destruct (is_digit c); [apply IH|].
    specialize (IH s 0%nat). lia.
Qed.

(** A number in a text is no longer than the longest run of digits. *)
Lemma number_length pre ds post :
  all_in is_digit ds = true →
  (String.length ds ≤ longest_digit_run (pre +:+ ds +:+ post))%nat.
Proof.
  intros Hds. unfold longest_digit_run.
  etrans; [|apply digit_run_suffix].
  by apply (digit_run_number ds post 0).
Qed.

(** ** The groups the scans report *)

Lemma count_then_boxes_groups text g :
  g ∈ finditer count_then_boxes text →
  ∃ ds ws w,
    g = Some ds ∧ is_number ds = true ∧ all_in is_space ws = true
    ∧ is_box_word w ∧ occurs_in (ds +:+ ws +:+ w) text
    ∧ (String.length ds ≤ longest_digit_run text)%nat.
Proof.
  intros (pre & prev' & s' & rest & -> & Hm)%finditer_from_elem.
  apply count_then_boxes_shape in Hm as (ds & ws & w & -> & Hn & Hws & Hw & ->).
  exists ds, ws, w. repeat split; try done.
  - exists pre, rest. by rewrite !append_assoc.
  - apply number_length. by apply is_number_spec in Hn as [_ ?].
Qed.

Lemma boxes_then_count_groups text g :
  g ∈ finditer boxes_then_count text →
  ∃ w ws1 sep ws2 ds,
    g = Some ds ∧ is_number ds = true ∧ all_in is_space ws1 = true
    ∧ is_assign sep = true ∧ all_in is_space ws2 = true ∧ is_box_word w
    ∧ occurs_in (w +:+ ws1 +:+ String sep (ws2 +:+ ds)) text
    ∧ (String.length ds ≤ longest_digit_run text)%nat.
Proof.
  intros (pre & prev' & s' & rest & -> & Hm)%finditer_from_elem.
  apply boxes_then_count_shape in Hm
    as (w & ws1 & sep & ws2 & ds & -> & Hw & Hws1 & Hsep & Hws2 & Hn & ->).
  exists w, ws1, sep, ws2, ds. repeat split; try done.
  - exists pre, rest. rewrite !append_assoc. simpl. by rewrite ?append_assoc.
  - replace (pre +:+ w +:+ ws1 +:+ String sep (ws2 +:+ ds +:+ rest))
      with ((pre +:+ w +:+ ws1 +:+ String sep ws2) +:+ ds +:+ rest).
    + apply number_length. by apply is_number_spec in Hn as [_ ?].
    + rewrite !append_assoc. simpl. by rewrite ?append_assoc.
Qed.

Lemma counts_of_groups r text :
  Forall (λ g, ∃ ds, g = Some ds ∧ is_number ds = true
                     ∧ (String.length ds ≤ int_max_str_digits)%nat)
    (finditer r text) →
  counts_of r text = Some (map (from_option decimal 0) (finditer r text)).
Proof. intros Hgs. unfold counts_of. by rewrite counts_fold. Qed.

(** X14: an ASCII text whose runs of digits [int] accepts (at most 4300
    digits) raises no exception in [extract_box_counts], and every count
    returned is the value, not negative, of a number that the text holds
    beside a spelling of the unit: followed by optional whitespace and
    "boxes", "bxs" or "box" in any case, or preceded by the unit, optional
    whitespace, a colon or an equals sign and optional whitespace. *)
Theorem extract_box_counts_sound (text : string) :
  ascii_text text = true →
  (longest_digit_run text ≤ int_max_str_digits)%nat →
  ∃ counts,
    extract_box_counts text = Some counts
    ∧ ∀ n, n ∈ counts → 0 ≤ n ∧ box_count_in text n.
Proof.
  intros _ Hrun. unfold extract_box_counts.
  rewrite (counts_of_groups count_then_boxes),
    (counts_of_groups boxes_then_count).
  - eexists. split; [done|]. intros n [Hn|Hn]%elem_of_app.
    + apply list_elem_of_fmap in Hn as (g & -> & Hg).
      apply count_then_boxes_groups in Hg
        as (ds & ws & w & -> & Hn & Hws & Hw & Hin & _).
      split; [by apply decimal_nonneg|].
      exists ds, ws, w. repeat split; try done. by left.
    + apply list_elem_of_fmap in Hn as (g & -> & Hg).
      apply boxes_then_count_groups in Hg
        as (w & ws1 & sep & ws2 & ds & -> & Hn & Hws1 & Hsep & Hws2 & Hw
            & Hin & _).
      split; [by apply decimal_nonneg|].
      exists ds, ws1, w. repeat split; try done. right. by exists sep, ws2.
  - apply Forall_forall. intros g Hg.
    apply boxes_then_count_groups in Hg
      as (w & ws1 & sep & ws2 & ds & -> & Hn & _ & _ & _ & _ & _ & Hlen).
    exists ds. repeat split; try done. lia.
  - apply Forall_forall. intros g Hg.
    apply count_then_boxes_groups in Hg
      as (ds & ws & w & -> & Hn & _ & _ & _ & Hlen).
    exists ds. repeat split; try done. lia.
Qed.

(** X14 on a text with both forms. *)
Lemma extract_box_counts_sound_witness :
  ascii_text "Boxes: 12, then 7 BXS" = true
  ∧ (longest_digit_run "Boxes: 12, then 7 BXS" ≤ int_max_str_digits)%nat
  ∧ extract_box_counts "Boxes: 12, then 7 BXS" = Some [7; 12]
  ∧ ∃ counts,
      extract_box_counts "Boxes: 12, then 7 BXS" = Some counts
      ∧ ∀ n, n ∈ counts → 0 ≤ n ∧ box_count_in "Boxes: 12, then 7 BXS" n.
Proof.
  assert (ascii_text "Boxes: 12, then 7 BXS" = true) as Hascii
    by (by vm_compute).
  assert (longest_digit_run "Boxes: 12, then 7 BXS"
          ≤ int_max_str_digits)%nat as Hrun
    by (apply Nat.leb_le; by vm_compute).
  split; [exact Hascii|]. split; [exact Hrun|].
  split; [by vm_compute|].
  exact (extract_box_counts_sound _ Hascii Hrun).
Defined.

(** ** Character classes of the two patterns *)

(** The facts on characters are checked on each of the 256 characters. *)
Local Ltac by_cases_on c :=
  destruct c as [[] [] [] [] [] [] [] []]; by vm_compute.

Lemma is_word_lower c : is_word (lower_ascii c) = is_word c.
Proof. by_cases_on c. Qed.

Lemma is_digit_lower c : is_digit (lower_ascii c) = is_digit c.
Proof. by_cases_on c. Qed.

Lemma word_not_space c : is_word c = true → is_space c = false.
Proof. by_cases_on c. Qed.

Lemma word_not_assign c : is_word c = true → is_assign c = false.
Proof. by_cases_on c. Qed.

Lemma space_not_assign c : is_space c = true → is_assign c = false.
Proof. by_cases_on c. Qed.

Lemma space_not_digit c : is_space c = true → is_digit c = false.
Proof. by_cases_on c. Qed.

Lemma assign_not_digit c : is_assign c = true → is_digit c = false.
Proof. by_cases_on c. Qed.

Lemma assign_not_space c : is_assign c = true → is_space c = false.
Proof. by_cases_on c. Qed.

Lemma digit_not_b c : is_digit c = true → is_letter_b c = false.
Proof. by_cases_on c. Qed.

Lemma space_not_e c :
  is_space c = true → Ascii.eqb (lower_ascii c) "e" = false.
Proof. by_cases_on c. Qed.

Lemma assign_not_e c :
  is_assign c = true → Ascii.eqb (lower_ascii c) "e" = false.
Proof. by_cases_on c. Qed.

Lemma all_in_impl (p q : ascii → bool) s :
  (∀ c, p c = true → q c = true) → all_in p s = true → all_in q s = true.
Proof.
  intros Hpq. induction s as [|c s IH]; simpl; [done|].
  intros [Hc Hs]%andb_true_iff. by rewrite (Hpq c Hc), IH.
Qed.

Lemma all_in_lower (p : ascii → bool) s :
  (∀ c, p (lower_ascii c) = p c) → all_in p (lower s) = all_in p s.
Proof.
  intros Hp. induction s as [|c s IH]; simpl; [done|]. by rewrite Hp, IH.
Qed.

(** The spellings of the unit are made of letters. *)
Lemma box_word_letters w : is_box_word w → all_in is_word w = true.
Proof.
  unfold is_box_word, box_words. intros Hw.
  rewrite <- (all_in_lower is_word w is_word_lower).
  repeat (apply elem_of_cons in Hw as [->|Hw]; [done|]).
  by apply elem_of_nil in Hw.
Qed.

Lemma box_word_no_digit w : is_box_word w → free_of is_digit w = true.
Proof.
  unfold is_box_word, box_words, free_of. intros Hw.
  rewrite <- (all_in_lower _ w);
    [|by intros c; rewrite is_digit_lower].
  repeat (apply elem_of_cons in Hw as [->|Hw]; [done|]).
  by apply elem_of_nil in Hw.
Qed.

(** They start with the letter b. *)
Lemma box_word_head w :
  is_box_word w → ∃ c w', w = String c w' ∧ is_letter_b c = true.
Proof.
  unfold is_box_word, box_words, is_letter_b. intros Hw.
  destruct w as [|c w]; simpl in Hw.
  - repeat (apply elem_of_cons in Hw as [?|Hw]; [done|]).
    by apply elem_of_nil in Hw.
  - exists c, w. split; [done|].
    repeat (apply elem_of_cons in Hw as [[= -> _]|Hw]; [done|]).
    by apply elem_of_nil in Hw.
Qed.

(** They end with a letter. *)
Lemma box_word_last prev w :
  is_box_word w → word_before (prev_after prev w) = true.
Proof.
  intros Hw. pose proof (box_word_letters w Hw) as Hl.
  apply box_word_head in Hw as (c & w' & -> & _).
  clear -Hl. revert c Hl. induction w' as [|c' w' IH]; intros c; simpl.
  - by intros [-> _]%andb_true_iff.
  - intros [_ Hl]%andb_true_iff. by apply IH.
Qed.

(** ** Where the patterns cannot match *)

Lemma count_then_boxes_needs_digit prev c s :
  is_digit c = false → pmatch_here count_then_boxes prev (String c s) = None.
Proof. intros Hc. unfold pmatch_here. simpl. by rewrite Hc. Qed.

Lemma boxes_then_count_needs_b prev c s :
  is_letter_b c = false →
  pmatch_here boxes_then_count prev (String c s) = None.
Proof.
  unfold is_letter_b. intros Hc. unfold pmatch_here. simpl.
  change (lower_ascii "b") with "b"%char. by rewrite Hc.
Qed.

Lemma free_of_tail p c s : free_of p (String c s) = true → free_of p s = true.
Proof. unfold free_of. simpl. by intros [_ ?]%andb_true_iff. Qed.

Lemma free_of_append p a b :
  free_of p (a +:+ b) = (free_of p a && free_of p b)%bool.
Proof. apply all_in_append. Qed.

Lemma free_of_number p ds :
  (∀ c, is_digit c = true → p c = true) →
  is_number ds = true → free_of p ds = false.
Proof.
  intros Hp [Hne Hds]%is_number_spec. destruct ds as [|c ds]; [done|].
  simpl in Hds. apply andb_true_iff in Hds as [Hc _].
  unfold free_of. simpl. by rewrite (Hp c Hc).
Qed.

Lemma free_of_box_word w : is_box_word w → free_of is_letter_b w = false.
Proof.
  intros (c & w' & -> & Hc)%box_word_head. unfold free_of. simpl.
  by rewrite Hc.
Qed.

Lemma count_then_boxes_none_no_digit prev s :
  free_of is_digit s = true → pmatch_here count_then_boxes prev s = None.
Proof.
  intros Hfree.
  destruct (pmatch_here count_then_boxes prev s) as [[rest g]|] eqn:Hm;
    [|done].
  apply count_then_boxes_shape in Hm as (ds & ws & w & -> & Hn & _).
  rewrite free_of_append, (free_of_number is_digit ds) in Hfree; done.
Qed.

Lemma count_then_boxes_none_no_b prev s :
  free_of is_letter_b s = true → pmatch_here count_then_boxes prev s = None.
Proof.
  intros Hfree.
  destruct (pmatch_here count_then_boxes prev s) as [[rest g]|] eqn:Hm;
    [|done].
  apply count_then_boxes_shape in Hm as (ds & ws & w & -> & _ & _ & Hw & _).
  rewrite !free_of_append, (free_of_box_word w Hw) in Hfree.
  by rewrite !andb_false_r, ?andb_false_l in Hfree.
Qed.

Lemma boxes_then_count_none_no_digit prev s :
  free_of is_digit s = true → pmatch_here boxes_then_count prev s = None.
Proof.
  intros Hfree.
  destruct (pmatch_here boxes_then_count prev s) as [[rest g]|] eqn:Hm;
    [|done].
  apply boxes_then_count_shape in Hm
    as (w & ws1 & sep & ws2 & ds & -> & _ & _ & _ & _ & Hn & _).
  rewrite !free_of_append in Hfree.
  apply andb_true_iff in Hfree as [_ [_ Hfree]%andb_true_iff].
  apply free_of_tail in Hfree.
  rewrite !free_of_append, (free_of_number is_digit ds) in Hfree; try done.
  by rewrite andb_false_r in Hfree.
Qed.

Lemma boxes_then_count_none_no_b prev s :
  free_of is_letter_b s = true → pmatch_here boxes_then_count prev s = None.
Proof.
  intros Hfree.
  destruct (pmatch_here boxes_then_count prev s) as [[rest g]|] eqn:Hm;
    [|done].
  apply boxes_then_count_shape in Hm
    as (w & ws1 & sep & ws2 & ds & -> & Hw & _).
  rewrite !free_of_append, (free_of_box_word w Hw) in Hfree. done.
Qed.

Lemma boxes_then_count_none_no_assign prev s :
  free_of is_assign s = true → pmatch_here boxes_then_count prev s = None.
Proof.
  intros Hfree.
  destruct (pmatch_here boxes_then_count prev s) as [[rest g]|] eqn:Hm;
    [|done].
  apply boxes_then_count_shape in Hm
    as (w & ws1 & sep & ws2 & ds & -> & _ & _ & Hsep & _).
  rewrite !free_of_append in Hfree.
  apply andb_true_iff in Hfree as [_ [_ Hfree]%andb_true_iff].
  unfold free_of in Hfree. simpl in Hfree. by rewrite Hsep in Hfree.
Qed.

Lemma counts_of_nil r text : finditer r text = [] → counts_of r text = Some [].
Proof. unfold counts_of. by intros ->. Qed.

(** X15: an ASCII text with no digit, or with no letter b in either case,
    holds no box count for [extract_box_counts]: it returns the empty list.
    The empty text is one such text. *)
Theorem extract_box_counts_quiet (text : string) :
  ascii_text text = true →
  free_of is_digit text = true ∨ free_of is_letter_b text = true →
  extract_box_counts text = Some [].
Proof.
  intros _ Hfree. unfold extract_box_counts.
  assert (finditer count_then_boxes text = []
          ∧ finditer boxes_then_count text = []) as [H1 H2].
  { destruct Hfree as [Hfree|Hfree]; split.
    - apply (finditer_from_quiet _ (λ s, free_of is_digit s = true));
        [apply free_of_tail| |done].
      intros ? ?. apply count_then_boxes_none_no_digit.
    - apply (finditer_from_quiet _ (λ s, free_of is_digit s = true));
        [apply free_of_tail| |done].
      intros ? ?. apply boxes_then_count_none_no_digit.
    - apply (finditer_from_quiet _ (λ s, free_of is_letter_b s = true));
        [apply free_of_tail| |done].
      intros ? ?. apply count_then_boxes_none_no_b.
    - apply (finditer_from_quiet _ (λ s, free_of is_letter_b s = true));
        [apply free_of_tail| |done].
      intros ? ?. apply boxes_then_count_none_no_b. }
  by rewrite !counts_of_nil.
Qed.

(** X15 on a text without digits. *)
Lemma extract_box_counts_quiet_witness :
  ascii_text "boxes to follow" = true
  ∧ (free_of is_digit "boxes to follow" = true
     ∨ free_of is_letter_b "boxes to follow" = true)
  ∧ extract_box_counts "boxes to follow" = Some [].
Proof.
  assert (ascii_text "boxes to follow" = true) as Hascii
    by (by vm_compute).
  assert (free_of is_digit "boxes to follow" = true
          ∨ free_of is_letter_b "boxes to follow" = true) as Hfree
    by (left; by vm_compute).
  split; [exact Hascii|]. split; [exact Hfree|].
  exact (extract_box_counts_quiet _ Hascii Hfree).
Defined.

(** ** Where the patterns match *)

(** A greedy repetition reads a whole run when what follows succeeds
    there. *)
Lemma star_class_greedy p run :
  ∀ prev rest k e,
    all_in p run = true → stops p rest = true →
    k (prev_after prev run) rest = Some e →
    star_class p prev (run +:+ rest) k = Some e.
Proof.
  induction run as [|c run IH]; intros prev rest k e; simpl.
  - intros _ Hstop Hk. destruct rest as [|c rest]; simpl in *; [done|].
    by apply negb_true_iff in Hstop as ->.
  - intros [-> Hrun]%andb_true_iff Hstop Hk. by rewrite (IH _ _ _ e).
Qed.

Lemma pmatch_star_greedy p run prev rest g k e :
  all_in p run = true → stops p rest = true →
  k (prev_after prev run) rest g = Some e →
  pmatch (PStar p) prev (run +:+ rest) g k = Some e.
Proof. intros. simpl. by apply star_class_greedy. Qed.

Lemma pmatch_plus_greedy p run prev rest g k e :
  run ≠ "" → all_in p run = true → stops p rest = true →
  k (prev_after prev run) rest g = Some e →
  pmatch (PPlus p) prev (run +:+ rest) g k = Some e.
Proof.
  destruct run as [|c run]; [done|]. simpl.
  intros _ [-> Hrun]%andb_true_iff Hstop Hk. by apply star_class_greedy.
Qed.


(** The alternation reads a spelling of the unit when what follows
    succeeds there and no letter e comes next. *)
Lemma pmatch_box_word w prev rest g k e :
  is_box_word w →
  stops (λ c, Ascii.eqb (lower_ascii c) "e") rest = true →
  k (prev_after prev w) rest g = Some e →
  pmatch box_word prev (w +:+ rest) g k = Some e.
Proof.
  unfold is_box_word, box_words. intros Hw Hstop Hk.
  apply elem_of_cons in Hw as [Hw|Hw];
    [|apply elem_of_cons in Hw as [Hw|Hw];
      [|apply elem_of_cons in Hw as [Hw|Hw];
        [|by apply elem_of_nil in Hw]]].
  - destruct w as [|c1 [|c2 [|c3 [|c4 [|c5 [|]]]]]]; try done.
    injection Hw as H1 H2 H3 H4 H5. simpl in *.
    by rewrite H1, H2, H3, H4, H5, Hk.
  - destruct w as [|c1 [|c2 [|c3 [|]]]]; try done.
    injection Hw as H1 H2 H3. simpl in *.
    by rewrite H1, H2, H3, Hk.
  - destruct w as [|c1 [|c2 [|c3 [|]]]]; try done.
    injection Hw as H1 H2 H3. simpl in *.
    rewrite H1, H2, H3, Hk. simpl.
    destruct rest as [|c rest]; simpl in *; [done|].
    change (lower_ascii "e") with "e"%char.
    by apply negb_true_iff in Hstop as ->.
Qed.

Lemma number_head ds :
  is_number ds = true → ∃ c ds', ds = String c ds' ∧ is_digit c = true.
Proof.
  intros [Hne Hds]%is_number_spec. destruct ds as [|c ds]; [done|].
  simpl in Hds. apply andb_true_iff in Hds as [Hc _]. by exists c, ds.
Qed.

Lemma matched_all (s : string) : matched s "" = s.
Proof. by rewrite <- (append_empty_r s) at 1; rewrite matched_append. Qed.

(** A number, whitespace and the unit match the first pattern. *)
Lemma count_then_boxes_phrase prev ds ws w :
  is_number ds = true → all_in is_space ws = true → is_box_word w →
  pmatch_here count_then_boxes prev (ds +:+ ws +:+ w) = Some ("", Some ds).
Proof.
  intros Hn Hws Hw. pose proof Hn as [Hne Hds]%is_number_spec.
  pose proof (box_word_letters w Hw) as Hl.
  pose proof Hw as (c & w' & Hcw & Hb)%box_word_head.
  assert (is_word c = true) as Hc.
  { subst w. simpl in Hl. by apply andb_true_iff in Hl as [? _]. }
  unfold pmatch_here, count_then_boxes.
  change (pmatch (PSeq ?a ?b) ?prev ?s ?g ?k)
    with (pmatch a prev s g (λ prev' s' g', pmatch b prev' s' g' k)).
  change (pmatch (PGroup ?a) ?prev ?s ?g ?k)
    with (pmatch a prev s g
            (λ prev' s' _, k prev' s' (Some (matched s s')))).
  apply pmatch_plus_greedy; [done|done| |].
  { subst w. destruct ws as [|c' ws]; simpl in *.
    - destruct (is_digit c) eqn:Hd; [|done].
      apply digit_not_b in Hd. congruence.
    - apply andb_true_iff in Hws as [Hc' _].
      by rewrite (space_not_digit c'). }
  rewrite matched_append.
  change (pmatch (PSeq ?a ?b) ?prev ?s ?g ?k)
    with (pmatch a prev s g (λ prev' s' g', pmatch b prev' s' g' k)).
  apply pmatch_star_greedy; [done| |].
  { subst w. simpl. by rewrite (word_not_space c). }
  change (pmatch (PSeq ?a ?b) ?prev ?s ?g ?k)
    with (pmatch a prev s g (λ prev' s' g', pmatch b prev' s' g' k)).
  rewrite <- (append_empty_r w).
  apply pmatch_box_word; [done|done|].
  simpl pmatch. by rewrite (box_word_last _ _ Hw).
Qed.

Lemma pmatch_plus_all p run prev g k e :
  run ≠ "" → all_in p run = true →
  k (prev_after prev run) "" g = Some e →
  pmatch (PPlus p) prev run g k = Some e.
Proof.
  intros. rewrite <- (append_empty_r run). by apply pmatch_plus_greedy.
Qed.

Lemma pmatch_class p c prev s g k :
  p c = true → pmatch (PClass p) prev (String c s) g k = k (Some c) s g.
Proof. intros Hc. simpl. by rewrite Hc. Qed.

(** The unit, a colon or an equals sign between whitespace and a number
    match the second pattern. *)
Lemma boxes_then_count_phrase prev w ws1 sep ws2 ds :
  is_box_word w → all_in is_space ws1 = true → is_assign sep = true →
  all_in is_space ws2 = true → is_number ds = true →
  pmatch_here boxes_then_count prev (w +:+ ws1 +:+ String sep (ws2 +:+ ds))
  = Some ("", Some ds).
Proof.
  intros Hw Hws1 Hsep Hws2 Hn. pose proof Hn as [Hne Hds]%is_number_spec.
  pose proof Hn as (d & ds' & Hd & Hdigit)%number_head.
  unfold pmatch_here, boxes_then_count.
  change (pmatch (PSeq ?a ?b) ?prev ?s ?g ?k)
    with (pmatch a prev s g (λ prev' s' g', pmatch b prev' s' g' k)).
  apply pmatch_box_word; [done| |].
  { destruct ws1 as [|c ws1]; simpl in *.
    - by rewrite (assign_not_e sep).
    - apply andb_true_iff in Hws1 as [Hc _]. by rewrite (space_not_e c). }
  change (pmatch (PSeq ?a ?b) ?prev ?s ?g ?k)
    with (pmatch a prev s g (λ prev' s' g', pmatch b prev' s' g' k)).
  apply pmatch_star_greedy; [done| |].
  { simpl. by rewrite (assign_not_space sep). }
  change (pmatch (PSeq ?a ?b) ?prev ?s ?g ?k)
    with (pmatch a prev s g (λ prev' s' g', pmatch b prev' s' g' k)).
  rewrite pmatch_class by done.
  change (pmatch (PSeq ?a ?b) ?prev ?s ?g ?k)
    with (pmatch a prev s g (λ prev' s' g', pmatch b prev' s' g' k)).
  apply pmatch_star_greedy; [done| |].
  { rewrite Hd. simpl. destruct (is_space d) eqn:Hsp; [|done].
    apply space_not_digit in Hsp. congruence. }
  change (pmatch (PGroup ?a) ?prev ?s ?g ?k)
    with (pmatch a prev s g
            (λ prev' s' _, k prev' s' (Some (matched s s')))).
  apply pmatch_plus_all; [done|done|]. by rewrite matched_all.
Qed.

(** A match of the whole text is the only one the scan reports. *)
Lemma finditer_whole r s g :
  s ≠ "" → pmatch_here r None s = Some ("", g) → finditer r s = [g].
Proof.
  destruct s as [|c s]; [done|]. intros _ Hm.
  unfold finditer. cbn [finditer_from]. rewrite Hm, matched_all.
  f_equal. apply finditer_from_skip. simpl. lia.
Qed.

Lemma free_of_impl (p q : ascii → bool) s :
  (∀ c, p c = true → q c = false) → all_in p s = true → free_of q s = true.
Proof.
  intros Hpq. apply all_in_impl. intros c Hc. by rewrite (Hpq c Hc).
Qed.

Lemma digit_not_assign c : is_digit c = true → is_assign c = false.
Proof. intros ?%digit_is_word. by apply word_not_assign. Qed.

(** X16: a number of at most 4300 digits, optional whitespace and "boxes",
    "bxs" or "box" in any mix of cases: for such a text
    [extract_box_counts] returns the value of the number and nothing
    else. *)
Theorem extract_box_counts_count_first (ds ws w : string) :
  is_number ds = true → (String.length ds ≤ int_max_str_digits)%nat →
  all_in is_space ws = true → is_box_word w →
  extract_box_counts (ds +:+ ws +:+ w) = Some [decimal ds].
Proof.
  intros Hn Hlen Hws Hw. pose proof Hn as [Hne Hds]%is_number_spec.
  assert (finditer count_then_boxes (ds +:+ ws +:+ w) = [Some ds]) as H1.
  { apply finditer_whole; [by destruct ds|].
    by apply count_then_boxes_phrase. }
  assert (finditer boxes_then_count (ds +:+ ws +:+ w) = []) as H2.
  { apply (finditer_from_quiet _ (λ s, free_of is_assign s = true));
      [apply free_of_tail|intros ? ?; apply boxes_then_count_none_no_assign|].
    rewrite !free_of_append.
    rewrite (free_of_impl is_digit), (free_of_impl is_space),
      (free_of_impl is_word);
      auto using digit_not_assign, space_not_assign, word_not_assign,
        box_word_letters. }
  unfold extract_box_counts, counts_of. rewrite H1, H2. simpl.
  by rewrite int_of_str_number.
Qed.

(** X16 on "12 Boxes". *)
Lemma extract_box_counts_count_first_witness :
  is_number "12" = true
  ∧ (String.length "12" ≤ int_max_str_digits)%nat
  ∧ all_in is_space " " = true
  ∧ is_box_word "Boxes"
  ∧ extract_box_counts ("12" +:+ " " +:+ "Boxes") = Some [decimal "12"].
Proof.
  assert (is_number "12" = true) as Hn by (by vm_compute).
  assert (String.length "12" ≤ int_max_str_digits)%nat as Hlen
    by (apply Nat.leb_le; by vm_compute).
  assert (all_in is_space " " = true) as Hws by (by vm_compute).
  assert (is_box_word "Boxes") as Hw by (vm_compute; repeat constructor).
  do 4 (split; [done|]).
  exact (extract_box_counts_count_first _ _ _ Hn Hlen Hws Hw).
Defined.

(** X17: "boxes", "bxs" or "box" in any mix of cases, optional whitespace,
    a colon or an equals sign, optional whitespace and a number of at most
    4300 digits: for such a text [extract_box_counts] returns the value of
    the number and nothing else. *)
Theorem extract_box_counts_word_first (w ws1 : string) (sep : ascii)
    (ws2 ds : string) :
  is_box_word w → all_in is_space ws1 = true → is_assign sep = true →
  all_in is_space ws2 = true → is_number ds = true →
  (String.length ds ≤ int_max_str_digits)%nat →
  extract_box_counts (w +:+ ws1 +:+ String sep (ws2 +:+ ds))
  = Some [decimal ds].
Proof.
  intros Hw Hws1 Hsep Hws2 Hn Hlen.
  pose proof Hn as [Hne Hds]%is_number_spec.
  pose proof Hw as (c & w' & Hcw & _)%box_word_head.
  assert (finditer boxes_then_count
            (w +:+ ws1 +:+ String sep (ws2 +:+ ds)) = [Some ds]) as H2.
  { apply finditer_whole; [by subst w|].
    by apply boxes_then_count_phrase. }
  assert (finditer count_then_boxes
            (w +:+ ws1 +:+ String sep (ws2 +:+ ds)) = []) as H1.
  { replace (w +:+ ws1 +:+ String sep (ws2 +:+ ds))
      with ((w +:+ ws1 +:+ String sep ws2) +:+ ds)
      by (rewrite !append_assoc; simpl; by rewrite ?append_assoc).
    unfold finditer.
    rewrite (finditer_from_prefix _ (λ c, negb (is_digit c))).
    - apply (finditer_from_quiet _ (λ s, free_of is_letter_b s = true));
        [apply free_of_tail
        |intros ? ?; apply count_then_boxes_none_no_b|].
      apply (free_of_impl is_digit); auto using digit_not_b.
    - intros prev c' s Hc'. apply count_then_boxes_needs_digit.
      by apply negb_true_iff.
    - change (free_of is_digit (w +:+ ws1 +:+ String sep ws2) = true).
      rewrite !free_of_append. unfold free_of at 3. simpl.
      fold (free_of is_digit ws2).
      rewrite (box_word_no_digit w Hw), (assign_not_digit sep Hsep).
      rewrite !(free_of_impl is_space is_digit); auto using space_not_digit. }
  unfold extract_box_counts, counts_of. rewrite H1, H2. simpl.
  by rewrite int_of_str_number.
Qed.

(** X17 on "BXS: 007". *)
Lemma extract_box_counts_word_first_witness :
  is_box_word "BXS"
  ∧ all_in is_space "" = true
  ∧ is_assign ":" = true
  ∧ all_in is_space " " = true
  ∧ is_number "007" = true
  ∧ (String.length "007" ≤ int_max_str_digits)%nat
  ∧ extract_box_counts ("BXS" +:+ "" +:+ String ":" (" " +:+ "007"))
    = Some [decimal "007"].
Proof.
  assert (is_box_word "BXS") as Hw by (vm_compute; repeat constructor).
  assert (all_in is_space "" = true) as Hws1 by (by vm_compute).
  assert (is_assign ":" = true) as Hsep by (by vm_compute).
  assert (all_in is_space " " = true) as Hws2 by (by vm_compute).
  assert (is_number "007" = true) as Hn by (by vm_compute).
  assert (String.length "007" ≤ int_max_str_digits)%nat as Hlen
    by (apply Nat.leb_le; by vm_compute).
  do 6 (split; [done|]).
  exact (extract_box_counts_word_first _ _ _ _ _ Hw Hws1 Hsep Hws2 Hn Hlen).
Defined.

End BoxCounts.

(* ===================================================================== *)
(** * Weights *)
(* ===================================================================== *)

Section Weights.

Local Arguments String.append !_ _ / : simpl nomatch.

(** ** The matcher finds a match when there is one *)

Lemma star_class_complete p run :
  ∀ prev s k,
    all_in p run = true → is_Some (k (prev_after prev run) s) →
    is_Some (star_class p prev (run +:+ s) k).
Proof.
  induction run as [|c run IH]; intros prev s k; simpl.
  - intros _ Hk. destruct s as [|c s]; simpl; [done|].
    destruct (p c); [|done].
    by destruct (star_class p (Some c) s k).
  - intros [-> Hrun]%andb_true_iff Hk.
    by destruct (IH (Some c) s k Hrun Hk) as [e ->].
Qed.

Lemma pmatch_complete r prev s g prev' s' g' :
  PMatches r prev s g prev' s' g' →
  ∀ k, is_Some (k prev' s' g') → is_Some (pmatch r prev s g k).
Proof.
  induction 1 as [prev s g|p prev c s g Hc
                 |r1 r2 prev s g prev1 s1 g1 prev2 s2 g2 _ IH1 _ IH2
                 |r1 r2 prev s g prev' s' g' _ IH
                 |r1 r2 prev s g prev' s' g' _ IH
                 |p prev run s g Hrun|p prev run s g Hne Hrun
                 |r prev s g prev' s' g' _ IH|prev s g Hx
                 |r prev s g prev' s' g' _ IH|r prev s g];
    intros k Hk; simpl.
  - done.
  - by rewrite Hc.
  - apply IH1. by apply IH2.
  - by destruct (IH k Hk) as [e ->].
  - destruct (pmatch r1 prev s g k); [done|]. by apply IH.
  - by apply star_class_complete.
  - destruct run as [|c run]; [done|]. simpl in *.
    apply andb_true_iff in Hrun as [-> Hrun].
    by apply star_class_complete.
  - by apply IH.
  - by rewrite Hx.
  - by destruct (IH k Hk) as [e ->].
  - by destruct (pmatch r prev s g k).
Qed.

(** Outside a group the text of the group stays as it is. *)
Lemma PMatches_group_free r prev s g prev' s' g' :
  PMatches r prev s g prev' s' g' → group_free r = true → g' = g.
Proof.
  induction 1 as [ | |? ? ? ? ? ? ? ? ? ? ? _ IH1 _ IH2
                 |? ? ? ? ? ? ? ? _ IH|? ? ? ? ? ? ? ? _ IH| | |
                 | |? ? ? ? ? ? ? _ IH| ]; simpl; try done.
  - intros [H1 H2]%andb_true_iff. by rewrite IH2, IH1.
  - intros [H1 _]%andb_true_iff. by apply IH.
  - intros [_ H2]%andb_true_iff. by apply IH.
Qed.

Lemma PMatches_iliteral x :
  ∀ w prev rest g,
    lower w = lower x →
    PMatches (iliteral x) prev (w +:+ rest) g (prev_after prev w) rest g.
Proof.
  induction x as [|c x IH]; intros w prev rest g; simpl.
  - destruct w; [|done]. intros _. constructor.
  - destruct w as [|c' w]; [done|]. intros [= Hc Hw]. simpl.
    eapply PMatches_seq; [|by apply IH].
    constructor. by apply Ascii.eqb_eq.
Qed.

(** ** The units *)

Lemma pound_unit_matches prev u post g :
  lower u ∈ pound_units →
  ∃ prev', PMatches pound_unit prev (u +:+ post) g prev' post g.
Proof.
  unfold pound_units, pound_unit, plural. intros Hu.
  exists (prev_after prev u).
  apply elem_of_cons in Hu as [Hu|Hu];
    [|apply elem_of_cons in Hu as [Hu|Hu];
      [|apply elem_of_cons in Hu as [Hu|Hu];
        [|by apply elem_of_nil in Hu]]].
  - apply PMatches_alt_l. eapply PMatches_seq; [|apply PMatches_opt_none].
    by apply PMatches_iliteral.
  - apply PMatches_alt_r, PMatches_alt_l.
    eapply PMatches_seq; [|apply PMatches_opt_none].
    by apply PMatches_iliteral.
  - apply PMatches_alt_r, PMatches_alt_r. by apply PMatches_iliteral.
Qed.

Lemma kilo_unit_matches prev u post g :
  lower u ∈ kilo_units →
  ∃ prev', PMatches kilo_unit prev (u +:+ post) g prev' post g.
Proof.
  unfold kilo_units, kilo_unit, plural. intros Hu.
  exists (prev_after prev u).
  apply elem_of_cons in Hu as [Hu|Hu];
    [|apply elem_of_cons in Hu as [Hu|Hu];
      [|by apply elem_of_nil in Hu]].
  - apply PMatches_alt_l. by apply PMatches_iliteral.
  - apply PMatches_alt_r, PMatches_alt_l.
    eapply PMatches_seq; [|apply PMatches_opt_none].
    by apply PMatches_iliteral.
Qed.

(** Checked on each of the 256 characters. *)
Lemma space_not_quantity c :
  is_space c = true → is_quantity_char c = false.
Proof. destruct c as [[] [] [] [] [] [] [] []]; by vm_compute. Qed.

Lemma quantity_char_lower c :
  is_quantity_char (lower_ascii c) = is_quantity_char c.
Proof. destruct c as [[] [] [] [] [] [] [] []]; by vm_compute. Qed.

(** A unit does not start with a character of a quantity. *)
Lemma weight_unit_stops u post :
  is_weight_unit u → stops is_quantity_char (u +:+ post) = true.
Proof.
  unfold is_weight_unit, pound_units, kilo_units. intros Hu.
  destruct u as [|c u]; simpl in *.
  - destruct Hu as [Hu|Hu];
      repeat (apply elem_of_cons in Hu as [?|Hu]; [done|]);
      by apply elem_of_nil in Hu.
  - rewrite <- quantity_char_lower.
    destruct Hu as [Hu|Hu];
      repeat (apply elem_of_cons in Hu as [[= -> _]|Hu]; [done|]);
      by apply elem_of_nil in Hu.
Qed.

Lemma stops_blank_then p ws t :
  (∀ c, is_space c = true → p c = false) →
  all_in is_space ws = true → stops p t = true →
  stops p (ws +:+ t) = true.
Proof.
  intros Hp. destruct ws as [|c ws]; simpl; [done|].
  intros [Hc _]%andb_true_iff _. by rewrite (Hp c Hc).
Qed.

Lemma stops_impl (p q : ascii → bool) t :
  (∀ c, q c = true → p c = true) → stops p t = true → stops q t = true.
Proof.
  intros Hpq. destruct t as [|c t]; simpl; [done|].
  intros Hc%negb_true_iff. destruct (q c) eqn:Hq; [|done].
  by rewrite (Hpq c Hq) in Hc.
Qed.

(** ** A comma on its own *)

Lemma pmatch_opt_class_skip p prev s g k :
  stops p s = true → pmatch (POpt (PClass p)) prev s g k = k prev s g.
Proof.
  destruct s as [|c s]; simpl; [done|]. by intros ->%negb_true_iff.
Qed.

(** What follows the group decides the match, the group being the
    comma. *)
Lemma pmatch_quantity_comma r2 prev t e :
  stops is_quantity_char t = true →
  pmatch r2 (Some ","%char) t (Some ",")
    (λ _ rest g, Some (rest, g)) = Some e →
  pmatch_here (PSeq quantity r2) prev (String "," t) = Some e.
Proof.
  intros Hstop He. unfold pmatch_here, quantity.
  change (pmatch (PSeq ?a ?b) ?prev ?s ?g ?k)
    with (pmatch a prev s g (λ prev' s' g', pmatch b prev' s' g' k)).
  change (pmatch (PGroup ?a) ?prev ?s ?g ?k)
    with (pmatch a prev s g
            (λ prev' s' _, k prev' s' (Some (matched s s')))).
  change (pmatch (PSeq ?a ?b) ?prev ?s ?g ?k)
    with (pmatch a prev s g (λ prev' s' g', pmatch b prev' s' g' k)).
  apply (pmatch_plus_greedy is_digit_or_comma ","); [done|done| |].
  { apply (stops_impl is_quantity_char); [|done].
    unfold is_quantity_char. by intros c ->. }
  change (pmatch (PSeq ?a ?b) ?prev ?s ?g ?k)
    with (pmatch a prev s g (λ prev' s' g', pmatch b prev' s' g' k)).
  rewrite pmatch_opt_class_skip.
  2:{ apply (stops_impl is_quantity_char); [|done].
      unfold is_quantity_char. intros c ->. by rewrite orb_true_r. }
  apply (pmatch_star_greedy is_digit ""); [done| |].
  { apply (stops_impl is_quantity_char); [|done].
    unfold is_quantity_char, is_digit_or_comma. by intros c ->. }
  pose proof (matched_append "," t) as Hm. simpl in Hm. by rewrite Hm.
Qed.

(** With no group in what follows, the group of the result is the one
    given. *)
Lemma pmatch_group_free r prev s g e :
  group_free r = true →
  pmatch r prev s g (λ _ rest g', Some (rest, g')) = Some e → snd e = g.
Proof.
  intros Hfree (prev' & s' & g' & Hm & [= <-])%pmatch_sound. simpl.
  by apply (PMatches_group_free _ _ _ _ _ _ _ Hm).
Qed.

(** A comma, whitespace and a unit match with the comma as the group. *)
Lemma comma_unit_matches unit prev ws u post :
  group_free unit = true →
  (∀ prev1 g, ∃ prev', PMatches unit prev1 (u +:+ post) g prev' post g) →
  all_in is_space ws = true → is_weight_unit u →
  ∃ rest,
    pmatch_here (PSeq quantity (PSeq (PStar is_space) unit)) prev
      (String "," (ws +:+ u +:+ post))
    = Some (rest, Some ",").
Proof.
  intros Hfree Hunit Hws Hu.
  destruct (Hunit (prev_after (Some ","%char) ws) (Some ","))
    as [prev' Hm].
  assert (PMatches (PSeq (PStar is_space) unit) (Some ","%char)
            (ws +:+ u +:+ post) (Some ",") prev' post (Some ",")) as Htail
    by (eapply PMatches_seq; [by apply PMatches_star|done]).
  destruct (pmatch_complete _ _ _ _ _ _ _ Htail
              (λ _ rest g, Some (rest, g))) as [[rest g] He]; [done|].
  assert (g = Some ",") as ->.
  { by apply pmatch_group_free in He. }
  exists rest. apply pmatch_quantity_comma; [|done].
  apply stops_blank_then; auto using space_not_quantity, weight_unit_stops.
Qed.

Lemma quantity_needs_char r2 prev c s :
  is_digit_or_comma c = false →
  pmatch_here (PSeq quantity r2) prev (String c s) = None.
Proof. intros Hc. unfold pmatch_here. simpl. by rewrite Hc. Qed.

Lemma weights_fold_none kilos (gs : list (option string)) :
  fold_left (weight_step kilos) gs None = None.
Proof. by induction gs. Qed.

(** The scan of a text with a comma on its own before a unit comes to the
    comma, and [float] of nothing raises. *)
Lemma weights_of_lone_comma unit kilos pre ws u post :
  group_free unit = true →
  (∀ prev1 g, ∃ prev', PMatches unit prev1 (u +:+ post) g prev' post g) →
  free_of is_digit_or_comma pre = true → all_in is_space ws = true →
  is_weight_unit u →
  weights_of (PSeq quantity (PSeq (PStar is_space) unit)) kilos
    (pre +:+ "," +:+ ws +:+ u +:+ post) = None.
Proof.
  intros Hfree Hunit Hpre Hws Hu. unfold weights_of, finditer.
  rewrite (finditer_from_prefix _ (λ c, negb (is_digit_or_comma c)));
    [| |done].
  2:{ intros prev c s Hc. apply quantity_needs_char.
      by apply negb_true_iff. }
  destruct (comma_unit_matches unit (prev_after None pre) ws u post)
    as [rest Hm]; try done.
  simpl String.append. cbn [finditer_from]. rewrite Hm.
  cbn [fold_left].
  change (weight_step kilos (Some []) (Some ",")) with (@None (list float)).
  apply weights_fold_none.
Qed.

(** X18: in an ASCII text, a comma that no digit or comma precedes,
    followed by optional whitespace and a unit of weight (lb, pound, #, kg
    or kilo in any mix of cases, whatever comes next) is read as a quantity
    without digits: [float] raises ValueError, and [extract_weights] and
    [first_pass_extract] leave with it, as on "tuna, lbs". *)
Theorem extract_weights_lone_comma (pre ws u post : string) :
  ascii_text pre = true → ascii_text post = true →
  free_of is_digit_or_comma pre = true → all_in is_space ws = true →
  is_weight_unit u →
  extract_weights (pre +:+ "," +:+ ws +:+ u +:+ post) = None
  ∧ first_pass_extract (pre +:+ "," +:+ ws +:+ u +:+ post) = None.
Proof.
  intros _ _ Hpre Hws Hu.
  assert (extract_weights (pre +:+ "," +:+ ws +:+ u +:+ post) = None) as Hw.
  { unfold extract_weights, weight_in_pounds, weight_in_kilos.
    destruct Hu as [Hp|Hk].
    - by rewrite (weights_of_lone_comma pound_unit false pre ws u post
                    eq_refl (λ prev1 g, pound_unit_matches prev1 u post g Hp)
                    Hpre Hws (or_introl Hp)).
    - rewrite (weights_of_lone_comma kilo_unit true pre ws u post
                 eq_refl (λ prev1 g, kilo_unit_matches prev1 u post g Hk)
                 Hpre Hws (or_intror Hk)).
      by destruct (weights_of _ false _). }
  split; [done|]. unfold first_pass_extract. by rewrite Hw.
Qed.

(** X18 on "tuna, lbs". *)
Lemma extract_weights_lone_comma_witness :
  ascii_text "tuna" = true
  ∧ ascii_text "s" = true
  ∧ free_of is_digit_or_comma "tuna" = true
  ∧ all_in is_space " " = true
  ∧ is_weight_unit "lb"
  ∧ extract_weights ("tuna" +:+ "," +:+ " " +:+ "lb" +:+ "s") = None
  ∧ first_pass_extract ("tuna" +:+ "," +:+ " " +:+ "lb" +:+ "s") = None.
Proof.
  assert (ascii_text "tuna" = true) as Ha by (by vm_compute).
  assert (ascii_text "s" = true) as Hb by (by vm_compute).
  assert (free_of is_digit_or_comma "tuna" = true) as Hpre
    by (by vm_compute).
  assert (all_in is_space " " = true) as Hws by (by vm_compute).
  assert (is_weight_unit "lb") as Hu
    by (left; vm_compute; repeat constructor).
  do 5 (split; [done|]).
  exact (extract_weights_lone_comma "tuna" " " "lb" "s" Ha Hb Hpre Hws Hu).
Defined.

(** ** The quantities the scans report *)

Lemma opt_class_inv p prev s g prev' s' g' :
  PMatches (POpt (PClass p)) prev s g prev' s' g' →
  ∃ one, s = one +:+ s' ∧ g' = g
         ∧ (one = "" ∨ ∃ c, one = String c "" ∧ p c = true).
Proof.
  inversion 1 as [| | | | | | | | |? ? ? ? ? ? ? Hc|]; subst.
  - inversion Hc; subst. eexists (String _ ""). repeat split. right. eauto.
  - exists "". repeat split. by left.
Qed.

(** A match of a pattern of weights starts with digits and commas, an
    optional point and digits, and they are its group. *)
Lemma quantity_shape r2 prev s rest g :
  group_free r2 = true →
  pmatch_here (PSeq quantity r2) prev s = Some (rest, g) →
  ∃ run dot digs tail,
    s = run +:+ dot +:+ digs +:+ tail
    ∧ run ≠ "" ∧ all_in is_digit_or_comma run = true
    ∧ (dot = "" ∨ dot = ".") ∧ all_in is_digit digs = true
    ∧ g = Some (run +:+ dot +:+ digs).
Proof.
  intros Hfree (prev' & Hm)%pmatch_here_sound. unfold quantity in Hm.
  apply seq_inv in Hm as (prev1 & s1 & g1 & Hg & Hm).
  apply (PMatches_group_free _ _ _ _ _ _ _ Hm) in Hfree as ->.
  apply group_inv in Hg as (-> & g0 & Hq).
  apply seq_inv in Hq as (prev2 & s2 & g2 & Hrun & Hq).
  apply plus_inv in Hrun as (run & -> & Hne & Hrun & -> & ->).
  apply seq_inv in Hq as (prev3 & s3 & g3 & Hdot & Hdigs).
  apply opt_class_inv in Hdot as (dot & -> & -> & Hdot).
  apply star_inv in Hdigs as (digs & -> & Hdigs & -> & ->).
  exists run, dot, digs, s1. repeat split; try done.
  - destruct Hdot as [->|(c & -> & Hc)]; [by left|right].
    apply Ascii.eqb_eq in Hc. by subst c.
  - f_equal. rewrite <- (matched_append (run +:+ dot +:+ digs) s1).
    by rewrite !append_assoc.
Qed.

Lemma remove_commas_free s : free_of is_comma s = true → remove_commas s = s.
Proof.
  unfold free_of, is_comma. induction s as [|c s IH]; simpl; [done|].
  intros [Hc Hs]%andb_true_iff. apply negb_true_iff in Hc as ->.
  by rewrite IH.
Qed.

Lemma split_point_digits a :
  all_in is_digit a = true → split_point a = (a, None).
Proof.
  induction a as [|c a IH]; simpl; [done|].
  intros [Hc Ha]%andb_true_iff. rewrite (IH Ha).
  destruct (Ascii.eqb_spec c ".") as [->|]; done.
Qed.

Lemma split_point_point a b :
  all_in is_digit a = true → split_point (a +:+ String "." b) = (a, Some b).
Proof.
  induction a as [|c a IH]; simpl; [done|].
  intros [Hc Ha]%andb_true_iff. rewrite (IH Ha).
  destruct (Ascii.eqb_spec c "." ) as [->|]; done.
Qed.

Lemma nonempty_append (a b : string) : a ≠ "" → String.eqb (a +:+ b) "" = false.
Proof. by destruct a. Qed.

(** [float] accepts digits, an optional point and digits. *)
Lemma float_of_str_quantity run dot digs :
  run ≠ "" → all_in is_digit run = true → dot = "" ∨ dot = "." →
  all_in is_digit digs = true →
  is_Some (float_of_str (run +:+ dot +:+ digs)).
Proof.
  intros Hne Hrun [->| ->] Hdigs; unfold float_of_str; simpl.
  - rewrite split_point_digits by (by rewrite all_in_append, Hrun, Hdigs).
    rewrite !forallb_all_in, all_in_append, Hrun, Hdigs. simpl.
    rewrite append_empty_r, nonempty_append by done. by eexists.
  - rewrite split_point_point by done.
    rewrite !forallb_all_in, Hrun, Hdigs, nonempty_append by done.
    by eexists.
Qed.

Lemma digits_of_run run :
  all_in is_digit_or_comma run = true → free_of is_comma run = true →
  all_in is_digit run = true.
Proof.
  unfold free_of, is_comma, is_digit_or_comma.
  induction run as [|c run IH]; simpl; [done|].
  intros [Hc Hrun]%andb_true_iff [Hn Hfree]%andb_true_iff.
  apply negb_true_iff in Hn. rewrite Hn, orb_false_r in Hc.
  by rewrite Hc, IH.
Qed.

Lemma weights_fold (kilos : bool) (gs : list (option string)) :
  ∀ acc,
    Forall (λ g, ∃ group, g = Some group
                          ∧ is_Some (float_of_str (remove_commas group))) gs →
    is_Some (fold_left (weight_step kilos) gs (Some acc)).
Proof.
  induction gs as [|g gs IH]; intros acc Hgs; simpl; [done|].
  apply Forall_cons in Hgs as [(group & -> & [val Hval]) Hgs].
  simpl. rewrite Hval. by apply IH.
Qed.

(** Without commas every quantity has a digit. *)
Lemma weights_of_no_comma r2 kilos text :
  group_free r2 = true → free_of is_comma text = true →
  is_Some (weights_of (PSeq quantity r2) kilos text).
Proof.
  intros Hfree Htext. apply weights_fold, Forall_forall. intros g Hg.
  apply finditer_from_elem in Hg as (pre & prev' & s' & rest & -> & Hm).
  apply quantity_shape in Hm
    as (run & dot & digs & tail & -> & Hne & Hrun & Hdot & Hdigs & ->);
    [|done].
  rewrite !free_of_append in Htext.
  apply andb_true_iff in Htext as [_ Htext].
  apply andb_true_iff in Htext as [Hr Htext].
  apply andb_true_iff in Htext as [Hd Htext].
  apply andb_true_iff in Htext as [Hg _].
  exists (run +:+ dot +:+ digs). split; [done|].
  rewrite remove_commas_free by (by rewrite !free_of_append, Hr, Hd, Hg).
  apply float_of_str_quantity; auto using digits_of_run.
Qed.

Lemma extract_box_counts_returns text :
  (longest_digit_run text ≤ int_max_str_digits)%nat →
  is_Some (extract_box_counts text).
Proof.
  intros Hrun. unfold extract_box_counts.
  rewrite (counts_of_groups count_then_boxes),
    (counts_of_groups boxes_then_count); [done| |].
  - apply Forall_forall. intros g Hg.
    apply boxes_then_count_groups in Hg
      as (w & ws1 & sep & ws2 & ds & -> & Hn & _ & _ & _ & _ & _ & Hlen).
    exists ds. repeat split; try done. lia.
  - apply Forall_forall. intros g Hg.
    apply count_then_boxes_groups in Hg
      as (ds & ws & w & -> & Hn & _ & _ & _ & Hlen).
    exists ds. repeat split; try done. lia.
Qed.

(** X19: on an ASCII text without commas [extract_weights] raises no
    exception: every quantity it reads has a digit. [first_pass_extract]
    returns its summary on such a text when, moreover, no run of digits is
    longer than the 4300 digits [int] accepts. *)
Theorem extract_weights_no_comma (text : string) :
  ascii_text text = true →
  free_of is_comma text = true →
  is_Some (extract_weights text)
  ∧ ((longest_digit_run text ≤ int_max_str_digits)%nat →
     is_Some (first_pass_extract text)).
Proof.
  intros _ Htext.
  assert (is_Some (extract_weights text)) as [weights Hw].
  { unfold extract_weights, weight_in_pounds, weight_in_kilos.
    destruct (weights_of_no_comma (PSeq (PStar is_space) pound_unit) false
                text eq_refl Htext) as [w1 ->].
    by destruct (weights_of_no_comma (PSeq (PStar is_space) kilo_unit) true
                   text eq_refl Htext) as [w2 ->]. }
  split; [by exists weights|]. intros Hrun.
  unfold first_pass_extract. rewrite Hw.
  by destruct (extract_box_counts_returns text Hrun) as [counts ->].
Qed.

(** X19 on a text with weights in both units. *)
Lemma extract_weights_no_comma_witness :
  ascii_text "450 lbs and 3.5 kg" = true
  ∧ free_of is_comma "450 lbs and 3.5 kg" = true
  ∧ (longest_digit_run "450 lbs and 3.5 kg" ≤ int_max_str_digits)%nat
  ∧ is_Some (extract_weights "450 lbs and 3.5 kg")
  ∧ is_Some (first_pass_extract "450 lbs and 3.5 kg").
Proof.
  assert (ascii_text "450 lbs and 3.5 kg" = true) as Hascii
    by (by vm_compute).
  assert (free_of is_comma "450 lbs and 3.5 kg" = true) as Htext
    by (by vm_compute).
  assert (longest_digit_run "450 lbs and 3.5 kg"
          ≤ int_max_str_digits)%nat as Hrun
    by (apply Nat.leb_le; by vm_compute).
  destruct (extract_weights_no_comma _ Hascii Htext) as [Hw Hf].
  split; [exact Hascii|]. split; [exact Htext|]. split; [exact Hrun|].
  split; [exact Hw|exact (Hf Hrun)].
Defined.

End Weights.
